(** * SageMaker workshop notebooks: data splitting and batch-result tallying

    A shallow embedding of the two pieces of the TensorFlow workshop that
    compute something themselves:

    - [1_tf_image_classification_birds.ipynb]: [split_to_train_val_test]
      and [get_train_val_dataframes];
    - [3_tf_sm_batch_ic.ipynb]: the batch-transform cells, the loop that
      tallies the downloaded prediction files, and the accuracy cell.

    Further on come the cell that builds [class_name_list],
    [show_species], the pass over the validation images and
    [test_image_df] of the first notebook.

    Python exceptions are values of [result]; code that mutates variables
    or draws random numbers runs in the monad [M], whose state survives a
    raise, as the variables of a notebook kernel do. *)

From Stdlib Require Import Ascii String QArith Qround Qabs Qpower Lia Lqa.
From stdpp Require Import base list strings gmap pretty sorting.

(** ** The Python runtime *)

Module Py.

Inductive pyerr : Type :=
| ValueError | KeyError | IndexError | TypeError
| ZeroDivisionError | OverflowError | OSError.

Inductive result (A : Type) : Type :=
| Ok (a : A)
| Raise (e : pyerr).
Arguments Ok {A} a.
Arguments Raise {A} e.

(** Statements over a state [S]: a raise leaves the state as it was at
    the raising statement. *)
Definition M (S A : Type) : Type := S → result A * S.

Definition ret {S A} (a : A) : M S A := λ s, (Ok a, s).
Definition bind {S A B} (m : M S A) (f : A → M S B) : M S B :=
  λ s, match m s with
       | (Ok a, s') => f a s'
       | (Raise e, s') => (Raise e, s')
       end.
Definition raise {S A} (e : pyerr) : M S A := λ s, (Raise e, s).
Definition lift {S A} (r : result A) : M S A := λ s, (r, s).
Definition modify {S} (f : S → S) : M S unit := λ s, (Ok tt, f s).

(** [try: body except Exception as e: handler(e)] *)
Definition try_except {S A} (body : M S A) (handler : pyerr → M S A) : M S A :=
  λ s, match body s with
       | (Ok a, s') => (Ok a, s')
       | (Raise e, s') => handler e s'
       end.

(** [for x in xs: body(x)] *)
Fixpoint for_each {S A} (xs : list A) (body : A → M S unit) : M S unit :=
  match xs with
  | [] => ret tt
  | x :: xs' => bind (body x) (λ _, for_each xs' body)
  end.

(** *** Floats

    A float is the rational it denotes.  [rnd] rounds a rational to the
    nearest number with a 53-bit significand, ties to even, which is
    what every IEEE double operation does to its exact result.  The
    exponent range is not modelled: the floats of these notebooks are
    split ratios, row counts and their products. *)

Definition pow2 (k : Z) : Q := Qpower 2 k.

(** Python's [round(x)] on a float: nearest integer, ties to even. *)
Definition py_round (s : Q) : Z :=
  let f := Qfloor s in
  match Qcompare (s - inject_Z f) (1 # 2) with
  | Lt => f
  | Gt => (f + 1)%Z
  | Eq => if Z.even f then f else (f + 1)%Z
  end.

(** The binary exponent [e] of a positive rational: [2^e <= x < 2^(e+1)]. *)
Definition binexp (x : Q) : Z :=
  let a := (Z.log2 (Qnum x) - Z.log2 (Zpos (Qden x)))%Z in
  if Qle_bool (pow2 a) x then a else (a - 1)%Z.

Definition rnd_pos (x : Q) : Q :=
  let e := binexp x in
  inject_Z (py_round (x * pow2 (52 - e))) * pow2 (e - 52).

Definition rnd (x : Q) : Q :=
  match Qnum x with
  | Z0 => 0
  | Zpos _ => Qred (rnd_pos x)
  | Zneg _ => Qred (- rnd_pos (- x))
  end.

(** A decimal literal such as [0.7] is the double nearest to it. *)
Definition float_lit (q : Q) : Q := rnd q.
Definition float_of_nat (n : nat) : Q := rnd (inject_Z (Z.of_nat n)).
Definition fadd (a b : Q) : Q := rnd (a + b).
Definition fmul (a b : Q) : Q := rnd (a * b).

(** [a / b] on floats. *)
Definition truediv (a b : Q) : result Q :=
  if Qeq_bool b 0 then Raise ZeroDivisionError else Ok (rnd (a / b)).

(** [a / b] on ints: the correctly rounded quotient. *)
Definition int_truediv (a b : nat) : result Q :=
  match b with
  | 0 => Raise ZeroDivisionError
  | S _ => Ok (rnd (inject_Z (Z.of_nat a) / inject_Z (Z.of_nat b)))
  end.

(** [float(z)] on an int: the nearest double, OverflowError past the
    largest one. *)
Definition float_of_int (z : Z) : result Q :=
  let x := rnd (inject_Z z) in
  if Qle_bool (pow2 1024) (Qabs x) then Raise OverflowError else Ok x.

(** [str(i)] on a non-negative int. *)
Definition str (i : nat) : string := pretty i.

(** *** Expressions that may raise *)

Definition rbind {A B} (r : result A) (f : A → result B) : result B :=
  match r with
  | Ok a => f a
  | Raise e => Raise e
  end.

(** The elements of a comprehension, left to right; the first raise wins. *)
Fixpoint rmap {A B} (f : A → result B) (l : list A) : result (list B) :=
  match l with
  | [] => Ok []
  | x :: l' => rbind (f x) (λ y, rbind (rmap f l') (λ ys, Ok (y :: ys)))
  end.

(** [l[i]] for [i >= 0] *)
Definition getitem_list {A} (l : list A) (i : nat) : result A :=
  match l !! i with
  | Some x => Ok x
  | None => Raise IndexError
  end.

(** [l.index(x)]: the first position of [x]. *)
Fixpoint list_index {A} `{EqDecision A} (l : list A) (x : A) : result nat :=
  match l with
  | [] => Raise ValueError
  | y :: l' =>
      if decide (y = x) then Ok 0
      else rbind (list_index l' x) (λ i, Ok (S i))
  end.

(** [s.split(sep)] for a one-character separator. *)
Fixpoint split (sep : Ascii.ascii) (s : string) : list string :=
  match s with
  | EmptyString => [EmptyString]
  | String c s' =>
      if decide (c = sep) then EmptyString :: split sep s'
      else match split sep s' with
           | [] => [String c EmptyString]
           | h :: t => String c h :: t
           end
  end.

End Py.
Export Py.

Notation "x <- c1 ;; c2" := (bind c1 (λ x, c2))
  (at level 100, c1 at next level, right associativity, only parsing).

(** ** The pandas operations the notebook calls *)

Module Pandas.

(** A row of a dataframe: its index label and its cells. *)
Record irow (R : Type) : Type := IRow { ix : Z; dat : R }.
Arguments IRow {R} ix dat.
Arguments ix {R} i.
Arguments dat {R} i.

Abbreviation frame R := (list (irow R)) (only parsing).

(** [df.index] *)
Definition index {R} (df : frame R) : list Z := ix <$> df.

(** A cell of a label column: [None] is a missing value (NaN or None). *)
Abbreviation cell := (option string) (only parsing).

(** [series == lbl], element by element: a missing value equals
    nothing, itself included. *)
Definition cell_eq (c lbl : cell) : bool :=
  match c, lbl with
  | Some a, Some b => bool_decide (a = b)
  | _, _ => false
  end.

(** [series.unique()]: the distinct values in order of first appearance;
    all missing values count as one. *)
Fixpoint unique {A} `{EqDecision A} (l : list A) : list A :=
  match l with
  | [] => []
  | x :: l' => x :: filter (λ y, y ≠ x) (unique l')
  end.

(** [df[mask]] keeps row order and index labels. *)
Definition select {R} (col : R → cell) (lbl : cell) (df : frame R) : frame R :=
  filter (λ r, cell_eq (col (dat r)) lbl = true) df.

(** [df.drop(labels)]: every row whose index label is listed goes; a
    listed label that is not in the index raises KeyError. *)
Definition drop {R} (labels : list Z) (df : frame R) : result (frame R) :=
  if bool_decide (labels ⊆ index df)
  then Ok (filter (λ r, ix r ∉ labels) df)
  else Raise KeyError.

(** The global random generator of numpy: the draws still to come. *)
Definition rng : Type := list nat.

Definition draw : M rng nat := λ g,
  match g with
  | [] => (Ok 0, [])
  | d :: g' => (Ok d, g')
  end.

(** [n] rows drawn one after the other, each from those that are left:
    every ordered choice of [n] distinct positions is the outcome of some
    generator state. *)
Fixpoint sample_n {A} (n : nat) (l : list A) : M rng (list A) :=
  match n with
  | 0 => ret []
  | S n' =>
      d <- draw ;;
      match l !! (d mod length l) with
      | None => ret []
      | Some x =>
          s <- sample_n n' (delete (d mod length l) l) ;;
          ret (x :: s)
      end
  end.

(** The number of rows [sample(frac=frac)] takes: [round(frac * len)]. *)
Definition sample_size (frac : Q) (len : nat) : Z :=
  py_round (fmul frac (float_of_nat len)).

(** [df.sample(frac=frac)] with a float [frac], without replacement:
    [frac > 1] is refused, then [n = int(round(frac * len))], a negative
    [n] is refused, and the generator refuses to draw more rows than
    there are. *)
Definition sample {R} (frac : Q) (df : frame R) : M rng (frame R) :=
  if Qlt_le_dec 1 frac then raise ValueError
  else
    let n := sample_size frac (length df) in
    if bool_decide (n < 0)%Z then raise ValueError
    else if bool_decide (length df < Z.to_nat n) then raise ValueError
    else sample_n (Z.to_nat n) df.

(** [df.sample(frac=1)] with the int [1]: [round(1 * len)] is [len]. *)
Definition sample_all {R} (df : frame R) : M rng (frame R) :=
  sample_n (length df) df.

(** [df.reset_index(drop=True)]: the index becomes 0, 1, 2, ... *)
Definition reset_index {R} (df : frame R) : frame R :=
  imap (λ i r, IRow (Z.of_nat i) (dat r)) df.

(** Column assignments and column drops: every row is rebuilt by [f],
    the index stays. *)
Definition with_columns {R R'} (f : R → R') (df : frame R) : frame R' :=
  (λ r, IRow (ix r) (f (dat r))) <$> df.

(** [pd.merge(left, right, on=key)]: the inner join, in the order of the
    left rows, under a fresh index. *)
Definition merge {L R' K O} `{EqDecision K}
    (lkey : L → K) (rkey : R' → K) (pair : L → R' → O)
    (left : frame L) (right : frame R') : frame O :=
  reset_index
    (l ← left; r ← filter (λ r, rkey (dat r) = lkey (dat l)) right;
     [IRow 0 (pair (dat l) (dat r))]).

End Pandas.
Export Pandas.

(** ** Notebook 1: the bird dataframes *)

Module Birds.

Section split.
Context {R : Type}.

(** One turn of the loop [for lbl in labels]. *)
Definition split_label (label_column : R → cell) (splits : Q * Q * Q)
    (df : frame R) (lbl : cell) (acc : frame R * frame R * frame R)
    : M rng (frame R * frame R * frame R) :=
  let '(train_df, val_df, test_df) := acc in
  let '(s0, s1, s2) := splits in
  let lbl_df := select label_column lbl df in
  lbl_train_df <- sample s0 lbl_df ;;
  lbl_val_and_test_df <- lift (drop (index lbl_train_df) lbl_df) ;;
  frac <- lift (truediv s2 (fadd s1 s2)) ;;
  lbl_test_df <- sample frac lbl_val_and_test_df ;;
  lbl_val_df <- lift (drop (index lbl_test_df) lbl_val_and_test_df) ;;
  ret (train_df ++ lbl_train_df, val_df ++ lbl_val_df, test_df ++ lbl_test_df).

Fixpoint split_labels (label_column : R → cell) (splits : Q * Q * Q)
    (df : frame R) (labels : list cell) (acc : frame R * frame R * frame R)
    : M rng (frame R * frame R * frame R) :=
  match labels with
  | [] => ret acc
  | lbl :: labels' =>
      acc' <- split_label label_column splits df lbl acc ;;
      split_labels label_column splits df labels' acc'
  end.

Definition split_to_train_val_test (df : frame R) (label_column : R → cell)
    (splits : Q * Q * Q) : M rng (frame R * frame R * frame R) :=
  let labels := unique (label_column ∘ dat <$> df) in
  acc <- split_labels label_column splits df labels ([], [], []) ;;
  let '(train_df, val_df, test_df) := acc in
  (* shuffle them on the way out using .sample(frac=1) *)
  tr <- sample_all train_df ;;
  va <- sample_all val_df ;;
  te <- sample_all test_df ;;
  ret (tr, va, te).
End split.

Definition SAMPLE_ONLY : bool := true.

Definition CLASSES : list Z :=
  if negb SAMPLE_ONLY then (λ c, c + 1)%Z <$> seqZ 0 200 else [13; 17]%Z.

Definition SPLIT_RATIOS : Q * Q * Q :=
  (float_lit (7 # 10), float_lit (2 # 10), float_lit (1 # 10)).

Definition EXCLUDE_IMAGE_LIST : list string :=
  ["087.Mallard/Mallard_0130_76836.jpg"].

(** [pd.read_csv(file, sep=' ', names=..., header=None)]: the parsed
    lines under the index 0, 1, 2, ...  A line of [images.txt] is
    (image_pretty_name, image_file_name); a line of
    [image_class_labels.txt] is (image_pretty_name, orig_class_id).
    The lines are taken as pandas types them when the ids are int
    literals and the file names are tokens it reads as text; a file name
    that is a number literal or a missing-value token is read as a
    number or as NaN, which this definition does not describe. *)
Definition read_csv {R} (lines : list R) : frame R :=
  imap (λ i r, IRow (Z.of_nat i) r) lines.

(** A row of [full_df] as it is handed to the splitter. *)
Record bird : Type := Bird {
  image_file_name : string;
  orig_class_id : Z;
  class_id : cell;
  class_name : string
}.

(** [fn.split('/')[0]] *)
Definition get_class_name (fn : string) : string :=
  match split "/"%char fn with
  | h :: _ => h
  | [] => EmptyString
  end.

(** The loop that fills the dict [id_to_one_based]. *)
Fixpoint fill_id_to_one_based (sorted_unique_classes : list Z) (i : nat)
    (id_to_one_based : gmap Z string) : gmap Z string :=
  match sorted_unique_classes with
  | [] => id_to_one_based
  | c :: rest =>
      fill_id_to_one_based rest (S i) (<[c := str i]> id_to_one_based)
  end.

Section get_train_val_dataframes.
Variable images : list (Z * string).
Variable image_class_labels : list (Z * Z).

(** [full_df] after the exclusion filter, the merge and the class
    filter: rows (image_pretty_name, image_file_name, orig_class_id). *)
Definition merged_df : frame (Z * string * Z) :=
  let images_df := read_csv images in
  let image_class_labels_df := read_csv image_class_labels in
  let full_df := filter (λ r, (dat r).2 ∉ EXCLUDE_IMAGE_LIST) images_df in
  let full_df := reset_index full_df in
  let full_df :=
    merge fst fst (λ l r, (l.1, l.2, r.2)) full_df image_class_labels_df in
  if SAMPLE_ONLY
  then filter (λ r, (dat r).2 ∈ CLASSES) full_df
  else full_df.

Definition sorted_unique_classes : list Z :=
  let unique_classes := unique ((λ r, (dat r).2) <$> merged_df) in
  merge_sort Z.le unique_classes.

Definition id_to_one_based : gmap Z string :=
  fill_id_to_one_based sorted_unique_classes 1 ∅.

(** [full_df] with the columns class_id and class_name added and
    image_pretty_name dropped. *)
Definition full_df : frame bird :=
  (* full_df['class_id'] = full_df['orig_class_id'].map(id_to_one_based) *)
  let full_df :=
    with_columns (λ r, (r, id_to_one_based !! r.2)) merged_df in
  let full_df := reset_index full_df in
  (* full_df['class_name'] = full_df['image_file_name'].apply(get_class_name) *)
  let full_df :=
    with_columns (λ r, (r, get_class_name r.1.1.2)) full_df in
  (* full_df = full_df.drop(['image_pretty_name'], axis=1) *)
  with_columns (λ r, Bird r.1.1.1.2 r.1.1.2 r.1.2 r.2) full_df.

Definition get_train_val_dataframes
    : M rng (frame bird * frame bird * frame bird) :=
  split_to_train_val_test full_df class_id SPLIT_RATIOS.
End get_train_val_dataframes.

End Birds.
Export Birds.

(** ** Notebook 3: batch predictions *)

Module Batch.

(** What [json.load] returns.  A float is finite or one of the three
    constants NaN, Infinity and -Infinity that Python's parser accepts. *)
Inductive pyfloat : Type :=
| Fin (q : Q)
| PosInf
| NegInf
| NaN.

Local Unset Elimination Schemes.
Inductive json : Type :=
| JNone
| JBool (b : bool)
| JInt (z : Z)
| JFloat (f : pyfloat)
| JStr (s : string)
| JList (l : list json)
| JDict (d : list (string * json)).
Local Set Elimination Schemes.

(** [jstr[key]] with a string key; the keys of a dict are distinct. *)
Definition getitem (jstr : json) (key : string) : result json :=
  match jstr with
  | JDict d =>
      match list_find (λ kv, kv.1 = key) d with
      | Some (_, (_, v)) => Ok v
      | None => Raise KeyError
      end
  | _ => Raise TypeError
  end.

(** [for x in v]: a list yields its elements, a str its characters, a
    dict its keys; nothing else is iterable. *)
Definition iter (v : json) : result (list json) :=
  match v with
  | JList l => Ok l
  | JStr s => Ok ((λ c, JStr (String c EmptyString)) <$> list_ascii_of_string s)
  | JDict d => Ok ((λ kv, JStr kv.1) <$> d)
  | _ => Raise TypeError
  end.

(** The floats [float('%.3f' % item)] can be: a finite one is a whole
    number of thousandths, and two of them compare as their numbers of
    thousandths do. *)
Inductive rounded : Type :=
| Thousandths (n : Z)
| RPosInf
| RNegInf
| RNaN.

(** ['%.3f' % x] rounds the exact value of [x] to three decimals, ties to
    even. *)
Definition round3 (q : Q) : rounded := Thousandths (py_round (q * 1000)).

(** [float('%.3f' % (item))] *)
Definition float_fmt3 (item : json) : result rounded :=
  match item with
  | JFloat (Fin q) => Ok (round3 q)
  | JFloat PosInf => Ok RPosInf
  | JFloat NegInf => Ok RNegInf
  | JFloat NaN => Ok RNaN
  | JInt z => rbind (float_of_int z) (λ x, Ok (round3 x))
  | JBool b => Ok (round3 (if b then 1 else 0))
  | _ => Raise TypeError
  end.

(** [[float('%.3f'%(item)) for sublist in predictions for item in sublist]] *)
Definition flatten_round (predictions : json) : result (list rounded) :=
  rbind (iter predictions) (λ sublists,
  rbind (rmap (λ sublist, rbind (iter sublist) (rmap float_fmt3)) sublists)
    (λ rows, Ok (concat rows))).

(** [x <= y] on floats: false as soon as one side is NaN. *)
Definition float_le (x y : rounded) : bool :=
  match x, y with
  | RNaN, _ | _, RNaN => false
  | RNegInf, _ => true
  | _, RPosInf => true
  | Thousandths a, Thousandths b => bool_decide (a ≤ b)%Z
  | _, _ => false
  end.

Definition isnan (x : rounded) : bool :=
  match x with RNaN => true | _ => false end.

(** The scan of [np.argmax]: [mp] is the best value so far, found at
    [max_ind]; [i] is the position of the head of [ip].  A later element
    replaces the best one unless it is [<=] it, and a NaN ends the scan. *)
Fixpoint argmax_scan (mp : rounded) (max_ind i : nat) (ip : list rounded) : nat :=
  match ip with
  | [] => max_ind
  | x :: ip' =>
      if float_le x mp then argmax_scan mp max_ind (S i) ip'
      else if isnan x then i
      else argmax_scan x i (S i) ip'
  end.

(** [np.argmax(np.array(results))] *)
Definition argmax (results : list rounded) : result nat :=
  match results with
  | [] => Raise ValueError
  | x :: ip => Ok (if isnan x then 0 else argmax_scan x 0 1 ip)
  end.

(** What the notebook does to the world outside the kernel. *)
Inductive call : Type :=
| transformer_transform
| transformer_wait
| aws_s3_cp
| glob_glob (pattern : string)
| cat (path : string)
| open_json (path : string).

Global Instance call_eq_dec : EqDecision call.
Proof. solve_decision. Defined.

Inductive output : Type :=
| printed_found (n : nat)
| printed_error (e : pyerr)
| printed_totals (total correct : nat)
| printed_accuracy (accuracy : Q).

(** How the world answers: the outcome of the two SDK calls, what the
    local directory holds once the results are copied, and what [open]
    followed by [json.load] gives for a path. *)
Record world : Type := World {
  transform_outcome : result unit;
  wait_outcome : result unit;
  glob_outcome : string → list string;
  load_outcome : string → result json
}.

(** The variables of the kernel, the calls made so far and the text
    printed so far. *)
Record kernel : Type := Kernel {
  total : nat;
  correct : nat;
  predicted : list nat;
  actual : list nat;
  calls : list call;
  stdout : list output
}.

Definition kernel0 : kernel := Kernel 0 0 [] [] [] [].

Definition do_call (c : call) : M kernel unit :=
  modify (λ k, Kernel (total k) (correct k) (predicted k) (actual k)
                 (calls k ++ [c]) (stdout k)).
Definition print (o : output) : M kernel unit :=
  modify (λ k, Kernel (total k) (correct k) (predicted k) (actual k)
                 (calls k) (stdout k ++ [o])).
Definition get {A} (f : kernel → A) : M kernel A := λ k, (Ok (f k), k).

Section notebook.
Variable w : world.
Variable class_name_list : list string.

(** The [try] block of the loop. *)
Definition process_entry (entry : string) : M kernel unit :=
  actual_label <- lift (getitem_list (split "/"%char entry) 1) ;;
  actual_index <- lift (list_index class_name_list actual_label) ;;
  _ <- do_call (open_json entry) ;;
  jstr <- lift (load_outcome w entry) ;;
  predictions <- lift (getitem jstr "predictions") ;;
  results <- lift (flatten_round predictions) ;;
  class_index <- lift (argmax results) ;;
  predicted_label <- lift (getitem_list class_name_list class_index) ;;
  _ <- modify (λ k, Kernel (total k) (correct k)
                      (predicted k ++ [class_index]) (actual k)
                      (calls k) (stdout k)) ;;
  _ <- modify (λ k, Kernel (total k) (correct k)
                      (predicted k) (actual k ++ [actual_index])
                      (calls k) (stdout k)) ;;
  let is_correct := bool_decide (predicted_label = actual_label) || false in
  _ <- (if is_correct
        then modify (λ k, Kernel (total k) (correct k + 1)
                            (predicted k) (actual k) (calls k) (stdout k))
        else ret tt) ;;
  modify (λ k, Kernel (total k + 1) (correct k)
                 (predicted k) (actual k) (calls k) (stdout k)).

(** [try: ... except Exception as e: print(e); continue] *)
Definition loop_body (entry : string) : M kernel unit :=
  try_except (process_entry entry) (λ e, print (printed_error e)).

(** [for entry in glob.glob(...): ...] *)
Definition aggregate (entries : list string) : M kernel unit :=
  for_each entries loop_body.

Definition transform_cell : M kernel unit :=
  _ <- do_call transformer_transform ;;
  _ <- lift (transform_outcome w) ;;
  _ <- do_call transformer_wait ;;
  lift (wait_outcome w).

Definition download_cell : M kernel unit :=
  do_call aws_s3_cp.

Definition sample_file_cell : M kernel unit :=
  _ <- do_call (glob_glob "./batch_predictions/*/*") ;;
  let filepaths := glob_outcome w "./batch_predictions/*/*" in
  _ <- print (printed_found (length filepaths)) ;;
  sample_file <- lift (getitem_list filepaths 0) ;;
  do_call (cat sample_file).

Definition aggregate_cell : M kernel unit :=
  _ <- modify (λ k, Kernel 0 0 [] [] (calls k) (stdout k)) ;;
  _ <- do_call (glob_glob "batch_predictions/*/*") ;;
  aggregate (glob_outcome w "batch_predictions/*/*").

Definition accuracy_cell : M kernel Q :=
  total_ <- get total ;;
  correct_ <- get correct ;;
  _ <- print (printed_totals total_ correct_) ;;
  accuracy <- lift (int_truediv correct_ total_) ;;
  _ <- print (printed_accuracy accuracy) ;;
  ret accuracy.

(** The cells from the batch transform on, run top to bottom. *)
Definition run_batch : M kernel Q :=
  _ <- transform_cell ;;
  _ <- download_cell ;;
  _ <- sample_file_cell ;;
  _ <- aggregate_cell ;;
  accuracy_cell.
End notebook.

End Batch.
Export Batch.

From Stdlib Require OrderedTypeEx.

(** ** More of the Python runtime *)

Module Builtins.

(** [int(x)] on a float: its integer part, towards zero. *)
Definition int_of_float (x : Q) : Z :=
  if Qle_bool 0 x then Qfloor x else Qceiling x.

(** [a % b] on non-negative ints. *)
Definition mod_ (a b : nat) : result nat :=
  match b with
  | 0 => Raise ZeroDivisionError
  | S _ => Ok (a mod b)
  end.

(** [l[a:b] = xs] with [0 <= a] and [0 <= b]: both bounds are clipped to
    the length of [l], and an upper bound below the lower one counts as
    the lower one. *)
Definition setslice {A} (l : list A) (a b : nat) (xs : list A) : list A :=
  let a := a `min` length l in
  let b := (b `min` length l) `max` a in
  take a l ++ xs ++ skipn b l.

(** [a <= b] on strings: by code points, a proper prefix first. *)
Definition str_le (a b : string) : Prop := String.leb a b = true.

Global Instance str_le_dec : RelDecision str_le.
Proof. intros a b. unfold str_le. apply _. Defined.

(** [int(s)] on a str of ASCII characters: white space around the
    literal is dropped (space, tab, line feed, vertical tab, form feed
    and carriage return, no other control character), a sign may come
    first, and the rest is decimal digits, between which single
    underscores may stand. *)
Definition is_space (c : Ascii.ascii) : bool :=
  bool_decide (c ∈ [" "; "009"; "010"; "011"; "012"; "013"]%char).

Fixpoint lstrip (l : list Ascii.ascii) : list Ascii.ascii :=
  match l with
  | c :: l' => if is_space c then lstrip l' else l
  | [] => []
  end.

Definition strip (l : list Ascii.ascii) : list Ascii.ascii :=
  rev (lstrip (rev (lstrip l))).

Definition digit_value (c : Ascii.ascii) : option Z :=
  let n := Z.of_nat (nat_of_ascii c) in
  if bool_decide (48 ≤ n ≤ 57)%Z then Some (n - 48)%Z else None.

(** The value of the digits [l] after the value [acc] of the digits
    before them; [after_digit] tells whether the character before [l] is
    a digit, which is when an underscore or the end may come. *)
Fixpoint digits (acc : Z) (after_digit : bool) (l : list Ascii.ascii)
    : option Z :=
  match l with
  | [] => if after_digit then Some acc else None
  | c :: l' =>
      if decide (c = "_"%char)
      then (if after_digit then digits acc false l' else None)
      else match digit_value c with
           | Some d => digits (10 * acc + d) true l'
           | None => None
           end
  end.

Definition int_of_str (s : string) : result Z :=
  let parse sign l :=
    match digits 0 false l with
    | Some v => Ok (sign * v)%Z
    | None => Raise ValueError
    end in
  match strip (list_ascii_of_string s) with
  | c :: l =>
      if decide (c = "-"%char) then parse (-1)%Z l
      else if decide (c = "+"%char) then parse 1%Z l
      else parse 1%Z (c :: l)
  | [] => parse 1%Z []
  end.

(** [int(x)] on a cell of a label column.  The missing value that
    [read_csv] and [Series.map] leave in a column is the float NaN,
    which [int] refuses with ValueError. *)
Definition int_of_cell (c : cell) : result Z :=
  match c with
  | Some s => int_of_str s
  | None => Raise ValueError
  end.

(** [l[i]] for an int [i] of either sign: a negative index counts from
    the end. *)
Definition getitem_int {A} (l : list A) (i : Z) : result A :=
  let j := if bool_decide (i < 0)%Z then (i + Z.of_nat (length l))%Z else i in
  if bool_decide (j < 0)%Z then Raise IndexError
  else getitem_list l (Z.to_nat j).

(** [np.random.permutation(n)] *)
Definition permutation (n : nat) : M rng (list nat) := sample_n n (seq 0 n).

End Builtins.
Export Builtins.

(** ** Notebook 1: the class names and the species grid *)

Module Species.

Definition BASE_DIR : string := "CUB_200_2011/".
Definition IMAGES_DIR : string := BASE_DIR +:+ "images/".

(** The cell that builds [class_name_list] from the lines
    (class_number, class_id) of [classes.txt]; notebook 3 has the same
    cell.  The names are taken as the strs that [read_csv] makes of
    tokens it reads as text ([reads_as_str] below is a condition under
    which it does); a column of number literals or a missing-value token
    gives the cell numbers or NaN to sort, which this definition does
    not describe. *)
Definition class_name_list (classes : list (Z * string)) : list string :=
  let classes_df := read_csv classes in
  let classes_df := filter (λ r, (dat r).1 ∈ CLASSES) classes_df in
  merge_sort str_le (unique ((λ r, (dat r).2) <$> classes_df)).

(** What [plt.subplots] returns for its array of axes: numpy drops the
    dimensions of extent one, so a grid of one row is a vector and a
    grid of one cell is the cell itself. *)
Inductive axes : Type :=
| Axes0
| Axes1D (n : nat)
| Axes2D (nrows ncols : nat).

Definition squeeze (nrows ncols : nat) : axes :=
  if bool_decide (nrows * ncols = 1) then Axes0
  else if bool_decide (nrows = 1) then Axes1D ncols
  else if bool_decide (ncols = 1) then Axes1D nrows
  else Axes2D nrows ncols.

(** [axarr[i, j]] with [0 <= i] and [0 <= j] *)
Definition getitem2 (axarr : axes) (i j : nat) : result (nat * nat) :=
  match axarr with
  | Axes0 => Raise TypeError
  | Axes1D _ => Raise IndexError
  | Axes2D nrows ncols =>
      if bool_decide (i < nrows ∧ j < ncols) then Ok (i, j)
      else Raise IndexError
  end.

(** What the function does that can be seen: the line it prints, the
    files it reads, the subplots it draws on, and the figure shown and
    closed at the end. *)
Inductive event : Type :=
| printed_count (species_id : string) (IM_COUNT : nat)
| imread (f : string)
| imshow (ax : nat * nat) (f : string)
| figure_shown.

(** How the world answers: the listing of a directory, the outcome of
    reading an image file, and what matplotlib does when it is asked
    for a grid without rows (an empty array or a ValueError, by
    release). *)
Record pyplot : Type := Pyplot {
  ls_outcome : string → list string;
  imread_outcome : string → result unit;
  subplots_no_rows : result unit
}.

Definition NUM_COLS : nat := 4.

Section show_species.
Variable w : pyplot.

(** [plt.subplots(NUM_ROWS, NUM_COLS)] *)
Definition subplots (nrows ncols : nat) : result axes :=
  match nrows with
  | 0 => rbind (subplots_no_rows w) (λ _, Ok (squeeze nrows ncols))
  | S _ => Ok (squeeze nrows ncols)
  end.

(** The loop [for curr_img in range(IM_COUNT)], from [curr_img] on:
    [ims] is [_im_list[curr_img:]]. *)
Fixpoint show_images (axarr : axes) (NUM_ROWS : nat) (species_id : string)
    (ims : list string) (curr_img curr_row : nat) : M (list event) unit :=
  match ims with
  | [] => ret tt
  | im :: ims' =>
      let f := IMAGES_DIR +:+ species_id +:+ "/" +:+ im in
      _ <- modify (λ log, log ++ [imread f]) ;;
      _ <- lift (imread_outcome w f) ;;
      col <- lift (mod_ curr_img NUM_ROWS) ;;
      ax <- lift (getitem2 axarr col curr_row) ;;
      _ <- modify (λ log, log ++ [imshow ax f]) ;;
      let curr_row :=
        if bool_decide (Z.of_nat col = Z.of_nat NUM_ROWS - 1)%Z
        then curr_row + 1 else curr_row in
      show_images axarr NUM_ROWS species_id ims' (S curr_img) curr_row
  end.

(** [NUM_ROWS] as the function computes it from [IM_COUNT]. *)
Definition num_rows (IM_COUNT : nat) : result nat :=
  rbind (int_truediv IM_COUNT NUM_COLS) (λ q,
    let NUM_ROWS := int_of_float q in
    let NUM_ROWS :=
      if bool_decide (0 < IM_COUNT mod NUM_COLS) then (NUM_ROWS + 1)%Z
      else NUM_ROWS in
    Ok (Z.to_nat NUM_ROWS)).

Definition show_species (species_id : string) : M (list event) unit :=
  let _im_list := ls_outcome w (IMAGES_DIR +:+ "/" +:+ species_id) in
  let IM_COUNT := length _im_list in
  _ <- modify (λ log, log ++ [printed_count species_id IM_COUNT]) ;;
  NUM_ROWS <- lift (num_rows IM_COUNT) ;;
  axarr <- lift (subplots NUM_ROWS NUM_COLS) ;;
  _ <- show_images axarr NUM_ROWS species_id _im_list 0 0 ;;
  modify (λ log, log ++ [figure_shown]).
End show_species.

End Species.

(** ** Notebook 1: the pass over the validation images *)

Module Validation.

Definition BATCH_SIZE : nat := 16.

(** A Keras iterator over [n] samples, shuffling: the position in the
    current epoch and the order drawn for it. *)
Record iterator : Type := Iterator {
  n : nat;
  batch_size : nat;
  batch_index : nat;
  index_array : list nat
}.

(** [val_gen.reset()] *)
Definition reset (it : iterator) : iterator :=
  Iterator (n it) (batch_size it) 0 (index_array it).

(** One step of the index generator behind [for ... in val_gen]: a new
    order is drawn at the start of an epoch, the batch is the next
    [batch_size] indices of it, and the epoch ends with the batch that
    reaches the last index.  The result is the batch and the iterator
    after the step. *)
Definition next (it : iterator) : M rng (list nat * iterator) :=
  index_array <- (if bool_decide (batch_index it = 0) then permutation (n it)
                  else ret (index_array it)) ;;
  let current_index :=
    if bool_decide (n it = 0) then 0
    else (batch_index it * batch_size it) mod n it in
  let batch_index :=
    if bool_decide (current_index + batch_size it < n it)
    then batch_index it + 1 else 0 in
  ret (take (batch_size it) (skipn current_index index_array),
       Iterator (n it) (batch_size it) batch_index index_array).

Section cell.
Context {P L : Type}.
(** [model.predict] on the images of a batch, and the label row of an
    image. *)
Variable predict_outcome : list nat → result (list P).
Variable label_of : nat → L.
Variable num_val_images : nat.

(** The [for] loop, which only a [break] or a raise ends: [None] is a
    loop still running when the fuel is spent. *)
Fixpoint predict_batches (fuel : nat) (val_gen : iterator) (i : nat)
    (predictions : list P) (labels : list L)
    : M rng (option (nat * list P * list L)) :=
  match fuel with
  | 0 => ret None
  | S fuel' =>
      b <- next val_gen ;;
      let val_gen := b.2 in
      let labels_batch := label_of <$> b.1 in
      preds <- lift (predict_outcome b.1) ;;
      let predictions :=
        setslice predictions (i * BATCH_SIZE) ((i + 1) * BATCH_SIZE) preds in
      let labels :=
        setslice labels (i * BATCH_SIZE) ((i + 1) * BATCH_SIZE) labels_batch in
      let i := i + 1 in
      if bool_decide (num_val_images < i * BATCH_SIZE)
      then ret (Some (i, predictions, labels))
      else predict_batches fuel' val_gen i predictions labels
  end.

(** The cell: the variables [i], [predictions] and [labels] it leaves. *)
Definition validation_cell (fuel : nat) (val_gen : iterator)
    : M rng (option (nat * list P * list L)) :=
  predict_batches fuel (reset val_gen) 0 [] [].

(** The number of images its last line prints: [(i - 1) * BATCH_SIZE]. *)
Definition printed_images (i : nat) : Z :=
  ((Z.of_nat i - 1) * Z.of_nat BATCH_SIZE)%Z.
End cell.

End Validation.

(** ** Notebook 1: testing the model on a dataframe *)

Module Testing.

(** What the function prints and displays. *)
Inductive event : Type :=
| printed_testing (num_images : nat)
| printed_class (predicted_class : string) (confidence : Q)
| printed_error (i : nat) (predicted_class : string) (confidence : Q)
    (actual_class : string)
| displayed (fn : string).

Section notebook.
(** How the model answers for an image file: the index
    [argmax(results)] and the confidence [results[0][index]], or the
    exception of loading the file or of the prediction. *)
Variable predict_outcome : string → result (nat * Q).
Variable class_name_list : list string.

Definition predict_bird_from_file (fn : string) (verbose : bool)
    : M (list event) (nat * Q) :=
  r <- lift (predict_outcome fn) ;;
  let predicted_class_idx := r.1 in
  predicted_class <- lift (getitem_list class_name_list predicted_class_idx) ;;
  let confidence := r.2 in
  _ <- (if verbose
        then modify (λ log, log ++ [displayed fn;
                                    printed_class predicted_class confidence])
        else ret tt) ;;
  ret (predicted_class_idx, confidence).

(** The loop [for i in range(df.shape[0])], from [i] on: [rows] is
    [df.iloc[i:]]. *)
Fixpoint test_rows (rows : list (irow bird)) (i : nat)
    (num_errors : nat) (preds : list nat) (acts : list Z)
    : M (list event) (nat * list nat * list Z) :=
  match rows with
  | [] => ret (num_errors, preds, acts)
  | r :: rows' =>
      let fname := image_file_name (dat r) in
      class_id_ <- lift (int_of_cell (class_id (dat r))) ;;
      let act := (class_id_ - 1)%Z in
      let acts := acts ++ [act] in
      p <- predict_bird_from_file
             (Species.IMAGES_DIR +:+ "/" +:+ fname) false ;;
      let pred := p.1 in
      let conf := p.2 in
      let preds := preds ++ [pred] in
      if bool_decide (Z.of_nat pred ≠ act)
      then
        let num_errors := num_errors + 1 in
        predicted_class <- lift (getitem_list class_name_list pred) ;;
        actual_class <- lift (getitem_int class_name_list act) ;;
        _ <- modify (λ log, log ++ [printed_error i predicted_class conf
                                      actual_class;
                                    displayed (Species.IMAGES_DIR +:+ "/"
                                               +:+ fname)]) ;;
        test_rows rows' (S i) num_errors preds acts
      else test_rows rows' (S i) num_errors preds acts
  end.

Definition test_image_df (df : frame bird)
    : M (list event) (nat * list nat * list Z) :=
  _ <- modify (λ log, log ++ [printed_testing (length df)]) ;;
  test_rows df 0 0 [] [].
End notebook.

End Testing.

(** ** Vocabulary of the statements *)

Module Spec.

(** Half a unit in the last place, relative to the rounded number. *)
Definition ulp_half : Q := (1 # 2) * pow2 (-52).

Section frames.
Context {R : Type} (col : R → cell).

(** A block of rows that all carry the label [l]. *)
Definition block (l : cell) (x : list (irow R)) : Prop :=
  ∀ r, r ∈ x → cell_eq (col (dat r)) l = true.

(** What one turn of the loop of [split_to_train_val_test] adds to
    (train, val, test) for the label [l]. *)
Definition is_part (s0 s1 s2 : Q) (df : list (irow R)) (l : cell)
    (p : list (irow R) * list (irow R) * list (irow R)) : Prop :=
  p.1.1 ++ p.1.2 ++ p.2 ≡ₚ select col l df ∧
  length p.1.1 = Z.to_nat (sample_size s0 (length (select col l df))) ∧
  ∃ frac, truediv s2 (fadd s1 s2) = Ok frac ∧
    length p.2 =
      Z.to_nat (sample_size frac (length (select col l df) - length p.1.1)).
End frames.

(** The order by which [np.argmax] picks: NaN above every number. *)
Definition nanmax_le (x y : rounded) : Prop :=
  match y with
  | RNaN => True
  | _ => float_le x y = true
  end.

(** [i] is the first position of [l] that holds a greatest element. *)
Definition first_argmax (l : list rounded) (i : nat) : Prop :=
  ∃ v, l !! i = Some v ∧
    (∀ j x, l !! j = Some x → nanmax_le x v) ∧
    (∀ j x, j < i → l !! j = Some x → ¬ nanmax_le v x).

(** [i] is the first position of [x] in [l]. *)
Definition first_position {A} (l : list A) (x : A) (i : nat) : Prop :=
  l !! i = Some x ∧ ∀ j, j < i → l !! j ≠ Some x.

(** What the [try] block of the loop computes for [entry] when nothing
    raises: the two indexes it records and whether it counts the file as
    correct. *)
Definition verdict (w : world) (class_name_list : list string)
    (entry : string) (class_index actual_index : nat)
    (is_correct : bool) : Prop :=
  ∃ actual_label jstr predictions results predicted_label,
    split "/"%char entry !! 1 = Some actual_label ∧
    list_index class_name_list actual_label = Ok actual_index ∧
    load_outcome w entry = Ok jstr ∧
    getitem jstr "predictions" = Ok predictions ∧
    flatten_round predictions = Ok results ∧
    argmax results = Ok class_index ∧
    class_name_list !! class_index = Some predicted_label ∧
    is_correct = bool_decide (predicted_label = actual_label).

(** The tallies stay aligned. *)
Definition aligned (k : kernel) : Prop :=
  length (predicted k) = length (actual k) ∧
  length (predicted k) = total k ∧
  correct k ≤ total k.

(** Two kernels with the same tallies. *)
Definition same_tallies (k1 k2 : kernel) : Prop :=
  total k1 = total k2 ∧ correct k1 = correct k2 ∧
  predicted k1 = predicted k2 ∧ actual k1 = actual k2.

(** The calls that fetch or read prediction output. *)
Definition consumes_output (c : call) : Prop :=
  match c with
  | transformer_transform | transformer_wait => False
  | _ => True
  end.

End Spec.
Export Spec.

(** ** Vocabulary of the further statements *)

Module Spec2.

(** The second component of the path [entry] is a known class name. *)
Definition in_known_directory (class_name_list : list string)
    (entry : string) : Prop :=
  match split "/"%char entry !! 1 with
  | Some l => l ∈ class_name_list
  | None => False
  end.

Global Instance in_known_directory_dec class_name_list entry :
  Decision (in_known_directory class_name_list entry).
Proof.
  unfold in_known_directory.
  destruct (split "/"%char entry !! 1); apply _.
Defined.

(** The number of positions at which two lists hold the same index. *)
Definition agreements (predicted actual : list nat) : nat :=
  length (filter (λ pa, pa.1 = pa.2) (zip predicted actual)).

(** The subplots drawn on, in order, each with the file it shows. *)
Definition drawn (log : list Species.event) : list (nat * nat * string) :=
  omap (λ e, match e with
             | Species.imshow ax f => Some (ax, f)
             | _ => None
             end) log.

(** The number of positions at which a predicted index differs from
    the actual one. *)
Definition disagreements (preds : list nat) (acts : list Z) : nat :=
  length (filter (λ pa, Z.of_nat pa.1 ≠ pa.2) (zip preds acts)).

(** The tokens [pd.read_csv] reads as a missing value when it is given
    no list of its own, and those it reads as a boolean. *)
Definition na_values : list string :=
  [""; "#N/A"; "#N/A N/A"; "#NA"; "-1.#IND"; "-1.#QNAN"; "-NaN"; "-nan";
   "1.#IND"; "1.#QNAN"; "<NA>"; "N/A"; "NA"; "NULL"; "NaN"; "None";
   "n/a"; "nan"; "null"].
Definition bool_values : list string :=
  ["True"; "TRUE"; "true"; "False"; "FALSE"; "false"].

(** The characters of the literals [pd.read_csv] reads as something
    other than text: the missing-value and boolean tokens above, and the
    number literals, which are made of digits, a sign, a point, an
    exponent mark, [x] and the letters of inf and infinity in either
    case. *)
Definition literal_chars : list Ascii.ascii :=
  list_ascii_of_string
    "0123456789+-.#<>/ aAdDeEfFiIlLnNoOqQrRsStTuUxXyY".

(** A condition under which [pd.read_csv] reads a token as a str,
    whatever else its column holds: the token has a character that
    occurs in none of those literals. *)
Definition reads_as_str (token : string) : Prop :=
  Exists (λ c, c ∉ literal_chars) (list_ascii_of_string token).

Global Instance reads_as_str_dec token : Decision (reads_as_str token).
Proof. unfold reads_as_str. apply _. Defined.

(** No character of [s] is [c]. *)
Definition free_of (c : Ascii.ascii) (s : string) : Prop :=
  c ∉ list_ascii_of_string s.

End Spec2.
Export Spec2.

(** * Properties *)

(** ** The monad and the floats *)

Module PyFacts.

Section monad.
Context {S A B : Type}.

Lemma bind_Ok (m : M S A) (f : A → M S B) s b s2 :
  bind m f s = (Ok b, s2) → ∃ a s1, m s = (Ok a, s1) ∧ f a s1 = (Ok b, s2).
Proof.
  unfold bind. destruct (m s) as [[a|e] s1]; [eauto|discriminate].
Qed.

Lemma bind_run (m : M S A) (f : A → M S B) s a s1 :
  m s = (Ok a, s1) → bind m f s = f a s1.
Proof. unfold bind. by intros ->. Qed.

Lemma bind_raise (m : M S A) (f : A → M S B) s e s1 :
  m s = (Raise e, s1) → bind m f s = (Raise e, s1).
Proof. unfold bind. by intros ->. Qed.

Lemma lift_Ok (r : result A) (s s' : S) a :
  lift r s = (Ok a, s') → r = Ok a ∧ s' = s.
Proof. unfold lift. by intros [= -> ->]. Qed.
End monad.

Local Open Scope Q_scope.

(** [lra] after the integers injected into [Q] are made atoms. *)
Ltac q_atoms :=
  change (inject_Z 1) with 1 in *; change (inject_Z 0) with 0 in *;
  repeat match goal with
    | |- context [inject_Z ?z] =>
        let q := fresh "q" in set (q := inject_Z z) in *; clearbody q
    | H : context [inject_Z ?z] |- _ =>
        let q := fresh "q" in set (q := inject_Z z) in *; clearbody q
    end.
Ltac qlra := q_atoms; lra.

Lemma pow2_pos k : 0 < pow2 k.
Proof. unfold pow2. apply Qpower_0_lt. reflexivity. Qed.

Lemma pow2_split e :
  pow2 (52 - e) * pow2 (e - 52) == 1 ∧ pow2 (e - 52) == pow2 e * pow2 (-52).
Proof.
  unfold pow2. split; rewrite <- Qpower_plus by discriminate.
  - replace (52 - e + (e - 52))%Z with 0%Z by lia. reflexivity.
  - replace (e + -52)%Z with (e - 52)%Z by lia. reflexivity.
Qed.

Lemma py_round_upper s : inject_Z (py_round s) <= s + (1 # 2).
Proof.
  unfold py_round.
  pose proof (Qfloor_le s) as Hf.
  destruct (Qcompare (s - inject_Z (Qfloor s)) (1 # 2)) eqn:E.
  - apply Qeq_alt in E.
    destruct (Z.even (Qfloor s)); [qlra|].
    rewrite inject_Z_plus. qlra.
  - qlra.
  - apply Qgt_alt in E. rewrite inject_Z_plus. qlra.
Qed.

Lemma py_round_lower s : s - (1 # 2) <= inject_Z (py_round s).
Proof.
  unfold py_round.
  pose proof (Qlt_floor s) as Hf. rewrite inject_Z_plus in Hf.
  destruct (Qcompare (s - inject_Z (Qfloor s)) (1 # 2)) eqn:E.
  - apply Qeq_alt in E.
    destruct (Z.even (Qfloor s)); [qlra|].
    rewrite inject_Z_plus. qlra.
  - apply Qlt_alt in E. qlra.
  - rewrite inject_Z_plus. qlra.
Qed.

Lemma py_round_nonneg s : 0 <= s → (0 <= py_round s)%Z.
Proof.
  intros Hs. unfold py_round.
  assert (0 <= Qfloor s)%Z as H0.
  { change 0%Z with (Qfloor 0). by apply Qfloor_resp_le. }
  destruct (Qcompare _ _); [destruct (Z.even _)|..]; lia.
Qed.

(** Away from a tie, [round] is the nearest integer. *)
Lemma py_round_unique s (n : Z) :
  inject_Z n - (1 # 2) < s → s < inject_Z n + (1 # 2) → py_round s = n.
Proof.
  intros H1 H2.
  pose proof (py_round_upper s) as Hu. pose proof (py_round_lower s) as Hl.
  assert (inject_Z (py_round s) < inject_Z n + 1) as A by qlra.
  assert (inject_Z n - 1 < inject_Z (py_round s)) as B by qlra.
  change 1 with (inject_Z 1) in A, B.
  rewrite <- inject_Z_plus in A.
  unfold Qminus in B. rewrite <- inject_Z_opp, <- inject_Z_plus in B.
  rewrite <- Zlt_Qlt in A, B. lia.
Qed.

Lemma binexp_lower x : 0 < x → pow2 (binexp x) <= x.
Proof.
  intros Hx. unfold binexp.
  destruct (Qle_bool _ x) eqn:E; [by apply Qle_bool_iff|]. clear E.
  destruct x as [p q]. cbn [Qnum Qden].
  assert (0 < p)%Z as Hp by (revert Hx; unfold Qlt; cbn; lia).
  pose proof (Z.log2_nonneg p) as Hlp.
  pose proof (Z.log2_nonneg (Z.pos q)) as Hlq.
  destruct (Z.log2_spec p Hp) as [Hp1 _].
  destruct (Z.log2_spec (Z.pos q) eq_refl) as [_ Hq2].
  set (lp := Z.log2 p) in *. set (lq := Z.log2 (Z.pos q)) in *.
  clearbody lp lq.
  replace (lp - lq - 1)%Z with (lp - Z.succ lq)%Z by lia.
  unfold pow2. rewrite Qpower_minus by discriminate.
  change 2 with (inject_Z 2).
  rewrite <- !Zpower_Qpower by lia.
  assert (0 < 2 ^ Z.succ lq)%Z as Hpow by (apply Z.pow_pos_nonneg; lia).
  apply Qle_shift_div_r.
  { change 0 with (inject_Z 0). by rewrite <- Zlt_Qlt. }
  unfold Qle, Qmult, inject_Z; cbn [Qnum Qden].
  nia.
Qed.

(** The relative error of one rounding. *)
Lemma rnd_pos_error x :
  0 < x → x - x * ulp_half <= rnd_pos x ∧ rnd_pos x <= x + x * ulp_half.
Proof.
  intros Hx. unfold rnd_pos.
  pose proof (binexp_lower x Hx) as He.
  set (e := binexp x) in *.
  pose proof (py_round_upper (x * pow2 (52 - e))) as Hu.
  pose proof (py_round_lower (x * pow2 (52 - e))) as Hl.
  set (m := inject_Z _) in *.
  destruct (pow2_split e) as [H1 H2].
  pose proof (pow2_pos (e - 52)) as Hq. pose proof (pow2_pos (-52)) as Hc.
  unfold ulp_half.
  set (P := pow2 (52 - e)) in *. set (Q' := pow2 (e - 52)) in *.
  set (E := pow2 e) in *. set (c := pow2 (-52)) in *.
  assert (m * Q' <= (x * P + (1 # 2)) * Q') as A1
    by (apply Qmult_le_compat_r; lra).
  assert ((x * P - (1 # 2)) * Q' <= m * Q') as A2
    by (apply Qmult_le_compat_r; lra).
  assert ((x * P + (1 # 2)) * Q' == x * (P * Q') + (1 # 2) * Q') as B1 by ring.
  assert ((x * P - (1 # 2)) * Q' == x * (P * Q') - (1 # 2) * Q') as B2 by ring.
  rewrite H1 in B1, B2.
  assert (E * c <= x * c) as C by (apply Qmult_le_compat_r; lra).
  clearbody m P Q' E c. split; lra.
Qed.

Lemma rnd_pos_nonneg x : 0 <= x → 0 <= rnd_pos x.
Proof.
  intros Hx. unfold rnd_pos.
  apply Qmult_le_0_compat.
  - change 0 with (inject_Z 0). rewrite <- Zle_Qle. apply py_round_nonneg.
    apply Qmult_le_0_compat; [done|]. apply Qlt_le_weak, pow2_pos.
  - apply Qlt_le_weak, pow2_pos.
Qed.

Lemma rnd_bounds x :
  0 <= x →
  0 <= rnd x ∧ x - x * ulp_half <= rnd x ∧ rnd x <= x + x * ulp_half.
Proof.
  intros Hx. unfold rnd. destruct x as [p q]; cbn [Qnum].
  destruct p.
  - split_and!; [apply Qle_refl|..]; unfold Qle, ulp_half; simpl; lia.
  - rewrite Qred_correct.
    destruct (rnd_pos_error (Z.pos p # q)) as [? ?]; [done|].
    split_and!; [by apply rnd_pos_nonneg|done..].
  - exfalso. revert Hx. unfold Qle; simpl; lia.
Qed.

Lemma ulp_half_bounds : 0 <= ulp_half ∧ ulp_half <= 1 # 4000000000000000.
Proof. split; vm_compute; discriminate. Qed.

(** A fraction of at most 0.99 never asks for more rows than there are. *)
Lemma sample_size_bounds f n :
  0 <= f → f <= 99 # 100 → (0 <= sample_size f n <= Z.of_nat n)%Z.
Proof.
  intros Hf0 Hf1. unfold sample_size, fmul, float_of_nat.
  set (N := inject_Z (Z.of_nat n)).
  assert (0 <= N) as HN.
  { subst N. change 0 with (inject_Z 0). rewrite <- Zle_Qle. lia. }
  destruct (rnd_bounds N HN) as (Hy0 & _ & Hy1).
  set (y := rnd N) in *.
  assert (0 <= f * y) as Hfy by (by apply Qmult_le_0_compat).
  destruct (rnd_bounds (f * y) Hfy) as (Hz0 & _ & Hz1).
  set (z := rnd (f * y)) in *.
  split; [by apply py_round_nonneg|].
  pose proof (py_round_upper z) as Hr.
  destruct ulp_half_bounds as [Hc0 Hc].
  set (c := ulp_half) in *.
  assert (z <= N) as Hz.
  { assert (f * y <= (99 # 100) * y) as A
      by (apply Qmult_le_compat_r; [lra|done]).
    assert (N * c <= N * (1 # 4000000000000000)) as B
      by (rewrite !(Qmult_comm N); apply Qmult_le_compat_r; [lra|done]).
    assert (f * y * c <= f * y * (1 # 4000000000000000)) as C
      by (rewrite !(Qmult_comm (f * y)); apply Qmult_le_compat_r; [lra|done]).
    clearbody c y z N. lra. }
  assert (inject_Z (py_round z) <= N + (1 # 2)) as Hfin
    by (clearbody z N; lra).
  subst N. revert Hfin. unfold Qle, Qplus, inject_Z; simpl. lia.
Qed.

(** A fraction within [10^-15] of one third takes the integer nearest to
    a third of the rows. *)
Lemma sample_size_third f (m : nat) :
  (1 # 3) - (1 # 1000000000000000) <= f →
  f <= (1 # 3) + (1 # 1000000000000000) →
  (Z.of_nat m <= 1000000000000)%Z →
  sample_size f m = ((Z.of_nat m + 1) / 3)%Z.
Proof.
  intros Hf1 Hf2 Hm. unfold sample_size, fmul, float_of_nat.
  set (N := inject_Z (Z.of_nat m)).
  assert (0 <= N) as HN.
  { subst N. change 0 with (inject_Z 0). rewrite <- Zle_Qle. lia. }
  assert (N <= 1000000000000) as HN2.
  { subst N. change 1000000000000 with (inject_Z 1000000000000).
    rewrite <- Zle_Qle. lia. }
  destruct (rnd_bounds N HN) as (Hy0 & Hy2 & Hy1).
  set (y := rnd N) in *.
  assert (0 <= f * y) as Hfy by (apply Qmult_le_0_compat; [lra|done]).
  destruct (rnd_bounds (f * y) Hfy) as (Hz0 & Hz2 & Hz1).
  set (z := rnd (f * y)) in *.
  destruct ulp_half_bounds as [Hc0 Hc].
  set (c := ulp_half) in *.
  set (n := ((Z.of_nat m + 1) / 3)%Z).
  assert (inject_Z n - (1 # 3) <= N * (1 # 3)
          ∧ N * (1 # 3) <= inject_Z n + (1 # 3)) as [Hn1 Hn2].
  { assert (3 * n - 1 <= Z.of_nat m <= 3 * n + 1)%Z as [A B].
    { subst n. pose proof (Z.div_mod (Z.of_nat m + 1) 3 ltac:(lia)).
      pose proof (Z.mod_pos_bound (Z.of_nat m + 1) 3 ltac:(lia)). lia. }
    subst N. split; unfold Qle, Qmult, Qplus, Qminus, Qopp, inject_Z; cbn; lia. }
  assert (N * c <= N * (1 # 4000000000000000)) as B1
    by (rewrite !(Qmult_comm N); apply Qmult_le_compat_r; [lra|done]).
  assert (((1 # 3) - (1 # 1000000000000000)) * y <= f * y) as B2
    by (apply Qmult_le_compat_r; [lra|done]).
  assert (f * y <= ((1 # 3) + (1 # 1000000000000000)) * y) as B3
    by (apply Qmult_le_compat_r; [lra|done]).
  assert (f * y * c <= f * y * (1 # 4000000000000000)) as B4
    by (rewrite !(Qmult_comm (f * y)); apply Qmult_le_compat_r; [lra|done]).
  apply py_round_unique; clearbody c y z N; q_atoms; lra.
Qed.

(** The model against what Python prints: [0.1 + 0.2] is
    [0.30000000000000004], [0.7 * 45] is [31.499999999999996], so 45 rows
    give 31 to train where exact arithmetic would give 32, and [round]
    sends ties to the even neighbour. *)
Example float_sum_tenths :
  fadd (float_lit (1 # 10)) (float_lit (2 # 10))
  == 5404319552844596 # 18014398509481984.
Proof. vm_compute. reflexivity. Qed.

Example float_product_45 :
  fmul (float_lit (7 # 10)) (float_of_nat 45)
  == 8866461766385663 # 281474976710656.
Proof. vm_compute. reflexivity. Qed.

Example sample_size_45 : sample_size (float_lit (7 # 10)) 45 = 31%Z.
Proof. vm_compute. reflexivity. Qed.

Example py_round_ties :
  py_round (5 # 2) = 2%Z ∧ py_round (7 # 2) = 4%Z ∧ py_round (- (5 # 2)) = (-2)%Z.
Proof. by vm_compute. Qed.

End PyFacts.
Import PyFacts.

(** ** Sampling, dropping and selecting rows *)

Module PandasFacts.

Section filter.
Context {A : Type} (P : A → Prop) `{!∀ x, Decision (P x)}.

Lemma filter_all (l : list A) : (∀ x, x ∈ l → P x) → filter P l = l.
Proof.
  induction l as [|x l IH]; intros Hl; [done|].
  rewrite filter_cons_True by (apply Hl; left).
  f_equal. apply IH. intros y Hy. apply Hl. by right.
Qed.

Lemma filter_none (l : list A) : (∀ x, x ∈ l → ¬ P x) → filter P l = [].
Proof.
  induction l as [|x l IH]; intros Hl; [done|].
  rewrite filter_cons_False by (apply Hl; left).
  apply IH. intros y Hy. apply Hl. by right.
Qed.
End filter.

Section unique.
Context {A : Type} `{EqDecision A}.

Lemma elem_of_unique (l : list A) x : x ∈ unique l ↔ x ∈ l.
Proof.
  induction l as [|y l IH]; [done|]. cbn [unique].
  rewrite !elem_of_cons, list_elem_of_filter, IH.
  destruct (decide (x = y)); tauto.
Qed.

Lemma NoDup_unique (l : list A) : NoDup (unique l).
Proof.
  induction l as [|y l IH]; cbn [unique]; [constructor|].
  constructor; [|by apply NoDup_filter].
  rewrite list_elem_of_filter. tauto.
Qed.
End unique.

Lemma sample_n_spec {A} n (l : list A) g :
  ∃ s g', sample_n n l g = (Ok s, g') ∧ s ⊆+ l ∧ (n ≤ length l → length s = n).
Proof.
  revert l g. induction n as [|n IH]; intros l g.
  - exists [], g. split_and!; [done|apply submseteq_nil_l|done].
  - cbn [sample_n].
    assert (∃ d g1, draw g = (Ok d, g1)) as (d & g1 & Hd).
    { destruct g; cbn; eauto. }
    rewrite (bind_run _ _ _ _ _ Hd).
    destruct (l !! (d mod length l)) as [x|] eqn:Hx.
    + destruct (IH (delete (d mod length l) l) g1) as (s & g' & Hs & Hsub & Hlen).
      rewrite (bind_run _ _ _ _ _ Hs). exists (x :: s), g'.
      pose proof (delete_Permutation _ _ _ Hx) as Hp.
      apply lookup_lt_Some in Hx.
      split_and!; [done|..].
      * rewrite Hp. by apply submseteq_skip.
      * intros Hn. cbn. rewrite Hlen; [done|].
        rewrite length_delete by (by apply lookup_lt_is_Some_2). lia.
    + exists [], g1. split_and!; [done|apply submseteq_nil_l|].
      intros Hn. apply lookup_ge_None in Hx.
      destruct l as [|a l]; [cbn in Hn; lia|].
      pose proof (Nat.mod_upper_bound d (length (a :: l))). cbn in *. lia.
Qed.

(** [sample(frac=1)] is a shuffle. *)
Lemma sample_all_spec {R} (df : frame R) g :
  ∃ s g', sample_all df g = (Ok s, g') ∧ s ≡ₚ df.
Proof.
  destruct (sample_n_spec (length df) df g) as (s & g' & Hs & Hsub & Hlen).
  exists s, g'. split; [done|].
  apply submseteq_length_Permutation; [done|]. rewrite Hlen; lia.
Qed.

Lemma sample_Ok {R} frac (df : frame R) g s g' :
  sample frac df g = (Ok s, g') →
  s ⊆+ df ∧ length s = Z.to_nat (sample_size frac (length df)).
Proof.
  unfold sample.
  destruct (Qlt_le_dec 1 frac); [discriminate|].
  case_bool_decide as Hneg; [discriminate|].
  case_bool_decide as Hn; [discriminate|].
  intros Hs.
  destruct (sample_n_spec (Z.to_nat (sample_size frac (length df))) df g)
    as (s1 & g1 & Hs1 & Hsub & Hlen).
  rewrite Hs1 in Hs. injection Hs as -> ->.
  split; [done|]. apply Hlen. lia.
Qed.

Lemma sample_total {R} frac (df : frame R) g :
  (0 <= frac)%Q → (frac <= 99 # 100)%Q → ∃ s g', sample frac df g = (Ok s, g').
Proof.
  intros H0 H1. unfold sample.
  destruct (Qlt_le_dec 1 frac); [lra|].
  pose proof (sample_size_bounds frac (length df) H0 H1).
  case_bool_decide as Hneg; [lia|].
  case_bool_decide as Hn; [lia|].
  destruct (sample_n_spec (Z.to_nat (sample_size frac (length df))) df g)
    as (s1 & g1 & Hs1 & _). eauto.
Qed.

Section drop.
Context {R : Type}.
Implicit Types s df : frame R.

Lemma drop_total s df : s ⊆+ df → ∃ d, drop (index s) df = Ok d ∧ d ⊆+ df.
Proof.
  intros Hs. unfold drop. rewrite bool_decide_eq_true_2.
  - eexists; split; [done|]. apply sublist_submseteq, sublist_filter.
  - intros i Hi. eapply elem_of_submseteq; [done|].
    unfold index. by apply fmap_submseteq.
Qed.

(** With distinct index labels, dropping the sampled labels leaves
    exactly the rows that were not sampled. *)
Lemma drop_sample s df d :
  NoDup (index df) → s ⊆+ df → drop (index s) df = Ok d → s ++ d ≡ₚ df.
Proof.
  intros Hnd Hs. unfold drop. case_bool_decide; [|discriminate].
  intros [= <-].
  destruct (submseteq_Permutation _ _ Hs) as [k Hk].
  unfold index in Hnd. rewrite Hk, fmap_app in Hnd.
  apply NoDup_app in Hnd as (_ & Hdisj & _).
  rewrite Hk, filter_app.
  rewrite (filter_none _ s) by
    (intros r Hr Hn; apply Hn, list_elem_of_fmap; eauto).
  cbn. f_equiv.
  rewrite (filter_all _ k); [done|].
  intros r Hr Hin.
  apply (Hdisj (ix r)); [done|]. apply list_elem_of_fmap; eauto.
Qed.
End drop.

Lemma cell_eq_true c l : cell_eq c l = true ↔ is_Some c ∧ c = l.
Proof.
  unfold cell_eq. destruct c as [a|], l as [b|]; try (split; [done|]).
  - rewrite bool_decide_eq_true. split; [intros ->; eauto|by intros [_ [= ->]]].
  - intros [_ [=]].
  - intros [[? [=]] _].
  - intros [[? [=]] _].
Qed.

Section select.
Context {R : Type} (col : R → cell).
Implicit Types df : frame R.

Lemma elem_of_select l df r :
  r ∈ select col l df ↔ (is_Some (col (dat r)) ∧ col (dat r) = l) ∧ r ∈ df.
Proof. unfold select. by rewrite list_elem_of_filter, cell_eq_true. Qed.

Lemma select_app l df1 df2 :
  select col l (df1 ++ df2) = select col l df1 ++ select col l df2.
Proof. apply filter_app. Qed.

Lemma select_block_same l x : block col l x → select col l x = x.
Proof. intros Hx. by apply filter_all. Qed.

Lemma select_block_other l l' x : block col l x → l ≠ l' → select col l' x = [].
Proof.
  intros Hx Hne. apply filter_none. intros r Hr Hc.
  apply Hx, cell_eq_true in Hr. apply cell_eq_true in Hc.
  destruct Hr as [_ Hr], Hc as [_ Hc]. congruence.
Qed.

Lemma block_select l df : block col l (select col l df).
Proof. intros r Hr. apply list_elem_of_filter in Hr. tauto. Qed.

Lemma block_submseteq l x y : block col l y → x ⊆+ y → block col l x.
Proof. intros Hy Hs r Hr. apply Hy. by eapply elem_of_submseteq. Qed.

(** Blocks with pairwise different labels, laid end to end: selecting a
    label gives back its block. *)
Lemma select_join_blocks ls (xs : list (frame R)) i l x :
  NoDup ls → Forall2 (block col) ls xs →
  ls !! i = Some l → xs !! i = Some x →
  select col l (mjoin xs) = x.
Proof.
  intros Hnd HF. revert i Hnd.
  induction HF as [|l0 x0 ls xs Hb HF IH]; intros i Hnd Hl Hx; [done|].
  apply NoDup_cons in Hnd as [Hnotin Hnd].
  change (mjoin (x0 :: xs)) with (x0 ++ mjoin xs). rewrite select_app.
  destruct i as [|i]; simplify_eq/=.
  - rewrite (select_block_same _ _ Hb).
    unfold select.
    rewrite (filter_none _ (mjoin xs)); [by rewrite app_nil_r|].
    intros r Hr Hc. apply list_elem_of_join in Hr as (y & Hr & Hy).
    apply list_elem_of_lookup in Hy as [j Hj].
    destruct (Forall2_lookup_r _ _ _ _ _ HF Hj) as (l' & Hl' & Hb').
    apply Hb', cell_eq_true in Hr as [_ Hr]. apply cell_eq_true in Hc as [_ Hc].
    apply Hnotin. apply list_elem_of_lookup. exists j. congruence.
  - rewrite (select_block_other _ _ _ Hb); [by apply (IH i)|].
    intros ->. apply Hnotin. apply list_elem_of_lookup; eauto.
Qed.

Lemma bind_select_nil (ls : list cell) :
  ls ≫= (λ l, select col l []) = [].
Proof. induction ls as [|l ls IH]; [done|]. by rewrite bind_cons, IH. Qed.

Lemma bind_select_cons (ls : list cell) r df :
  NoDup ls →
  ls ≫= (λ l, select col l (r :: df)) ≡ₚ
    (if decide (is_Some (col (dat r)) ∧ col (dat r) ∈ ls) then [r] else [])
    ++ (ls ≫= λ l, select col l df).
Proof.
  induction ls as [|l ls IH]; intros Hnd.
  { cbn. case_decide as H; [|done]. destruct H as [_ H].
    by apply elem_of_nil in H. }
  apply NoDup_cons in Hnd as [Hnotin Hnd].
  rewrite !bind_cons, IH by done. unfold select at 1.
  destruct (decide (cell_eq (col (dat r)) l = true)) as [Hc|Hc].
  - rewrite filter_cons_True by done.
    apply cell_eq_true in Hc as [Hs <-].
    rewrite decide_False by tauto.
    rewrite decide_True by (split; [done|left]). reflexivity.
  - rewrite filter_cons_False by done.
    rewrite cell_eq_true in Hc.
    case_decide as H1; case_decide as H2; try done.
    + cbn. by rewrite Permutation_middle.
    + exfalso. apply H2. split; [tauto|]. right; tauto.
    + exfalso. destruct H2 as [Hs H2].
      apply elem_of_cons in H2 as [?|?]; tauto.
Qed.

(** The groups of the labels partition the rows that have a label. *)
Lemma group_by (ls : list cell) df :
  NoDup ls → (∀ r, r ∈ df → col (dat r) ∈ ls) →
  ls ≫= (λ l, select col l df) ≡ₚ filter (λ r, is_Some (col (dat r))) df.
Proof.
  intros Hnd. induction df as [|r df IH]; intros Hin.
  { by rewrite bind_select_nil. }
  rewrite bind_select_cons by done.
  rewrite IH by (intros; apply Hin; by right).
  rewrite filter_cons.
  assert (col (dat r) ∈ ls) by (apply Hin; left).
  destruct (decide (is_Some (col (dat r)))).
  - by rewrite decide_True by done.
  - by rewrite decide_False by tauto.
Qed.

Lemma select_absent l df :
  l ∉ (col ∘ dat <$> df) → select col l df = [].
Proof.
  intros Hnotin. apply filter_none. intros r Hr Hc. apply Hnotin.
  apply cell_eq_true in Hc as [_ <-].
  apply list_elem_of_fmap. exists r. split; [reflexivity|exact Hr].
Qed.

Lemma index_select_NoDup df l :
  NoDup (index df) → NoDup (index (select col l df)).
Proof.
  intros H. eapply sublist_NoDup; [done|].
  unfold index, select. apply fmap_sublist, sublist_filter.
Qed.

Lemma labelled_NoDup df :
  (∀ l, NoDup (index (select col l df))) →
  NoDup (filter (λ r, is_Some (col (dat r))) df).
Proof.
  intros Hnd.
  rewrite <- (group_by (unique (col ∘ dat <$> df))).
  - apply NoDup_bind; [| |apply NoDup_unique].
    + intros l1 l2 r _ _ H1 H2.
      apply elem_of_select in H1 as [[_ <-] _].
      by apply elem_of_select in H2 as [[_ <-] _].
    + intros l _. eapply NoDup_fmap_1, Hnd.
  - apply NoDup_unique.
  - intros r Hr. apply elem_of_unique, list_elem_of_fmap. by exists r.
Qed.
End select.

Section reindex.
Context {R : Type}.
Implicit Types df : frame R.

Lemma index_reset_index df :
  index (reset_index df) = Z.of_nat <$> seq 0 (length df).
Proof.
  unfold index, reset_index. rewrite fmap_imap.
  apply (imap_seq_0 df Z.of_nat).
Qed.

Lemma NoDup_index_reset_index df : NoDup (index (reset_index df)).
Proof.
  rewrite index_reset_index. apply NoDup_fmap_2; [apply _|apply NoDup_seq].
Qed.

Lemma elem_of_reset_index df r :
  r ∈ reset_index df → ∃ r', r' ∈ df ∧ dat r = dat r'.
Proof.
  unfold reset_index. intros (i & r' & -> & Hr')%elem_of_lookup_imap_1.
  exists r'. split; [|done]. by eapply list_elem_of_lookup_2.
Qed.

Lemma index_with_columns {R'} (f : R → R') df :
  index (with_columns f df) = index df.
Proof. unfold index, with_columns. by rewrite <- list_fmap_compose. Qed.

Lemma elem_of_with_columns {R'} (f : R → R') df r :
  r ∈ with_columns f df → ∃ r', r' ∈ df ∧ dat r = f (dat r').
Proof.
  unfold with_columns. intros (r' & -> & Hr')%list_elem_of_fmap. eauto.
Qed.
End reindex.

Lemma elem_of_merge {L R' K O} `{EqDecision K}
    (lkey : L → K) (rkey : R' → K) (pair : L → R' → O)
    (left : frame L) (right : frame R') r :
  r ∈ merge lkey rkey pair left right →
  ∃ l r', l ∈ left ∧ r' ∈ right ∧ rkey (dat r') = lkey (dat l)
          ∧ dat r = pair (dat l) (dat r').
Proof.
  unfold merge. intros (x & Hx & ->)%elem_of_reset_index.
  apply list_elem_of_bind in Hx as (l & Hx & Hl).
  apply list_elem_of_bind in Hx as (r' & Hx & Hr').
  apply list_elem_of_filter in Hr' as [Hk Hr'].
  apply list_elem_of_singleton in Hx as ->. by exists l, r'.
Qed.

End PandasFacts.
Import PandasFacts.

(** ** [split_to_train_val_test] *)

Module SplitFacts.

Lemma perm_interleave {A} (a b c x y z : list A) :
  (a ++ x) ++ (b ++ y) ++ (c ++ z) ≡ₚ (a ++ b ++ c) ++ (x ++ y ++ z).
Proof.
  rewrite <- !app_assoc. f_equiv.
  rewrite (Permutation_app_swap_app x b). f_equiv.
  rewrite (app_assoc x y), (Permutation_app_swap_app (x ++ y) c).
  by rewrite <- app_assoc.
Qed.

Section loop.
Context {R : Type} (col : R → cell) (s0 s1 s2 : Q) (df : frame R).

Lemma split_label_Ok lbl tr va te g acc' g' :
  NoDup (index (select col lbl df)) →
  split_label col (s0, s1, s2) df lbl (tr, va, te) g = (Ok acc', g') →
  ∃ p, is_part col s0 s1 s2 df lbl p
       ∧ acc' = (tr ++ p.1.1, va ++ p.1.2, te ++ p.2).
Proof.
  intros Hnd. unfold split_label.
  set (lbl_df := select col lbl df) in *.
  intros H.
  apply bind_Ok in H as (a & g1 & Ha & H).
  apply bind_Ok in H as (vt & g2 & Hvt & H).
  apply bind_Ok in H as (frac & g3 & Hfrac & H).
  apply bind_Ok in H as (c & g4 & Hc & H).
  apply bind_Ok in H as (b & g5 & Hb & H).
  injection H as <- <-.
  apply sample_Ok in Ha as [Hasub Halen].
  apply lift_Ok in Hvt as [Hvt _].
  apply lift_Ok in Hfrac as [Hfrac _].
  apply sample_Ok in Hc as [Hcsub Hclen].
  apply lift_Ok in Hb as [Hb _].
  pose proof (drop_sample _ _ _ Hnd Hasub Hvt) as Hp1.
  assert (NoDup (index vt)) as Hndvt.
  { unfold index in *. rewrite <- Hp1, fmap_app in Hnd.
    by apply NoDup_app in Hnd as (_ & _ & ?). }
  pose proof (drop_sample _ _ _ Hndvt Hcsub Hb) as Hp2.
  subst lbl_df.
  exists (a, b, c). split; [|done]. unfold is_part; cbn [fst snd].
  split_and!.
  - rewrite <- Hp1, <- Hp2. f_equiv. apply Permutation_app_comm.
  - done.
  - exists frac. split; [done|]. rewrite Hclen. do 2 f_equal.
    apply Permutation_length in Hp1. rewrite length_app in Hp1. lia.
Qed.

Lemma split_label_total lbl acc g frac :
  (0 <= s0)%Q → (s0 <= 99 # 100)%Q →
  truediv s2 (fadd s1 s2) = Ok frac → (0 <= frac)%Q → (frac <= 99 # 100)%Q →
  ∃ acc' g', split_label col (s0, s1, s2) df lbl acc g = (Ok acc', g').
Proof.
  intros H0 H1 Hfrac H2 H3. destruct acc as [[tr va] te]. unfold split_label.
  set (lbl_df := select col lbl df).
  destruct (sample_total s0 lbl_df g H0 H1) as (a & g1 & Ha).
  rewrite (bind_run _ _ _ _ _ Ha).
  apply sample_Ok in Ha as [Hasub _].
  destruct (drop_total _ _ Hasub) as (vt & Hvt & _).
  rewrite Hvt, Hfrac. unfold bind at 1, lift at 1. unfold bind at 1, lift at 1.
  destruct (sample_total frac vt g1 H2 H3) as (c & g2 & Hc).
  rewrite (bind_run _ _ _ _ _ Hc).
  apply sample_Ok in Hc as [Hcsub _].
  destruct (drop_total _ _ Hcsub) as (b & Hb & _).
  rewrite Hb. unfold bind, lift, ret. eauto.
Qed.

Lemma split_labels_Ok ls tr va te g acc' g' :
  (∀ l, l ∈ ls → NoDup (index (select col l df))) →
  split_labels col (s0, s1, s2) df ls (tr, va, te) g = (Ok acc', g') →
  ∃ ps, Forall2 (is_part col s0 s1 s2 df) ls ps ∧
    acc' = (tr ++ mjoin ((λ p, p.1.1) <$> ps),
            va ++ mjoin ((λ p, p.1.2) <$> ps),
            te ++ mjoin ((λ p, p.2) <$> ps)).
Proof.
  revert tr va te g. induction ls as [|l ls IH]; intros tr va te g Hnd H.
  - injection H as <- <-. exists []. split; [constructor|].
    cbn. by rewrite !app_nil_r.
  - cbn [split_labels] in H.
    apply bind_Ok in H as (acc1 & g1 & H1 & H).
    apply split_label_Ok in H1 as (p & Hp & ->); [|apply Hnd; left].
    apply IH in H as (ps & Hps & ->); [|intros; apply Hnd; by right].
    exists (p :: ps). split; [by constructor|].
    cbn. by rewrite !app_assoc.
Qed.

Lemma split_labels_total ls acc g frac :
  (0 <= s0)%Q → (s0 <= 99 # 100)%Q →
  truediv s2 (fadd s1 s2) = Ok frac → (0 <= frac)%Q → (frac <= 99 # 100)%Q →
  ∃ acc' g', split_labels col (s0, s1, s2) df ls acc g = (Ok acc', g').
Proof.
  intros H0 H1 Hfrac H2 H3. revert acc g.
  induction ls as [|l ls IH]; intros acc g; [cbn; unfold ret; eauto|].
  cbn [split_labels].
  destruct (split_label_total l acc g frac H0 H1 Hfrac H2 H3) as (acc1 & g1 & E).
  rewrite (bind_run _ _ _ _ _ E). apply IH.
Qed.

Lemma parts_cover ls ps :
  Forall2 (is_part col s0 s1 s2 df) ls ps →
  mjoin ((λ p, p.1.1) <$> ps) ++ mjoin ((λ p, p.1.2) <$> ps)
    ++ mjoin ((λ p, p.2) <$> ps)
  ≡ₚ ls ≫= (λ l, select col l df).
Proof.
  induction 1 as [|l p ls ps [Hp _] _ IH]; [done|].
  rewrite bind_cons, <- IH, <- Hp. cbn. apply perm_interleave.
Qed.

Lemma parts_blocks (f : frame R * frame R * frame R → frame R) ls ps :
  (∀ p, f p ⊆+ p.1.1 ++ p.1.2 ++ p.2) →
  Forall2 (is_part col s0 s1 s2 df) ls ps → Forall2 (block col) ls (f <$> ps).
Proof.
  intros Hf HF. apply Forall2_fmap_r.
  eapply Forall2_impl; [done|]. intros l p [Hp _]; cbn.
  eapply block_submseteq; [|apply Hf].
  intros r Hr. rewrite Hp in Hr. by apply (block_select col l df).
Qed.

Lemma split_Ok g tr va te g' :
  (∀ l, NoDup (index (select col l df))) →
  split_to_train_val_test df col (s0, s1, s2) g = (Ok (tr, va, te), g') →
  ∃ ps, Forall2 (is_part col s0 s1 s2 df) (unique (col ∘ dat <$> df)) ps ∧
    tr ≡ₚ mjoin ((λ p, p.1.1) <$> ps) ∧
    va ≡ₚ mjoin ((λ p, p.1.2) <$> ps) ∧
    te ≡ₚ mjoin ((λ p, p.2) <$> ps).
Proof.
  intros Hnd. unfold split_to_train_val_test. intros H.
  apply bind_Ok in H as (acc & g1 & Hacc & H).
  apply split_labels_Ok in Hacc as (ps & Hps & ->); [|by intros].
  cbn [app] in H.
  destruct (sample_all_spec (mjoin ((λ p, p.1.1) <$> ps)) g1)
    as (tr1 & g2 & E1 & P1).
  rewrite (bind_run _ _ _ _ _ E1) in H.
  destruct (sample_all_spec (mjoin ((λ p, p.1.2) <$> ps)) g2)
    as (va1 & g3 & E2 & P2).
  rewrite (bind_run _ _ _ _ _ E2) in H.
  destruct (sample_all_spec (mjoin ((λ p, p.2) <$> ps)) g3)
    as (te1 & g4 & E3 & P3).
  rewrite (bind_run _ _ _ _ _ E3) in H.
  injection H as <- <- <- <-. by exists ps.
Qed.

(** With fractions of at most 0.99 the function returns. *)
Lemma split_total frac g :
  (0 <= s0)%Q → (s0 <= 99 # 100)%Q →
  truediv s2 (fadd s1 s2) = Ok frac → (0 <= frac)%Q → (frac <= 99 # 100)%Q →
  ∃ tr va te g',
    split_to_train_val_test df col (s0, s1, s2) g = (Ok (tr, va, te), g').
Proof.
  intros H0 H1 Hfrac H2 H3. unfold split_to_train_val_test.
  destruct (split_labels_total (unique (col ∘ dat <$> df))
              ([], [], []) g frac H0 H1 Hfrac H2 H3) as ([[tr va] te] & g1 & E).
  rewrite (bind_run _ _ _ _ _ E).
  destruct (sample_all_spec tr g1) as (tr1 & g2 & E1 & _).
  rewrite (bind_run _ _ _ _ _ E1).
  destruct (sample_all_spec va g2) as (va1 & g3 & E2 & _).
  rewrite (bind_run _ _ _ _ _ E2).
  destruct (sample_all_spec te g3) as (te1 & g4 & E3 & _).
  rewrite (bind_run _ _ _ _ _ E3). unfold ret. eauto 6.
Qed.

(** The three outputs hold the rows that have a label, each once. *)
Lemma split_cover g tr va te g' :
  (∀ l, NoDup (index (select col l df))) →
  split_to_train_val_test df col (s0, s1, s2) g = (Ok (tr, va, te), g') →
  tr ++ va ++ te ≡ₚ filter (λ r, is_Some (col (dat r))) df.
Proof.
  intros Hnd H. apply split_Ok in H as (ps & Hps & -> & -> & ->); [|done].
  rewrite (parts_cover _ _ Hps).
  apply group_by; [apply NoDup_unique|].
  intros r Hr. apply elem_of_unique, list_elem_of_fmap. by exists r.
Qed.

Lemma split_per_label g tr va te g' k :
  (∀ l, NoDup (index (select col l df))) →
  split_to_train_val_test df col (s0, s1, s2) g = (Ok (tr, va, te), g') →
  Some k ∈ (col ∘ dat <$> df) →
  is_part col s0 s1 s2 df (Some k)
    (select col (Some k) tr, select col (Some k) va, select col (Some k) te).
Proof.
  intros Hnd H Hk. apply split_Ok in H as (ps & Hps & Htr & Hva & Hte); [|done].
  apply elem_of_unique, list_elem_of_lookup in Hk as [i Hi].
  destruct (Forall2_lookup_l _ _ _ _ _ Hps Hi) as (p & Hp & Hpart).
  pose proof (NoDup_unique (col ∘ dat <$> df)) as Hu.
  assert (∀ f : frame R * frame R * frame R → frame R,
            (∀ p, f p ⊆+ p.1.1 ++ p.1.2 ++ p.2) →
            ∀ x, x ≡ₚ mjoin (f <$> ps) → select col (Some k) x ≡ₚ f p) as Hsel.
  { intros f Hf x Hx.
    trans (select col (Some k) (mjoin (f <$> ps)));
      [unfold select; by rewrite Hx|].
    erewrite (select_join_blocks col _ (f <$> ps) i (Some k) (f p));
      [done|done| |done|].
    - by eapply parts_blocks.
    - by rewrite list_lookup_fmap, Hp. }
  pose proof (Hsel (λ p, p.1.1)
    (λ p, submseteq_inserts_r _ _ _ (reflexivity _)) _ Htr) as E1.
  pose proof (Hsel (λ p, p.1.2)
    (λ p, submseteq_inserts_l _ _ _
            (submseteq_inserts_r _ _ _ (reflexivity _))) _ Hva) as E2.
  pose proof (Hsel (λ p, p.2)
    (λ p, submseteq_inserts_l _ _ _
            (submseteq_inserts_l _ _ _ (reflexivity _))) _ Hte) as E3.
  destruct Hpart as (Hperm & Hlen1 & frac & Hfrac & Hlen2).
  unfold is_part; cbn [fst snd]. split_and!.
  - by rewrite E1, E2, E3.
  - by rewrite E1.
  - exists frac. split; [done|]. by rewrite E1, E3.
Qed.

(** The rows of one label in the three outputs are the rows of that
    label in the input, each once. *)
Lemma split_select g tr va te g' l :
  (∀ l, NoDup (index (select col l df))) →
  split_to_train_val_test df col (s0, s1, s2) g = (Ok (tr, va, te), g') →
  select col l tr ++ select col l va ++ select col l te ≡ₚ select col l df.
Proof.
  intros Hnd H. apply split_cover in H; [|done].
  rewrite <- !select_app. unfold select at 1. rewrite H.
  unfold select. rewrite list_filter_filter.
  apply reflexive_eq, list_filter_iff. intros r.
  rewrite cell_eq_true. tauto.
Qed.
End loop.

End SplitFacts.
Import SplitFacts.

(** ** The claims about notebook 1 *)

(** The split ratios of the notebook: what they are and how far the two
    fractions next to one third are from it. *)
Lemma split_ratios_facts :
  ∃ frac third,
    truediv (float_lit (1 # 10)) (fadd (float_lit (2 # 10)) (float_lit (1 # 10)))
      = Ok frac ∧
    truediv (float_lit (1 # 10)) (float_lit (3 # 10)) = Ok third ∧
    (0 <= float_lit (7 # 10))%Q ∧ (float_lit (7 # 10) <= 99 # 100)%Q ∧
    ((1 # 3) - (1 # 1000000000000000) <= frac)%Q ∧
    (frac <= (1 # 3) + (1 # 1000000000000000))%Q ∧
    ((1 # 3) - (1 # 1000000000000000) <= third)%Q ∧
    (third <= (1 # 3) + (1 # 1000000000000000))%Q.
Proof.
  do 2 eexists. split; [vm_compute; reflexivity|].
  split; [vm_compute; reflexivity|].
  split_and!; vm_compute; discriminate.
Qed.

(** C1 (amended).  For every input dataframe whose row indices are
    pairwise distinct and whose label column has no missing value, the
    three dataframes returned by [split_to_train_val_test] are pairwise
    disjoint, together contain exactly the rows of the input, and their
    sizes add up to its number of rows. *)
Theorem split_partitions_the_table {R} (df : frame R) (label_column : R → cell)
    (splits : Q * Q * Q) (g : rng) (tr va te : frame R) (g' : rng) :
  NoDup (index df) →
  (∀ r, r ∈ df → is_Some (label_column (dat r))) →
  split_to_train_val_test df label_column splits g = (Ok (tr, va, te), g') →
  tr ++ va ++ te ≡ₚ df ∧
  NoDup (index (tr ++ va ++ te)) ∧
  (∀ r, r ∈ tr → (r ∉ va) ∧ (r ∉ te)) ∧
  (∀ r, r ∈ va → r ∉ te) ∧
  length tr + length va + length te = length df.
Proof.
  intros Hnd Hlab H. destruct splits as [[s0 s1] s2].
  apply split_cover in H; [|intros l; by apply index_select_NoDup].
  rewrite (filter_all _ df Hlab) in H.
  assert (NoDup (index tr ++ index va ++ index te)) as Hnd'.
  { unfold index in *. by rewrite <- !fmap_app, H. }
  split_and!.
  - done.
  - unfold index in *. by rewrite !fmap_app.
  - apply NoDup_app in Hnd' as (_ & Hd & _).
    intros r Hr. split; intros Hr'; apply (Hd (ix r));
      try (by apply list_elem_of_fmap_2);
      apply elem_of_app; [left|right]; by apply list_elem_of_fmap_2.
  - apply NoDup_app in Hnd' as (_ & _ & Hnd').
    apply NoDup_app in Hnd' as (_ & Hd & _).
    intros r Hr Hr'. apply (Hd (ix r)); by apply list_elem_of_fmap_2.
  - apply Permutation_length in H. rewrite !length_app in H. lia.
Qed.

Lemma split_partitions_the_table_witness :
  let df : frame cell :=
    [IRow 0 (Some "a"); IRow 1 (Some "b"); IRow 2 (Some "a"); IRow 3 (Some "a")] in
  let tr := [IRow 3 (Some "a"); IRow 0 (Some "a"); IRow 1 (Some "b")] in
  let va := [IRow 2 (Some "a")] in
  split_to_train_val_test df id SPLIT_RATIOS [2; 0; 1] = (Ok (tr, va, []), []) ∧
  tr ++ va ++ [] ≡ₚ df ∧
  NoDup (index (tr ++ va ++ [])) ∧
  (∀ r, r ∈ tr → (r ∉ va) ∧ (r ∉ [])) ∧
  (∀ r, r ∈ va → r ∉ []) ∧
  length tr + length va + length (@nil (irow cell)) = length df.
Proof.
  intros df tr va.
  assert (split_to_train_val_test df id SPLIT_RATIOS [2; 0; 1]
          = (Ok (tr, va, []), [])) as Hrun by (vm_compute; reflexivity).
  split; [exact Hrun|].
  apply (split_partitions_the_table df id SPLIT_RATIOS [2; 0; 1] tr va [] []).
  - apply (bool_decide_unpack _). vm_compute. exact I.
  - apply Forall_forall. repeat (constructor; [by eexists|]). constructor.
  - exact Hrun.
Defined.

(** C1 as stated fails on a row without a label: the row is in none of
    the three outputs, although the row indices are distinct. *)
Lemma split_loses_the_unlabelled_row :
  let df : frame cell := [IRow 0 None; IRow 1 (Some "a")] in
  let tr := [IRow 1 (Some "a")] in
  NoDup (index df) ∧
  split_to_train_val_test df id SPLIT_RATIOS [] = (Ok (tr, [], []), []) ∧
  ¬ (tr ++ [] ++ [] ≡ₚ df) ∧
  length tr + length (@nil (irow cell)) + length (@nil (irow cell)) ≠ length df.
Proof.
  intros df tr. split_and!.
  - apply (bool_decide_unpack _). vm_compute. exact I.
  - vm_compute. reflexivity.
  - intros H%Permutation_length. discriminate.
  - discriminate.
Qed.

(** C2 (amended).  For every input dataframe in which the rows of one
    label have pairwise distinct row indices, [split_to_train_val_test]
    with the ratios (0.7, 0.2, 0.1) returns, no row is drawn twice, and for
    every label [l] that is not missing, with [n_l] rows: the rows labelled
    [l] of the three outputs are together the rows labelled [l] of the
    input, each once; train receives [round(0.7 * n_l)] of them; test
    receives [round(frac * (n_l - round(0.7 * n_l)))] with
    [frac = 0.1 / (0.2 + 0.1)] as the floats give it; val receives the
    rest.  Up to [10^12] rows the test count is the one [0.1 / 0.3] gives. *)
Theorem split_is_stratified {R} (df : frame R) (label_column : R → cell) (g : rng) :
  (∀ l, NoDup (index (select label_column l df))) →
  ∃ tr va te g' frac third,
    split_to_train_val_test df label_column SPLIT_RATIOS g = (Ok (tr, va, te), g') ∧
    truediv (float_lit (1 # 10)) (fadd (float_lit (2 # 10)) (float_lit (1 # 10)))
      = Ok frac ∧
    truediv (float_lit (1 # 10)) (float_lit (3 # 10)) = Ok third ∧
    NoDup (tr ++ va ++ te) ∧
    ∀ k : string,
      let l := Some k in
      let n_l := length (select label_column l df) in
      let n_train := sample_size (float_lit (7 # 10)) n_l in
      let n_test := sample_size frac (n_l - Z.to_nat n_train) in
      select label_column l tr ++ select label_column l va
        ++ select label_column l te ≡ₚ select label_column l df ∧
      Z.of_nat (length (select label_column l tr)) = n_train ∧
      Z.of_nat (length (select label_column l te)) = n_test ∧
      Z.of_nat (length (select label_column l va))
        = (Z.of_nat n_l - n_train - n_test)%Z ∧
      ((Z.of_nat n_l <= 1000000000000)%Z →
       n_test = sample_size third (n_l - Z.to_nat n_train)).
Proof.
  intros Hnd.
  destruct split_ratios_facts
    as (frac & third & Hfrac & Hthird & H0 & H1 & Hf1 & Hf2 & Ht1 & Ht2).
  destruct (split_total label_column (float_lit (7 # 10)) (float_lit (2 # 10))
              (float_lit (1 # 10)) df frac g)
    as (tr & va & te & g' & Hrun); [done|done|done|lra|lra|].
  exists tr, va, te, g', frac, third.
  split; [exact Hrun|]. split; [done|]. split; [done|]. split.
  { rewrite (split_cover _ _ _ _ _ _ _ _ _ _ Hnd Hrun).
    by apply labelled_NoDup. }
  intros k l n_l n_train n_test.
  pose proof (split_select _ _ _ _ _ _ _ _ _ _ l Hnd Hrun) as Hsel.
  assert (Z.of_nat (length (select label_column l tr)) = n_train
          ∧ Z.of_nat (length (select label_column l te)) = n_test) as [E1 E2].
  { assert (0 <= frac)%Q as Hfrac0 by lra.
    assert (frac <= 99 # 100)%Q as Hfrac1 by lra.
    pose proof (sample_size_bounds (float_lit (7 # 10)) n_l H0 H1) as Hb1.
    pose proof (sample_size_bounds frac (n_l - Z.to_nat n_train) Hfrac0 Hfrac1)
      as Hb2.
    destruct (decide (l ∈ (label_column ∘ dat <$> df))) as [Hin|Hnotin].
    - destruct (split_per_label _ _ _ _ _ _ _ _ _ _ k Hnd Hrun Hin)
        as (_ & Hlen1 & frac' & Hfrac' & Hlen2).
      cbn [fst snd] in Hlen1, Hlen2.
      assert (frac' = frac) as -> by congruence.
      subst l n_l n_train n_test. rewrite Hlen1 in Hlen2 |- *.
      rewrite Hlen2. lia.
    - pose proof (select_absent label_column l df Hnotin) as Hnil.
      subst l n_l n_train n_test.
      rewrite Hnil in Hsel, Hb1, Hb2 |- *. apply Permutation_length in Hsel.
      rewrite !length_app in Hsel. cbn [length] in *. lia. }
  split; [exact Hsel|]. split; [exact E1|]. split; [exact E2|]. split.
  - apply Permutation_length in Hsel. rewrite !length_app in Hsel.
    subst n_l. lia.
  - intros Hbig. subst n_test.
    rewrite !sample_size_third; [reflexivity|exact Ht1|exact Ht2|lia
                                |exact Hf1|exact Hf2|lia].
Qed.

Lemma split_is_stratified_witness :
  let df : frame cell :=
    [IRow 0 (Some "a"); IRow 1 (Some "b"); IRow 2 (Some "a"); IRow 3 (Some "a")] in
  (∀ l, NoDup (index (select id l df))) ∧
  ∃ tr va te g' frac third,
    split_to_train_val_test df id SPLIT_RATIOS [2; 0; 1] = (Ok (tr, va, te), g') ∧
    truediv (float_lit (1 # 10)) (fadd (float_lit (2 # 10)) (float_lit (1 # 10)))
      = Ok frac ∧
    truediv (float_lit (1 # 10)) (float_lit (3 # 10)) = Ok third ∧
    NoDup (tr ++ va ++ te) ∧
    ∀ k : string,
      let l := Some k in
      let n_l := length (select id l df) in
      let n_train := sample_size (float_lit (7 # 10)) n_l in
      let n_test := sample_size frac (n_l - Z.to_nat n_train) in
      select id l tr ++ select id l va ++ select id l te ≡ₚ select id l df ∧
      Z.of_nat (length (select id l tr)) = n_train ∧
      Z.of_nat (length (select id l te)) = n_test ∧
      Z.of_nat (length (select id l va)) = (Z.of_nat n_l - n_train - n_test)%Z ∧
      ((Z.of_nat n_l <= 1000000000000)%Z →
       n_test = sample_size third (n_l - Z.to_nat n_train)).
Proof.
  intros df.
  assert (∀ l, NoDup (index (select id l df))) as Hnd.
  { intros l. apply index_select_NoDup.
    apply (bool_decide_unpack _). vm_compute. exact I. }
  split; [exact Hnd|].
  exact (split_is_stratified df id [2; 0; 1] Hnd).
Defined.

(** C2 as stated fails on two kinds of input.  Ten rows of one label that
    share the index label 0: the seven sampled for train take the other
    three with them when they are dropped, so test and val stay empty where
    the claim promises one row and two.  Three rows with a missing label:
    no output receives any of them where the claim promises two for
    train. *)
Lemma split_counts_break :
  let df1 : frame (nat * cell) := (λ i, IRow 0 (i, Some "a")) <$> seq 0 10 in
  let df2 : frame cell := [IRow 0 None; IRow 1 None; IRow 2 None] in
  (∃ tr, split_to_train_val_test df1 snd SPLIT_RATIOS [] = (Ok (tr, [], []), [])
         ∧ length (select snd (Some "a") df1) = 10
         ∧ length tr = 7
         ∧ ∃ frac, truediv (float_lit (1 # 10))
                     (fadd (float_lit (2 # 10)) (float_lit (1 # 10))) = Ok frac
             ∧ sample_size frac (10 - 7) = 1%Z) ∧
  (NoDup (index df2)
   ∧ split_to_train_val_test df2 id SPLIT_RATIOS [] = (Ok ([], [], []), [])
   ∧ length (filter (λ r, dat r = None) df2) = 3
   ∧ sample_size (float_lit (7 # 10)) 3 = 2%Z).
Proof.
  intros df1 df2. split.
  - eexists. split; [vm_compute; reflexivity|].
    split; [vm_compute; reflexivity|]. split; [reflexivity|].
    eexists. split; [vm_compute; reflexivity|]. vm_compute. reflexivity.
  - split_and!.
    + apply (bool_decide_unpack _). vm_compute. exact I.
    + vm_compute. reflexivity.
    + vm_compute. reflexivity.
    + vm_compute. reflexivity.
Qed.

(** ** [get_train_val_dataframes] *)

Module BirdsFacts.

Lemma fill_lookup_notin cs i (d : gmap Z string) c :
  c ∉ cs → fill_id_to_one_based cs i d !! c = d !! c.
Proof.
  revert i d. induction cs as [|c0 cs IH]; intros i d Hc; [done|].
  cbn [fill_id_to_one_based].
  apply not_elem_of_cons in Hc as [Hne Hc].
  rewrite IH by done. by apply lookup_insert_ne.
Qed.

(** The [j]-th class of the sorted list is numbered [i + j]. *)
Lemma fill_lookup cs i (d : gmap Z string) j c :
  NoDup cs → cs !! j = Some c →
  fill_id_to_one_based cs i d !! c = Some (str (i + j)).
Proof.
  revert i d j. induction cs as [|c0 cs IH]; intros i d j Hnd Hj; [done|].
  apply NoDup_cons in Hnd as [Hnotin Hnd].
  cbn [fill_id_to_one_based]. destruct j as [|j]; simplify_eq/=.
  - rewrite fill_lookup_notin by done.
    rewrite lookup_insert_eq. by rewrite Nat.add_0_r.
  - rewrite (IH (S i) _ j) by done. do 2 f_equal. lia.
Qed.

Lemma StronglySorted_le_lt (l : list Z) :
  StronglySorted Z.le l → NoDup l → StronglySorted Z.lt l.
Proof.
  induction 1 as [|x l Hs IH Hall]; intros Hnd; constructor.
  - apply IH. by apply NoDup_cons in Hnd as [_ ?].
  - apply NoDup_cons in Hnd as [Hx _].
    rewrite Forall_forall in Hall |- *. intros y Hy.
    specialize (Hall y Hy). assert (x ≠ y) by (by intros ->). lia.
Qed.

Section table.
Variable images : list (Z * string).
Variable image_class_labels : list (Z * Z).

Lemma merged_df_excluded r :
  r ∈ merged_df images image_class_labels →
  (dat r).1.2 ∉ EXCLUDE_IMAGE_LIST.
Proof.
  unfold merged_df, SAMPLE_ONLY.
  intros [_ Hr]%list_elem_of_filter.
  apply elem_of_merge in Hr as (l & r' & Hl & _ & _ & ->).
  apply elem_of_reset_index in Hl as (l' & Hl' & ->).
  by apply list_elem_of_filter in Hl' as [? _].
Qed.

Lemma sorted_unique_classes_spec :
  let classes := sorted_unique_classes images image_class_labels in
  NoDup classes ∧ StronglySorted Z.lt classes ∧
  ∀ c, c ∈ classes ↔
       ∃ r, r ∈ merged_df images image_class_labels ∧ (dat r).2 = c.
Proof.
  cbn zeta. unfold sorted_unique_classes.
  set (u := unique _).
  assert (NoDup (merge_sort Z.le u)) as Hnd.
  { rewrite merge_sort_Permutation. apply NoDup_unique. }
  split_and!; [done| |].
  - apply StronglySorted_le_lt; [|done].
    apply StronglySorted_merge_sort; apply _.
  - intros c. rewrite merge_sort_Permutation. subst u.
    rewrite elem_of_unique, list_elem_of_fmap.
    split; intros (r & ? & ?); eauto.
Qed.

Lemma full_df_rows r :
  r ∈ full_df images image_class_labels →
  ∃ m, m ∈ merged_df images image_class_labels ∧
    dat r = Bird (dat m).1.2 (dat m).2
              (id_to_one_based images image_class_labels !! (dat m).2)
              (get_class_name (dat m).1.2).
Proof.
  unfold full_df.
  intros (r1 & Hr1 & ->)%elem_of_with_columns.
  apply elem_of_with_columns in Hr1 as (r2 & Hr2 & ->).
  apply elem_of_reset_index in Hr2 as (r3 & Hr3 & ->).
  apply elem_of_with_columns in Hr3 as (m & Hm & ->).
  by exists m.
Qed.

Lemma full_df_index : NoDup (index (full_df images image_class_labels)).
Proof.
  unfold full_df. rewrite !index_with_columns.
  apply NoDup_index_reset_index.
Qed.

Lemma full_df_class_id r :
  r ∈ full_df images image_class_labels →
  ∃ j, j < length (sorted_unique_classes images image_class_labels) ∧
    sorted_unique_classes images image_class_labels !! j
      = Some (orig_class_id (dat r)) ∧
    class_id (dat r) = Some (str (S j)).
Proof.
  intros (m & Hm & ->)%full_df_rows. cbn [orig_class_id class_id].
  destruct sorted_unique_classes_spec as (Hnd & _ & Hin).
  assert ((dat m).2 ∈ sorted_unique_classes images image_class_labels) as Hc
    by (apply Hin; eauto).
  apply list_elem_of_lookup in Hc as [j Hj].
  exists j. split_and!; [by eapply lookup_lt_Some|done|].
  unfold id_to_one_based. by rewrite (fill_lookup _ 1 ∅ j _ Hnd Hj).
Qed.

(** The function returns, and every row it returns is a row of
    [full_df]. *)
Lemma get_train_val_dataframes_returns g :
  ∃ tr va te g',
    get_train_val_dataframes images image_class_labels g
      = (Ok (tr, va, te), g') ∧
    ∀ r, r ∈ tr ++ va ++ te → r ∈ full_df images image_class_labels.
Proof.
  destruct split_ratios_facts
    as (frac & third & Hfrac & _ & H0 & H1 & Hf1 & Hf2 & _).
  unfold get_train_val_dataframes.
  destruct (split_total class_id (float_lit (7 # 10)) (float_lit (2 # 10))
              (float_lit (1 # 10)) (full_df images image_class_labels) frac g)
    as (tr & va & te & g' & Hrun); [done|done|done|lra|lra|].
  exists tr, va, te, g'. split; [exact Hrun|].
  intros r Hr.
  rewrite (split_cover _ _ _ _ _ _ _ _ _ _
             (λ l, index_select_NoDup _ _ l full_df_index) Hrun) in Hr.
  by apply list_elem_of_filter in Hr as [_ ?].
Qed.
End table.

End BirdsFacts.
Import BirdsFacts.

(** C5.  [get_train_val_dataframes] returns, and every row of its three
    dataframes carries a class id of the known set: the distinct original
    class ids that survive the filtering, in ascending order, are numbered
    "1" to "k", and each row carries the number of its original class. *)
Theorem class_ids_are_one_based (images : list (Z * string))
    (image_class_labels : list (Z * Z)) (g : rng) :
  let classes := sorted_unique_classes images image_class_labels in
  let k := length classes in
  ∃ tr va te g',
    get_train_val_dataframes images image_class_labels g
      = (Ok (tr, va, te), g') ∧
    StronglySorted Z.lt classes ∧
    (∀ c, c ∈ classes ↔
          ∃ r, r ∈ merged_df images image_class_labels ∧ (dat r).2 = c) ∧
    (∀ j c, classes !! j = Some c →
            id_to_one_based images image_class_labels !! c = Some (str (S j))) ∧
    (∀ i j, str i = str j → i = j) ∧
    ∀ r, r ∈ tr ++ va ++ te →
      ∃ j, j < k ∧ classes !! j = Some (orig_class_id (dat r))
           ∧ class_id (dat r) = Some (str (S j)).
Proof.
  intros classes k.
  destruct (get_train_val_dataframes_returns images image_class_labels g)
    as (tr & va & te & g' & Hrun & Hsub).
  destruct (sorted_unique_classes_spec images image_class_labels)
    as (Hnd & Hsorted & Hin).
  exists tr, va, te, g'. split_and!; [exact Hrun|exact Hsorted|exact Hin| | |].
  - intros j c Hj. unfold id_to_one_based.
    by rewrite (fill_lookup _ 1 ∅ j c Hnd Hj).
  - intros i j Hij. by apply (inj pretty) in Hij.
  - intros r Hr. by apply full_df_class_id, Hsub.
Qed.

(** C9.  No row that the merge produces has a file name of
    [EXCLUDE_IMAGE_LIST], and so none of the rows that
    [get_train_val_dataframes] returns has one. *)
Theorem excluded_images_are_never_returned (images : list (Z * string))
    (image_class_labels : list (Z * Z)) (g : rng) :
  (∀ r, r ∈ merged_df images image_class_labels →
        (dat r).1.2 ∉ EXCLUDE_IMAGE_LIST) ∧
  ∃ tr va te g',
    get_train_val_dataframes images image_class_labels g
      = (Ok (tr, va, te), g') ∧
    ∀ r, r ∈ tr ++ va ++ te → image_file_name (dat r) ∉ EXCLUDE_IMAGE_LIST.
Proof.
  split; [intros r; apply merged_df_excluded|].
  destruct (get_train_val_dataframes_returns images image_class_labels g)
    as (tr & va & te & g' & Hrun & Hsub).
  exists tr, va, te, g'. split; [exact Hrun|].
  intros r Hr. apply Hsub, full_df_rows in Hr as (m & Hm & ->).
  cbn [image_file_name]. by apply (merged_df_excluded images image_class_labels).
Qed.

(** ** The tallying loop of notebook 3 *)

Module BatchFacts.

(** *** [np.argmax] and [list.index] *)

Lemma float_le_trans x y z :
  float_le x y = true → float_le y z = true → float_le x z = true.
Proof.
  destruct x, y, z; cbn; try done.
  rewrite !bool_decide_eq_true. lia.
Qed.

Lemma float_le_total x y :
  isnan x = false → isnan y = false → float_le x y = false →
  float_le y x = true.
Proof.
  destruct x, y; cbn; try done.
  rewrite bool_decide_eq_false, bool_decide_eq_true. lia.
Qed.

Lemma float_le_refl x : isnan x = false → float_le x x = true.
Proof. destruct x; cbn; try done. rewrite bool_decide_eq_true. lia. Qed.

Lemma float_le_not_nan x y : float_le x y = true → isnan x = false.
Proof. by destruct x, y. Qed.

Lemma nanmax_le_number x v :
  isnan v = false → nanmax_le x v ↔ float_le x v = true.
Proof. by destruct v. Qed.

Lemma argmax_scan_spec ip pre mp max_ind :
  isnan mp = false →
  pre !! max_ind = Some mp →
  (∀ j x, pre !! j = Some x → float_le x mp = true) →
  (∀ j x, j < max_ind → pre !! j = Some x → float_le mp x = false) →
  first_argmax (pre ++ ip) (argmax_scan mp max_ind (length pre) ip).
Proof.
  revert pre mp max_ind.
  induction ip as [|x ip IH]; intros pre mp max_ind Hmp Hat Hle Hlt.
  - cbn [argmax_scan]. rewrite app_nil_r. exists mp. split_and!; [done| |].
    + intros j x Hx. apply nanmax_le_number; eauto.
    + intros j x Hj Hx Hc.
      apply nanmax_le_number in Hc; [|eauto using float_le_not_nan].
      by rewrite (Hlt j x Hj Hx) in Hc.
  - cbn [argmax_scan].
    assert (pre ++ x :: ip = (pre ++ [x]) ++ ip) as Happ
      by (by rewrite <- app_assoc).
    assert (S (length pre) = length (pre ++ [x])) as Hlen
      by (rewrite length_app; cbn; lia).
    destruct (float_le x mp) eqn:Hx; [|destruct (isnan x) eqn:Hnan].
    + rewrite Happ, Hlen. apply IH; [done| | |].
      * by apply lookup_app_l_Some.
      * intros j y Hy. apply lookup_snoc_Some in Hy as [[_ Hy]|[_ <-]]; eauto.
      * intros j y Hj Hy. apply lookup_snoc_Some in Hy as [[_ Hy]|[-> <-]].
        -- eauto.
        -- apply lookup_lt_Some in Hat. lia.
    + exists x. split_and!.
      * by rewrite list_lookup_middle.
      * intros j y _. by destruct x.
      * intros j y Hj Hy Hc. rewrite lookup_app_l in Hy by done.
        destruct x; try done.
        apply Hle, float_le_not_nan in Hy. by destruct y.
    + assert (float_le mp x = true) as Hmx by (by apply float_le_total).
      rewrite Happ, Hlen. apply IH; [done| | |].
      * by rewrite lookup_app_r, Nat.sub_diag by done.
      * intros j y Hy. apply lookup_snoc_Some in Hy as [[_ Hy]|[_ <-]].
        -- eapply float_le_trans; eauto.
        -- by apply float_le_refl.
      * intros j y Hj Hy. rewrite lookup_app_l in Hy by done.
        destruct (float_le x y) eqn:Hxy; [|done].
        rewrite (float_le_trans x y mp Hxy) in Hx; eauto.
Qed.

(** [np.argmax] returns the first position of a greatest element, NaN
    counting as the greatest. *)
Lemma argmax_spec results i : argmax results = Ok i → first_argmax results i.
Proof.
  destruct results as [|x ip]; [done|]. cbn [argmax]. intros [= <-].
  destruct (isnan x) eqn:Hnan.
  - exists x. split_and!; [done| |intros; lia].
    intros j y _. by destruct x.
  - apply (argmax_scan_spec ip [x] x 0 Hnan); [done| |intros; lia].
    intros [|j] y [= <-]. by apply float_le_refl.
Qed.

Lemma list_index_spec {A} `{EqDecision A} (l : list A) x i :
  list_index l x = Ok i → first_position l x i.
Proof.
  revert i. induction l as [|y l IH]; intros i; [done|].
  cbn [list_index]. destruct (decide (y = x)) as [->|Hne].
  - intros [= <-]. split; [done|]. intros; lia.
  - destruct (list_index l x) as [i'|e] eqn:E; [|done].
    intros [= <-]. destruct (IH i' eq_refl) as [Hi Hfirst].
    split; [done|]. intros [|j] Hj; cbn; [congruence|].
    apply Hfirst. lia.
Qed.

(** *** One turn of the loop *)

(** Run a block whose raising expressions have known outcomes. *)
Ltac run_try :=
  cbn;
  repeat match goal with
    | H : ?t = _ |- context [match ?t with _ => _ end] => rewrite H; cbn
    end.

Section loop.
Variable w : world.
Variable class_name_list : list string.

Abbreviation process_entry := (process_entry w class_name_list).
Abbreviation aggregate := (aggregate w class_name_list).
Abbreviation loop_body := (loop_body w class_name_list).

(** The [try] block either runs to its end, and then adds one entry to
    each list and one to [total], or raises before it has touched a
    tally. *)
Lemma process_entry_cases entry :
  (∃ ci ai c, verdict w class_name_list entry ci ai c ∧
     ∀ k, process_entry entry k =
          (Ok tt, Kernel (total k + 1) (correct k + (if c then 1 else 0))
                    (predicted k ++ [ci]) (actual k ++ [ai])
                    (calls k ++ [open_json entry]) (stdout k)))
  ∨ (∃ e cs, (cs = [] ∨ cs = [open_json entry]) ∧
     ∀ k, process_entry entry k =
          (Raise e, Kernel (total k) (correct k) (predicted k) (actual k)
                      (calls k ++ cs) (stdout k))).
Proof.
  unfold Batch.process_entry.
  destruct (getitem_list (split "/"%char entry) 1) as [actual_label|e] eqn:E1;
    [|right; exists e, []; split; [by left|];
      intros [??????]; run_try; by rewrite app_nil_r].
  destruct (list_index class_name_list actual_label) as [ai|e] eqn:E2;
    [|right; exists e, []; split; [by left|];
      intros [??????]; run_try; by rewrite app_nil_r].
  destruct (load_outcome w entry) as [jstr|e] eqn:E3;
    [|right; exists e, [open_json entry]; split; [by right|];
      intros [??????]; by run_try].
  destruct (getitem jstr "predictions") as [predictions|e] eqn:E4;
    [|right; exists e, [open_json entry]; split; [by right|];
      intros [??????]; by run_try].
  destruct (flatten_round predictions) as [results|e] eqn:E5;
    [|right; exists e, [open_json entry]; split; [by right|];
      intros [??????]; by run_try].
  destruct (argmax results) as [ci|e] eqn:E6;
    [|right; exists e, [open_json entry]; split; [by right|];
      intros [??????]; by run_try].
  destruct (getitem_list class_name_list ci) as [predicted_label|e] eqn:E7;
    [|right; exists e, [open_json entry]; split; [by right|];
      intros [??????]; by run_try].
  left. exists ci, ai, (bool_decide (predicted_label = actual_label)).
  split.
  - exists actual_label, jstr, predictions, results, predicted_label.
    unfold getitem_list in E1, E7.
    destruct (split "/"%char entry !! 1) eqn:E1'; [|done].
    destruct (class_name_list !! ci) eqn:E7'; [|done].
    by simplify_eq.
  - intros [??????]. run_try. rewrite orb_false_r.
    destruct (bool_decide (predicted_label = actual_label)); cbn;
      [done|by rewrite Nat.add_0_r].
Qed.

Lemma loop_body_cases entry :
  (∃ ci ai c, verdict w class_name_list entry ci ai c ∧
     (∀ k, (process_entry entry k).1 = Ok tt) ∧
     ∀ k, loop_body entry k =
          (Ok tt, Kernel (total k + 1) (correct k + (if c then 1 else 0))
                    (predicted k ++ [ci]) (actual k ++ [ai])
                    (calls k ++ [open_json entry]) (stdout k)))
  ∨ (∃ e cs, (cs = [] ∨ cs = [open_json entry]) ∧
     (∀ k, (process_entry entry k).1 = Raise e) ∧
     ∀ k, loop_body entry k =
          (Ok tt, Kernel (total k) (correct k) (predicted k) (actual k)
                    (calls k ++ cs) (stdout k ++ [printed_error e]))).
Proof.
  unfold Batch.loop_body, try_except.
  destruct (process_entry_cases entry)
    as [(ci & ai & c & Hv & H)|(e & cs & Hcs & H)].
  - left. exists ci, ai, c. split; [done|].
    split; intros k; by rewrite H.
  - right. exists e, cs. split; [done|].
    split; intros k; by rewrite H.
Qed.

Lemma aggregate_nil k : aggregate [] k = (Ok tt, k).
Proof. done. Qed.

Lemma aggregate_cons entry l k k1 :
  loop_body entry k = (Ok tt, k1) → aggregate (entry :: l) k = aggregate l k1.
Proof.
  intros H. unfold Batch.aggregate. cbn [for_each].
  by rewrite (bind_run _ _ _ _ _ H).
Qed.

Lemma loop_body_Ok entry k : ∃ k1, loop_body entry k = (Ok tt, k1).
Proof.
  destruct (loop_body_cases entry) as [(?&?&?&_&_&H)|(?&?&_&_&H)];
    rewrite H; eauto.
Qed.

Lemma aggregate_app l1 l2 k k1 :
  aggregate l1 k = (Ok tt, k1) → aggregate (l1 ++ l2) k = aggregate l2 k1.
Proof.
  revert k. induction l1 as [|entry l1 IH]; intros k.
  - rewrite aggregate_nil. by intros [= ->].
  - destruct (loop_body_Ok entry k) as [k' Hk']. cbn [app].
    rewrite !(aggregate_cons _ _ _ _ Hk'). apply IH.
Qed.

(** The loop never raises, keeps the tallies aligned, only adds
    [open] calls, and never lowers [total]. *)
Lemma aggregate_spec l k :
  ∃ k' cs, aggregate l k = (Ok tt, k') ∧
    (aligned k → aligned k') ∧
    calls k' = calls k ++ cs ∧ Forall consumes_output cs ∧
    total k ≤ total k'.
Proof.
  revert k. induction l as [|entry l IH]; intros k.
  { exists k, []. rewrite app_nil_r. by split_and!. }
  destruct (loop_body_cases entry)
    as [(ci & ai & c & _ & _ & H)|(e & cs0 & Hcs0 & _ & H)].
  - destruct (IH (Kernel (total k + 1) (correct k + (if c then 1 else 0))
                    (predicted k ++ [ci]) (actual k ++ [ai])
                    (calls k ++ [open_json entry]) (stdout k)))
      as (k' & cs & Hrun & Hal & Hcalls & Hcs & Htot).
    cbn [calls total] in Hcalls, Htot.
    exists k', (open_json entry :: cs).
    rewrite (aggregate_cons _ _ _ _ (H k)).
    split_and!; [done| |by rewrite Hcalls, <- app_assoc|by constructor|lia].
    intros (A1 & A2 & A3). apply Hal. unfold aligned; cbn.
    rewrite !length_app; cbn. destruct c; lia.
  - destruct (IH (Kernel (total k) (correct k) (predicted k) (actual k)
                    (calls k ++ cs0) (stdout k ++ [printed_error e])))
      as (k' & cs & Hrun & Hal & Hcalls & Hcs & Htot).
    cbn [calls total] in Hcalls, Htot.
    exists k', (cs0 ++ cs).
    rewrite (aggregate_cons _ _ _ _ (H k)).
    split_and!; [done|done|by rewrite Hcalls, <- app_assoc| |done].
    apply Forall_app. split; [|done].
    destruct Hcs0 as [->| ->]; by repeat constructor.
Qed.

(** From kernels with the same tallies the loop reaches kernels with
    the same tallies, and prints the same lines. *)
Lemma aggregate_same_tallies l k1 k2 :
  same_tallies k1 k2 →
  same_tallies (aggregate l k1).2 (aggregate l k2).2 ∧
  ∃ out, stdout (aggregate l k1).2 = stdout k1 ++ out
         ∧ stdout (aggregate l k2).2 = stdout k2 ++ out.
Proof.
  revert k1 k2. induction l as [|entry l IH]; intros k1 k2 Hsame.
  { split; [done|]. exists []. by rewrite !app_nil_r. }
  destruct Hsame as (E1 & E2 & E3 & E4).
  destruct (loop_body_cases entry)
    as [(ci & ai & c & _ & _ & H)|(e & cs0 & Hcs0 & _ & H)];
    rewrite !(aggregate_cons _ _ _ _ (H _)).
  - edestruct IH as [Hs (out & O1 & O2)];
      [|split; [exact Hs|exists out; split; [exact O1|exact O2]]].
    unfold same_tallies; cbn. by rewrite E1, E2, E3, E4.
  - edestruct IH as [Hs (out & O1 & O2)];
      [|split; [exact Hs|exists (printed_error e :: out)]].
    + unfold same_tallies; cbn. split_and!; [exact E1|exact E2|exact E3|exact E4].
    + cbn [stdout] in O1, O2. rewrite <- !app_assoc in O1, O2. by split.
Qed.

(** [total] counts the files whose [try] block ran to its end. *)
Lemma aggregate_total_unchanged l k :
  total (aggregate l k).2 = total k ↔
  ∀ entry, entry ∈ l → ∃ e, ∀ k0, (process_entry entry k0).1 = Raise e.
Proof.
  revert k. induction l as [|entry l IH]; intros k.
  { split; [|done]. intros _ entry Hin. by apply elem_of_nil in Hin. }
  destruct (loop_body_cases entry)
    as [(ci & ai & c & _ & Hok & H)|(e & cs0 & Hcs0 & Hraise & H)];
    rewrite !(aggregate_cons _ _ _ _ (H k)).
  - destruct (aggregate_spec l
                (Kernel (total k + 1) (correct k + (if c then 1 else 0))
                   (predicted k ++ [ci]) (actual k ++ [ai])
                   (calls k ++ [open_json entry]) (stdout k)))
      as (k' & cs & Hrun & _ & _ & _ & Htot).
    rewrite Hrun. cbn [snd total] in Htot |- *.
    split; [lia|]. intros Hall.
    destruct (Hall entry) as [e He]; [left|].
    specialize (He k). by rewrite Hok in He.
  - pose proof (IH (Kernel (total k) (correct k) (predicted k) (actual k)
                      (calls k ++ cs0) (stdout k ++ [printed_error e]))) as IH'.
    cbn [total] in IH'. rewrite IH'. split.
    + intros Hall entry' [->|Hin]%elem_of_cons; eauto.
    + intros Hall entry' Hin. apply Hall. by right.
Qed.
End loop.
End BatchFacts.
Import BatchFacts.

(** ** The claims about notebook 3 *)

(** The comprehension on a well-formed file: one sublist of finite
    numbers, each rounded to three decimals. *)
Lemma flatten_round_floats (qs : list Q) :
  flatten_round (JList [JList (JFloat ∘ Fin <$> qs)]) = Ok (round3 <$> qs).
Proof.
  unfold flatten_round. cbn [iter rbind rmap].
  assert (rmap float_fmt3 (JFloat ∘ Fin <$> qs) = Ok (round3 <$> qs)) as ->.
  { induction qs as [|q qs IH]; [done|]. cbn. by rewrite IH. }
  cbn. by rewrite app_nil_r.
Qed.

Lemma aggregate_cell_eq (w : world) (class_name_list : list string) (k : kernel) :
  aggregate_cell w class_name_list k =
  aggregate w class_name_list (glob_outcome w "batch_predictions/*/*")
    (Kernel 0 0 [] [] (calls k ++ [glob_glob "batch_predictions/*/*"]) (stdout k)).
Proof. reflexivity. Qed.

(** What the [try] block records for a file on which it runs to its end:
    the predicted index is the first position of a greatest element of
    [results], the probabilities of the file after each has been rounded
    to three decimals (a NaN counting as the greatest); the actual index
    is the first position of the directory name in the class-name list;
    and the file counts as correct exactly when the predicted class name
    is that directory name. *)
Lemma recorded_indexes (w : world) (class_name_list : list string)
    (entry : string) (k : kernel) :
  (process_entry w class_name_list entry k).1 = Ok tt →
  ∃ actual_label predictions results class_index actual_index predicted_label,
    split "/"%char entry !! 1 = Some actual_label ∧
    (∃ jstr, load_outcome w entry = Ok jstr
             ∧ getitem jstr "predictions" = Ok predictions) ∧
    flatten_round predictions = Ok results ∧
    (∀ qs, predictions = JList [JList (JFloat ∘ Fin <$> qs)] →
           results = round3 <$> qs) ∧
    first_argmax results class_index ∧
    first_position class_name_list actual_label actual_index ∧
    class_name_list !! class_index = Some predicted_label ∧
    let k' := (process_entry w class_name_list entry k).2 in
    predicted k' = predicted k ++ [class_index] ∧
    actual k' = actual k ++ [actual_index] ∧
    total k' = total k + 1 ∧
    correct k'
      = correct k + (if decide (predicted_label = actual_label) then 1 else 0).
Proof.
  intros Hok.
  destruct (process_entry_cases w class_name_list entry)
    as [(ci & ai & c & Hv & H)|(e & cs & _ & H)];
    [|by rewrite H in Hok].
  destruct Hv as (actual_label & jstr & predictions & results & predicted_label
                  & E1 & E2 & E3 & E4 & E5 & E6 & E7 & ->).
  exists actual_label, predictions, results, ci, ai, predicted_label.
  split_and!; [done|by exists jstr|done| |by apply argmax_spec
              |by apply list_index_spec|done|].
  - intros qs ->. rewrite flatten_round_floats in E5. by injection E5 as <-.
  - rewrite H. cbn. split_and!; [done..|].
    unfold bool_decide. by destruct (decide_rel _ _ _).
Qed.

(** C3.  The notebook introduces the cell with "we take the highest
    probability class prediction for each image", and the cell does not:
    it rounds every probability to three decimals before [np.argmax].  A
    file in the directory of class 1 that lists 0.499755859375 for class 0
    and 0.500244140625 for class 1 has both rounded to 0.500; the index
    recorded is 0, which is not an argmax of the listed probabilities, and
    the file, a right prediction, is counted as wrong. *)
Lemma rounding_hides_the_larger_probability :
  let p0 := (2047 # 4096)%Q in
  let p1 := (2049 # 4096)%Q in
  let w := World (Ok tt) (Ok tt) (λ _, [])
             (λ _, Ok (JDict [("predictions",
                               JList [JList [JFloat (Fin p0); JFloat (Fin p1)]])])) in
  let class_name_list := ["013.Bobolink"; "017.Cardinal"] in
  let entry := "batch_predictions/017.Cardinal/Cardinal_0001.jpg.out" in
  let r := process_entry w class_name_list entry kernel0 in
  r.1 = Ok tt ∧ predicted r.2 = [0] ∧ actual r.2 = [1] ∧
  total r.2 = 1 ∧ correct r.2 = 0 ∧
  (p0 < p1)%Q ∧ round3 p0 = Thousandths 500 ∧ round3 p1 = Thousandths 500.
Proof.
  cbn zeta. split_and!; vm_compute; reflexivity.
Qed.

(** C4.  If the [try] block raises on one file, the loop still ends
    normally, the error is printed at that point, and [total], [correct],
    [predicted] and [actual] end as they do when the file is not among the
    entries. *)
Theorem failed_file_leaves_no_trace (w : world) (class_name_list : list string)
    (before after : list string) (entry : string) (k : kernel) (e : pyerr) :
  let k1 := (aggregate w class_name_list before k).2 in
  (process_entry w class_name_list entry k1).1 = Raise e →
  let with_file := aggregate w class_name_list (before ++ entry :: after) k in
  let without := aggregate w class_name_list (before ++ after) k in
  with_file.1 = Ok tt ∧
  total with_file.2 = total without.2 ∧
  correct with_file.2 = correct without.2 ∧
  predicted with_file.2 = predicted without.2 ∧
  actual with_file.2 = actual without.2 ∧
  ∃ out, stdout with_file.2 = stdout k1 ++ printed_error e :: out
         ∧ stdout without.2 = stdout k1 ++ out.
Proof.
  intros k1 Hraise with_file without.
  destruct (aggregate_spec w class_name_list before k)
    as (k1' & cs & Hrun & _).
  assert (k1 = k1') as <- by (unfold k1; by rewrite Hrun).
  subst with_file without.
  rewrite !(aggregate_app _ _ _ _ _ _ Hrun).
  destruct (loop_body_cases w class_name_list entry)
    as [(ci & ai & c & _ & Hok & _)|(e' & cs0 & _ & He' & H)].
  { by rewrite Hok in Hraise. }
  assert (e' = e) as -> by (rewrite He' in Hraise; congruence).
  rewrite (aggregate_cons _ _ _ _ _ _ (H k1)).
  set (k2 := Kernel _ _ _ _ _ _).
  destruct (aggregate_spec w class_name_list after k2) as (k3 & cs' & Hrun' & _).
  destruct (aggregate_same_tallies w class_name_list after k2 k1)
    as [(E1 & E2 & E3 & E4) (out & O1 & O2)]; [done|].
  split_and!; [by rewrite Hrun'|done..|].
  exists out. split; [|done].
  rewrite O1. subst k2. cbn [stdout]. by rewrite <- app_assoc.
Qed.

Lemma failed_file_leaves_no_trace_witness :
  let good := JDict [("predictions",
                      JList [JList [JFloat (Fin (1 # 10)); JFloat (Fin (9 # 10))]])] in
  let w := World (Ok tt) (Ok tt) (λ _, [])
             (λ p, if decide (p = "batch_predictions/017.Cardinal/broken.out")
                   then Raise ValueError else Ok good) in
  let class_name_list := ["013.Bobolink"; "017.Cardinal"] in
  let before := ["batch_predictions/013.Bobolink/a.out"] in
  let entry := "batch_predictions/017.Cardinal/broken.out" in
  let after := ["batch_predictions/017.Cardinal/b.out"] in
  let k1 := (aggregate w class_name_list before kernel0).2 in
  (process_entry w class_name_list entry k1).1 = Raise ValueError ∧
  let with_file := aggregate w class_name_list (before ++ entry :: after) kernel0 in
  let without := aggregate w class_name_list (before ++ after) kernel0 in
  with_file.1 = Ok tt ∧
  total with_file.2 = total without.2 ∧
  correct with_file.2 = correct without.2 ∧
  predicted with_file.2 = predicted without.2 ∧
  actual with_file.2 = actual without.2 ∧
  ∃ out, stdout with_file.2 = stdout k1 ++ printed_error ValueError :: out
         ∧ stdout without.2 = stdout k1 ++ out.
Proof.
  intros good w class_name_list before entry after k1.
  assert ((process_entry w class_name_list entry k1).1 = Raise ValueError)
    as Hraise by (vm_compute; reflexivity).
  split; [exact Hraise|].
  exact (failed_file_leaves_no_trace w class_name_list before after entry
           kernel0 ValueError Hraise).
Defined.

(** C7.  The loop always ends normally, and when it has ended [predicted]
    and [actual] have the same length, that length is [total], and
    [correct] is at most [total], whatever files raise. *)
Theorem tallies_stay_aligned (w : world) (class_name_list : list string)
    (k : kernel) :
  let r := aggregate_cell w class_name_list k in
  r.1 = Ok tt ∧
  length (predicted r.2) = length (actual r.2) ∧
  length (predicted r.2) = total r.2 ∧
  correct r.2 ≤ total r.2.
Proof.
  cbn zeta. rewrite aggregate_cell_eq.
  set (k0 := Kernel _ _ _ _ _ _).
  destruct (aggregate_spec w class_name_list
              (glob_outcome w "batch_predictions/*/*") k0)
    as (k' & cs & Hrun & Hal & _).
  rewrite Hrun. cbn [fst snd].
  destruct Hal as (A1 & A2 & A3); [|done].
  subst k0. unfold aligned. cbn. lia.
Qed.

(** C8.  If [total] is still 0 after the loop, then the [try] block raised
    on every entry the directory listing gave (there may be none), and the
    accuracy cell prints the totals and fails with ZeroDivisionError: it
    returns no accuracy and prints none. *)
Theorem accuracy_divides_by_zero (w : world) (class_name_list : list string)
    (k : kernel) :
  let k1 := (aggregate_cell w class_name_list k).2 in
  total k1 = 0 →
  (∀ entry, entry ∈ glob_outcome w "batch_predictions/*/*" →
            ∃ e, ∀ k0, (process_entry w class_name_list entry k0).1 = Raise e) ∧
  ∃ k2, accuracy_cell k1 = (Raise ZeroDivisionError, k2)
        ∧ stdout k2 = stdout k1 ++ [printed_totals 0 (correct k1)].
Proof.
  intros k1 Htotal. split.
  - revert Htotal. unfold k1. rewrite aggregate_cell_eq.
    set (k0 := Kernel _ _ _ _ _ _). intros Htotal.
    by apply (aggregate_total_unchanged w class_name_list _ k0).
  - unfold accuracy_cell, bind, get, print, modify, lift. rewrite Htotal.
    cbn. eexists. split; [reflexivity|done].
Qed.

Lemma accuracy_divides_by_zero_witness :
  let w := World (Ok tt) (Ok tt)
             (λ _, ["batch_predictions/017.Cardinal/broken.out"])
             (λ _, Raise ValueError) in
  let class_name_list := ["013.Bobolink"; "017.Cardinal"] in
  let k1 := (aggregate_cell w class_name_list kernel0).2 in
  total k1 = 0 ∧
  (∀ entry, entry ∈ glob_outcome w "batch_predictions/*/*" →
            ∃ e, ∀ k0, (process_entry w class_name_list entry k0).1 = Raise e) ∧
  ∃ k2, accuracy_cell k1 = (Raise ZeroDivisionError, k2)
        ∧ stdout k2 = stdout k1 ++ [printed_totals 0 (correct k1)].
Proof.
  intros w class_name_list k1.
  assert (total k1 = 0) as Htotal by (vm_compute; reflexivity).
  split; [exact Htotal|].
  exact (accuracy_divides_by_zero w class_name_list kernel0 Htotal).
Defined.

Lemma aggregate_cell_bind {A} (w : world) (class_name_list : list string)
    (f : unit → M kernel A) (k : kernel) :
  bind (aggregate_cell w class_name_list) f k =
  bind (aggregate w class_name_list (glob_outcome w "batch_predictions/*/*")) f
    (Kernel 0 0 [] [] (calls k ++ [glob_glob "batch_predictions/*/*"]) (stdout k)).
Proof. reflexivity. Qed.

(** The calls of a top-to-bottom run, by the outcome of the two SDK
    calls. *)
Lemma run_batch_calls (w : world) (class_name_list : list string) :
  let cs := calls (run_batch w class_name_list kernel0).2 in
  (transform_outcome w ≠ Ok tt ∧ cs = [transformer_transform]) ∨
  (transform_outcome w = Ok tt ∧ wait_outcome w ≠ Ok tt
   ∧ cs = [transformer_transform; transformer_wait]) ∨
  (transform_outcome w = Ok tt ∧ wait_outcome w = Ok tt
   ∧ ∃ rest, cs = transformer_transform :: transformer_wait :: rest
             ∧ Forall consumes_output rest).
Proof.
  cbn zeta. unfold run_batch.
  destruct (transform_outcome w) as [[]|e1] eqn:Et.
  2:{ left. split; [done|]. unfold transform_cell.
      rewrite (bind_raise _ _ _ e1
                 (Kernel 0 0 [] [] [transformer_transform] [])); [done|].
      cbn. by rewrite Et. }
  destruct (wait_outcome w) as [[]|e2] eqn:Ew.
  2:{ right; left. split_and!; [done|done|]. unfold transform_cell.
      rewrite (bind_raise _ _ _ e2
                 (Kernel 0 0 [] [] [transformer_transform; transformer_wait] []));
        [done|].
      cbn. by rewrite Et, Ew. }
  right; right. split_and!; [done..|].
  rewrite (bind_run _ _ _ tt
             (Kernel 0 0 [] [] [transformer_transform; transformer_wait] []))
    by (unfold transform_cell; cbn; by rewrite Et, Ew).
  rewrite (bind_run _ _ _ tt
             (Kernel 0 0 [] []
                [transformer_transform; transformer_wait; aws_s3_cp] []))
    by done.
  destruct (getitem_list (glob_outcome w "./batch_predictions/*/*") 0)
    as [sample_file|e3] eqn:Eg.
  2:{ rewrite (bind_raise _ _ _ e3
                 (Kernel 0 0 [] []
                    [transformer_transform; transformer_wait; aws_s3_cp;
                     glob_glob "./batch_predictions/*/*"]
                    [printed_found
                       (length (glob_outcome w "./batch_predictions/*/*"))]))
        by (unfold sample_file_cell; cbn -[getitem_list]; by rewrite Eg).
      eexists. split; [reflexivity|]. by repeat constructor. }
  rewrite (bind_run _ _ _ tt
             (Kernel 0 0 [] []
                [transformer_transform; transformer_wait; aws_s3_cp;
                 glob_glob "./batch_predictions/*/*"; cat sample_file]
                [printed_found
                   (length (glob_outcome w "./batch_predictions/*/*"))]))
    by (unfold sample_file_cell; cbn -[getitem_list]; by rewrite Eg).
  rewrite aggregate_cell_bind.
  set (k0 := Kernel _ _ _ _ _ _).
  destruct (aggregate_spec w class_name_list
              (glob_outcome w "batch_predictions/*/*") k0)
    as (k' & cs & Hrun & _ & Hcalls & Hcs & _).
  rewrite (bind_run _ _ _ _ _ Hrun).
  exists ([aws_s3_cp; glob_glob "./batch_predictions/*/*"; cat sample_file;
           glob_glob "batch_predictions/*/*"] ++ cs).
  split; [|apply Forall_app; split; [by repeat constructor|done]].
  unfold accuracy_cell, bind, get, print, modify, lift, ret.
  destruct (int_truediv (correct k') (total k')); cbn; by rewrite Hcalls.
Qed.

(** C6.  In a top-to-bottom run of the batch cells
    [transformer.transform] is called exactly once, and every call that
    fetches or reads prediction output comes after [transformer.transform]
    and [transformer.wait] have both returned normally. *)
Theorem outputs_are_read_after_the_job (w : world) (class_name_list : list string) :
  let cs := calls (run_batch w class_name_list kernel0).2 in
  length (filter (λ c, c = transformer_transform) cs) = 1 ∧
  ∀ i c, cs !! i = Some c → consumes_output c →
    transform_outcome w = Ok tt ∧ wait_outcome w = Ok tt ∧
    cs !! 0 = Some transformer_transform ∧
    cs !! 1 = Some transformer_wait ∧
    2 ≤ i.
Proof.
  intros cs.
  destruct (run_batch_calls w class_name_list)
    as [(_ & Hcs)|[(_ & _ & Hcs)|(Ht & Hw & rest & Hcs & Hrest)]];
    fold cs in Hcs; rewrite Hcs.
  - split; [done|]. intros [|[|i]] c [= <-]; done.
  - split; [done|]. intros [|[|[|i]]] c [= <-]; done.
  - split.
    + rewrite filter_cons_True by done. rewrite filter_cons_False by done.
      rewrite (filter_none _ rest); [done|].
      intros c Hc ->. rewrite Forall_forall in Hrest. by apply (Hrest _ Hc).
    + intros [|[|i]] c Hi Hc; simplify_eq/=; [done|done|].
      split_and!; [done..|lia].
Qed.

(** * Further properties *)

(** ** [split_to_train_val_test] on every input *)

Module SplitMore.

Section drop.
Context {R : Type}.
Implicit Types s df : frame R.

(** Whatever the index labels are, the rows sampled and the rows left
    by the drop are rows of the frame, none of them twice. *)
Lemma drop_rest s df d :
  s ⊆+ df → drop (index s) df = Ok d → s ++ d ⊆+ df.
Proof.
  intros Hs. unfold drop. case_bool_decide; [|discriminate].
  intros [= <-].
  destruct (submseteq_Permutation _ _ Hs) as [k Hk].
  rewrite Hk at 1. rewrite filter_app.
  rewrite (filter_none _ s) by
    (intros r Hr Hn; apply Hn, list_elem_of_fmap; eauto).
  cbn [app]. rewrite Hk. apply submseteq_app; [done|].
  apply sublist_submseteq, sublist_filter.
Qed.
End drop.

Section loop.
Context {R : Type} (col : R → cell) (s0 s1 s2 : Q) (df : frame R).

Lemma split_label_sub lbl tr va te g acc' g' :
  split_label col (s0, s1, s2) df lbl (tr, va, te) g = (Ok acc', g') →
  ∃ a b c, acc' = (tr ++ a, va ++ b, te ++ c)
           ∧ a ++ b ++ c ⊆+ select col lbl df.
Proof.
  unfold split_label. intros H.
  apply bind_Ok in H as (a & g1 & Ha & H).
  apply bind_Ok in H as (vt & g2 & Hvt & H).
  apply bind_Ok in H as (frac & g3 & Hfrac & H).
  apply bind_Ok in H as (c & g4 & Hc & H).
  apply bind_Ok in H as (b & g5 & Hb & H).
  injection H as <- <-.
  apply sample_Ok in Ha as [Hasub _].
  apply lift_Ok in Hvt as [Hvt _].
  apply sample_Ok in Hc as [Hcsub _].
  apply lift_Ok in Hb as [Hb _].
  pose proof (drop_rest _ _ _ Hasub Hvt) as H1.
  pose proof (drop_rest _ _ _ Hcsub Hb) as H2.
  exists a, b, c. split; [done|].
  etrans; [|exact H1]. apply submseteq_app; [done|].
  by rewrite (Permutation_app_comm b c).
Qed.

Lemma split_labels_sub ls tr va te g acc' g' :
  split_labels col (s0, s1, s2) df ls (tr, va, te) g = (Ok acc', g') →
  ∃ x y z, acc' = (tr ++ x, va ++ y, te ++ z)
           ∧ x ++ y ++ z ⊆+ ls ≫= (λ l, select col l df).
Proof.
  revert tr va te g. induction ls as [|l ls IH]; intros tr va te g H.
  - injection H as <- <-. exists [], [], []. by rewrite !app_nil_r.
  - cbn [split_labels] in H.
    apply bind_Ok in H as (acc1 & g1 & H1 & H).
    apply split_label_sub in H1 as (a & b & c & -> & Habc).
    apply IH in H as (x & y & z & -> & Hxyz).
    exists (a ++ x), (b ++ y), (c ++ z). rewrite !app_assoc.
    split; [done|]. rewrite bind_cons, <- !app_assoc.
    rewrite (app_assoc a x), (app_assoc b y).
    rewrite perm_interleave. by apply submseteq_app.
Qed.

Lemma split_sub g tr va te g' :
  split_to_train_val_test df col (s0, s1, s2) g = (Ok (tr, va, te), g') →
  tr ++ va ++ te ⊆+ filter (λ r, is_Some (col (dat r))) df.
Proof.
  unfold split_to_train_val_test. intros H.
  apply bind_Ok in H as (acc & g1 & Hacc & H).
  apply split_labels_sub in Hacc as (x & y & z & -> & Hxyz).
  cbn [app] in H.
  destruct (sample_all_spec x g1) as (tr1 & g2 & E1 & P1).
  rewrite (bind_run _ _ _ _ _ E1) in H.
  destruct (sample_all_spec y g2) as (va1 & g3 & E2 & P2).
  rewrite (bind_run _ _ _ _ _ E2) in H.
  destruct (sample_all_spec z g3) as (te1 & g4 & E3 & P3).
  rewrite (bind_run _ _ _ _ _ E3) in H.
  injection H as <- <- <- <-. rewrite P1, P2, P3.
  etrans; [exact Hxyz|]. apply Permutation_submseteq.
  apply group_by; [apply NoDup_unique|].
  intros r Hr. apply elem_of_unique, list_elem_of_fmap. by exists r.
Qed.

(** When the fractions for val and test add up to zero, the quotient
    of the first turn of the loop raises. *)
Lemma split_labels_zero_division l ls acc g :
  (0 <= s0)%Q → (s0 <= 99 # 100)%Q → fadd s1 s2 == 0 →
  ∃ g', split_labels col (s0, s1, s2) df (l :: ls) acc g
        = (Raise ZeroDivisionError, g').
Proof.
  intros H0 H1 Hz. destruct acc as [[tr va] te].
  cbn [split_labels]. unfold split_label.
  set (lbl_df := select col l df).
  destruct (sample_total s0 lbl_df g H0 H1) as (a & g1 & Ha).
  exists g1.
  erewrite bind_raise; [done|].
  rewrite (bind_run _ _ _ _ _ Ha).
  apply sample_Ok in Ha as [Hasub _].
  destruct (drop_total _ _ Hasub) as (vt & Hvt & _).
  rewrite Hvt. unfold bind at 1, lift at 1.
  unfold truediv. apply Qeq_bool_iff in Hz. by rewrite Hz.
Qed.
End loop.

Local Open Scope Q_scope.

(** A fraction of at least 0.6 takes at least one row of a group that
    has one. *)
Lemma sample_size_positive f (n : nat) :
  6 # 10 <= f → f <= 99 # 100 → (0 < n)%nat → (1 <= sample_size f n)%Z.
Proof.
  intros Hf0 Hf1 Hn. unfold sample_size, fmul, float_of_nat.
  set (N := inject_Z (Z.of_nat n)).
  assert (1 <= N) as HN.
  { subst N. change 1 with (inject_Z 1). rewrite <- Zle_Qle. lia. }
  assert (0 <= N) as HN0 by (clearbody N; lra).
  destruct (rnd_bounds N HN0) as (Hy0 & Hy2 & Hy1).
  set (y := rnd N) in *.
  assert (0 <= f * y) as Hfy by (apply Qmult_le_0_compat; [lra|done]).
  destruct (rnd_bounds (f * y) Hfy) as (Hz0 & Hz2 & Hz1).
  set (z := rnd (f * y)) in *.
  pose proof (py_round_lower z) as Hr.
  destruct ulp_half_bounds as [Hc0 Hc].
  set (c := ulp_half) in *.
  assert (N * c <= N * (1 # 4000000000000000)) as B1
    by (rewrite !(Qmult_comm N); apply Qmult_le_compat_r; [lra|done]).
  assert ((6 # 10) * y <= f * y) as B2
    by (apply Qmult_le_compat_r; [lra|done]).
  assert (f * y <= (99 # 100) * y) as B3
    by (apply Qmult_le_compat_r; [lra|done]).
  assert (f * y * c <= f * y * (1 # 4000000000000000)) as B4
    by (rewrite !(Qmult_comm (f * y)); apply Qmult_le_compat_r; [lra|done]).
  assert (0 < inject_Z (py_round z)) as Hfin
    by (clearbody c y z N; lra).
  revert Hfin. change 0 with (inject_Z 0). rewrite <- Zlt_Qlt. lia.
Qed.

End SplitMore.
Import SplitMore.

(** X1.  Whatever the dataframe, the label column, the split ratios and
    the random draws are: when [split_to_train_val_test] returns, the rows
    of its three outputs taken together are rows of the input that carry a
    label, and none of them is returned more often than the input holds
    it.  Rows can be lost, never invented or repeated. *)
Theorem split_returns_rows_of_the_input {R} (df : frame R)
    (label_column : R → cell) (splits : Q * Q * Q) (g : rng)
    (tr va te : frame R) (g' : rng) :
  split_to_train_val_test df label_column splits g = (Ok (tr, va, te), g') →
  tr ++ va ++ te ⊆+ filter (λ r, is_Some (label_column (dat r))) df.
Proof. destruct splits as [[s0 s1] s2]. apply split_sub. Qed.

Lemma split_returns_rows_of_the_input_witness :
  let df : frame (nat * cell) := (λ i, IRow 0 (i, Some "a")) <$> seq 0 10 in
  ∃ tr, split_to_train_val_test df snd SPLIT_RATIOS [] = (Ok (tr, [], []), []) ∧
    tr ++ [] ++ [] ⊆+ filter (λ r, is_Some (snd (dat r))) df.
Proof.
  intros df. eexists. split; [vm_compute; reflexivity|].
  apply (split_returns_rows_of_the_input df snd SPLIT_RATIOS [] _ [] [] []).
  vm_compute. reflexivity.
Defined.

(** X2.  With the split ratios of the notebook, (0.7, 0.2, 0.1),
    [split_to_train_val_test] returns for every dataframe and every state
    of the random generator: neither [sample] nor [drop] nor the division
    raises, also on an empty dataframe, on missing labels and on repeated
    row indices. *)
Theorem split_never_raises {R} (df : frame R) (label_column : R → cell)
    (g : rng) :
  ∃ tr va te g',
    split_to_train_val_test df label_column SPLIT_RATIOS g
      = (Ok (tr, va, te), g').
Proof.
  destruct split_ratios_facts
    as (frac & third & Hfrac & _ & H0 & H1 & Hf1 & Hf2 & _).
  apply (split_total label_column _ _ _ df frac g); [done|done|done|lra|lra].
Qed.

(** X3.  With the split ratios of the notebook and row indices that are
    distinct within each label, every label that occurs in the input
    occurs in the train output: no class is left without a training
    row. *)
Theorem every_label_reaches_train {R} (df : frame R) (label_column : R → cell)
    (g : rng) (tr va te : frame R) (g' : rng) (k : string) :
  (∀ l, NoDup (index (select label_column l df))) →
  split_to_train_val_test df label_column SPLIT_RATIOS g
    = (Ok (tr, va, te), g') →
  Some k ∈ (label_column ∘ dat <$> df) →
  ∃ r, r ∈ tr ∧ label_column (dat r) = Some k.
Proof.
  intros Hnd Hrun Hk.
  assert (0 < length (select label_column (Some k) df)) as Hpos.
  { apply list_elem_of_fmap in Hk as (r & Hr & Hin). cbn in Hr.
    assert (r ∈ select label_column (Some k) df) as Hsel
      by (apply elem_of_select; rewrite <- Hr;
          split; [split; [by eexists|done]|done]).
    destruct (select label_column (Some k) df);
      [by apply elem_of_nil in Hsel|cbn; lia]. }
  destruct (split_per_label _ _ _ _ _ _ _ _ _ _ k Hnd Hrun Hk)
    as (_ & Hlen & _). cbn [fst snd] in Hlen.
  destruct split_ratios_facts as (_ & _ & _ & _ & H0 & H1 & _).
  assert (6 # 10 <= float_lit (7 # 10))%Q as H6 by (vm_compute; discriminate).
  pose proof (sample_size_positive _ _ H6 H1 Hpos) as Hs.
  set (z := sample_size _ _) in *. clearbody z. clear H0 H1 H6 Hpos.
  destruct (select label_column (Some k) tr) as [|r rest] eqn:E.
  { cbn in Hlen. exfalso. lia. }
  exists r.
  assert (r ∈ select label_column (Some k) tr) as Hr by (rewrite E; left).
  apply elem_of_select in Hr as [[_ Hc] Hin]. exact (conj Hin Hc).
Qed.

Lemma every_label_reaches_train_witness :
  let df : frame cell :=
    [IRow 0 (Some "a"); IRow 1 (Some "b"); IRow 2 (Some "a"); IRow 3 (Some "a")] in
  let tr := [IRow 3 (Some "a"); IRow 0 (Some "a"); IRow 1 (Some "b")] in
  let va := [IRow 2 (Some "a")] in
  (∀ l, NoDup (index (select id l df))) ∧
  split_to_train_val_test df id SPLIT_RATIOS [2; 0; 1] = (Ok (tr, va, []), []) ∧
  Some "b" ∈ (id ∘ dat <$> df) ∧
  ∃ r, r ∈ tr ∧ id (dat r) = Some "b".
Proof.
  intros df tr va.
  assert (∀ l, NoDup (index (select id l df))) as Hnd.
  { intros l. apply index_select_NoDup.
    apply (bool_decide_unpack _). vm_compute. exact I. }
  assert (split_to_train_val_test df id SPLIT_RATIOS [2; 0; 1]
          = (Ok (tr, va, []), [])) as Hrun by (vm_compute; reflexivity).
  assert (Some "b" ∈ (id ∘ dat <$> df)) as Hk
    by (apply (bool_decide_unpack _); vm_compute; exact I).
  split; [exact Hnd|]. split; [exact Hrun|]. split; [exact Hk|].
  exact (every_label_reaches_train df id [2; 0; 1] tr va [] [] "b" Hnd Hrun Hk).
Defined.

(** X4.  A split that leaves nothing for val and test, such as
    (0.9, 0, 0), does not give an empty val and test: on every dataframe
    with at least one row the function raises ZeroDivisionError, from
    [splits[2] / (splits[1] + splits[2])] in the first turn of its loop. *)
Theorem split_divides_by_zero {R} (df : frame R) (label_column : R → cell)
    (s0 s1 s2 : Q) (g : rng) :
  (0 <= s0)%Q → (s0 <= 99 # 100)%Q → fadd s1 s2 == 0 → df ≠ [] →
  ∃ g', split_to_train_val_test df label_column (s0, s1, s2) g
        = (Raise ZeroDivisionError, g').
Proof.
  intros H0 H1 Hz Hdf. unfold split_to_train_val_test.
  destruct df as [|r df]; [done|]. cbn [fmap list_fmap unique].
  destruct (split_labels_zero_division label_column s0 s1 s2 (r :: df)
              ((label_column ∘ dat) r)
              (filter (λ y, y ≠ (label_column ∘ dat) r)
                 (unique (label_column ∘ dat <$> df)))
              ([], [], []) g H0 H1 Hz) as [g' E].
  exists g'. by rewrite (bind_raise _ _ _ _ _ E).
Qed.

Lemma split_divides_by_zero_witness :
  let df : frame cell := [IRow 0 (Some "a")] in
  (0 <= float_lit (9 # 10))%Q ∧ (float_lit (9 # 10) <= 99 # 100)%Q ∧
  fadd 0 0 == 0 ∧ df ≠ [] ∧
  ∃ g', split_to_train_val_test df id (float_lit (9 # 10), 0%Q, 0%Q) []
        = (Raise ZeroDivisionError, g').
Proof.
  intros df.
  assert (0 <= float_lit (9 # 10))%Q as H0 by (vm_compute; discriminate).
  assert (float_lit (9 # 10) <= 99 # 100)%Q as H1 by (vm_compute; discriminate).
  assert (fadd 0 0 == 0) as Hz by (vm_compute; reflexivity).
  assert (df ≠ []) as Hdf by discriminate.
  split; [exact H0|]. split; [exact H1|]. split; [exact Hz|]. split; [exact Hdf|].
  exact (split_divides_by_zero df id (float_lit (9 # 10)) 0 0 [] H0 H1 Hz Hdf).
Defined.

(** ** [get_train_val_dataframes] and [get_class_name] *)

Module BirdsMore.

Section converse.
Context {R : Type}.
Implicit Types df : frame R.

Lemma elem_of_reset_index_2 df r' :
  r' ∈ df → ∃ r, r ∈ reset_index df ∧ dat r = dat r'.
Proof.
  intros [i Hi]%list_elem_of_lookup.
  exists (IRow (Z.of_nat i) (dat r')). split; [|done].
  unfold reset_index. apply list_elem_of_lookup. exists i.
  by rewrite list_lookup_imap, Hi.
Qed.

Lemma elem_of_with_columns_2 {R'} (f : R → R') df r' :
  r' ∈ df → ∃ r, r ∈ with_columns f df ∧ dat r = f (dat r').
Proof.
  intros Hr. exists (IRow (ix r') (f (dat r'))). split; [|done].
  unfold with_columns. apply list_elem_of_fmap. by exists r'.
Qed.

Lemma elem_of_read_csv (lines : list R) x :
  x ∈ lines ↔ ∃ r, r ∈ read_csv lines ∧ dat r = x.
Proof.
  unfold read_csv. split.
  - intros [i Hi]%list_elem_of_lookup.
    exists (IRow (Z.of_nat i) x). split; [|done].
    apply list_elem_of_lookup. exists i. by rewrite list_lookup_imap, Hi.
  - intros (r & (i & x' & -> & Hx')%elem_of_lookup_imap_1 & <-).
    by eapply list_elem_of_lookup_2.
Qed.
End converse.

Lemma elem_of_merge_2 {L R' K O} `{EqDecision K}
    (lkey : L → K) (rkey : R' → K) (pair : L → R' → O)
    (left : frame L) (right : frame R') l r' :
  l ∈ left → r' ∈ right → rkey (dat r') = lkey (dat l) →
  ∃ r, r ∈ merge lkey rkey pair left right ∧ dat r = pair (dat l) (dat r').
Proof.
  intros Hl Hr Hk. unfold merge.
  apply (elem_of_reset_index_2 _ (IRow 0 (pair (dat l) (dat r')))).
  apply list_elem_of_bind. exists l. split; [|done].
  apply list_elem_of_bind. exists r'. split; [by left|].
  by apply list_elem_of_filter.
Qed.

(** No call of [split] returns an empty list. *)
Lemma split_not_nil sep s : split sep s ≠ [].
Proof.
  destruct s as [|c s]; [done|]. cbn [split].
  destruct (decide (c = sep)); [done|]. by destruct (split sep s).
Qed.

Lemma get_class_name_cons c fn :
  c ≠ "/"%char → get_class_name (String c fn) = String c (get_class_name fn).
Proof.
  intros Hc. unfold get_class_name. cbn [split].
  rewrite decide_False by done.
  pose proof (split_not_nil "/"%char fn).
  by destruct (split "/"%char fn).
Qed.

Section table.
Variable images : list (Z * string).
Variable image_class_labels : list (Z * Z).

(** The rows of the merged table are the pairs of a line of
    [images.txt] and a line of [image_class_labels.txt] with the same
    image id, the excluded files and the classes outside [CLASSES]
    left out. *)
Lemma merged_df_rows id fn c :
  (∃ m, m ∈ merged_df images image_class_labels ∧ dat m = (id, fn, c)) ↔
  (id, fn) ∈ images ∧ (id, c) ∈ image_class_labels ∧
  (fn ∉ EXCLUDE_IMAGE_LIST) ∧ c ∈ CLASSES.
Proof.
  unfold merged_df. change SAMPLE_ONLY with true. cbv iota. split.
  - intros (m & [Hc Hm]%list_elem_of_filter & E).
    apply elem_of_merge in Hm as (l & r' & Hl & Hr' & Hkey & Hdat).
    apply elem_of_reset_index in Hl as (l' & Hl' & El).
    apply list_elem_of_filter in Hl' as [Hex Hl'].
    rewrite E in Hc. rewrite Hdat, El in E.
    destruct (dat l') as [id' fn'] eqn:E1, (dat r') as [id2 c'] eqn:E2.
    cbn [fst snd] in Hkey, E, Hex, Hc. simplify_eq.
    split_and!; [| |done|done].
    + apply elem_of_read_csv. eauto.
    + apply elem_of_read_csv. exists r'. by rewrite E2, El.
  - intros (Hi & Hl & Hex & Hc).
    apply elem_of_read_csv in Hi as (l & Hl1 & El).
    apply elem_of_read_csv in Hl as (r' & Hr1 & Er).
    assert (l ∈ filter (λ r, (dat r).2 ∉ EXCLUDE_IMAGE_LIST) (read_csv images))
      as Hl2 by (apply list_elem_of_filter; by rewrite El).
    apply elem_of_reset_index_2 in Hl2 as (l2 & Hl2 & El2).
    destruct (elem_of_merge_2 fst fst (λ l r, (l.1, l.2, r.2)) _ _ l2 r'
                Hl2 Hr1) as (m & Hm & Em); [by rewrite El2, El, Er|].
    exists m. rewrite Em, El2, El, Er. split; [|done].
    apply list_elem_of_filter. by rewrite Em, El2, El, Er.
Qed.

Lemma full_df_rows_2 m :
  m ∈ merged_df images image_class_labels →
  ∃ r, r ∈ full_df images image_class_labels ∧
    image_file_name (dat r) = (dat m).1.2 ∧ orig_class_id (dat r) = (dat m).2.
Proof.
  intros Hm. unfold full_df.
  apply (elem_of_with_columns_2
           (λ r, (r, id_to_one_based images image_class_labels !! r.2)))
    in Hm as (r1 & Hr1 & E1).
  apply elem_of_reset_index_2 in Hr1 as (r2 & Hr2 & E2).
  apply (elem_of_with_columns_2 (λ r, (r, get_class_name r.1.1.2)))
    in Hr2 as (r3 & Hr3 & E3).
  apply (elem_of_with_columns_2 (λ r, Bird r.1.1.1.2 r.1.1.2 r.1.2 r.2))
    in Hr3 as (r4 & Hr4 & E4).
  exists r4. split; [exact Hr4|]. by rewrite E4, E3, E2, E1.
Qed.

(** Every row of [full_df] carries a class id, so the splitter loses
    none. *)
Lemma get_train_val_dataframes_cover g tr va te g' :
  get_train_val_dataframes images image_class_labels g
    = (Ok (tr, va, te), g') →
  tr ++ va ++ te ≡ₚ full_df images image_class_labels.
Proof.
  unfold get_train_val_dataframes, SPLIT_RATIOS. intros Hrun.
  rewrite (split_cover _ _ _ _ _ _ _ _ _ _
             (λ l, index_select_NoDup _ _ l (full_df_index _ _)) Hrun).
  apply reflexive_eq, filter_all. intros r Hr.
  destruct (full_df_class_id _ _ r Hr) as (j & _ & _ & ->). by eexists.
Qed.
End table.

End BirdsMore.
Import BirdsMore.



(** X6.  [get_class_name] returns the part of the file name before its
    first '/': the result holds no '/', and the file name is the result
    itself or the result followed by '/' and the rest. *)
Theorem get_class_name_is_the_directory (fn : string) :
  free_of "/" (get_class_name fn) ∧
  (fn = get_class_name fn ∨
   ∃ rest, fn = get_class_name fn +:+ String "/" rest).
Proof.
  unfold free_of. induction fn as [|c fn [IH1 IH2]].
  - split; [apply not_elem_of_nil|by left].
  - destruct (decide (c = "/"%char)) as [->|Hc].
    + split; [apply not_elem_of_nil|]. right. by exists fn.
    + rewrite get_class_name_cons by done. split.
      * cbn [list_ascii_of_string]. apply not_elem_of_cons. by split.
      * destruct IH2 as [IH2|[rest IH2]].
        -- left. by rewrite <- IH2.
        -- right. exists rest. by rewrite IH2 at 1.
Qed.

(** ** The tallying loop of notebook 3 and the class names *)

Module BatchMore.

Lemma list_index_Ok_elem {A} `{EqDecision A} (l : list A) x i :
  list_index l x = Ok i → x ∈ l.
Proof.
  intros [Hi _]%list_index_spec. by eapply list_elem_of_lookup_2.
Qed.

Lemma list_index_Raise_elem {A} `{EqDecision A} (l : list A) x e :
  list_index l x = Raise e → x ∉ l.
Proof.
  induction l as [|y l IH]; [intros _; apply not_elem_of_nil|].
  cbn [list_index]. destruct (decide (y = x)) as [->|Hne]; [done|].
  destruct (list_index l x) as [i|e'] eqn:E; [done|].
  cbn. intros [= ->]. apply not_elem_of_cons. split; [done|]. by apply IH.
Qed.

Lemma agreements_snoc p a ci ai :
  length p = length a →
  agreements (p ++ [ci]) (a ++ [ai])
  = agreements p a + (if decide (ci = ai) then 1 else 0).
Proof.
  intros Hlen. unfold agreements.
  rewrite zip_with_app by done. rewrite filter_app, length_app.
  f_equal. change (zip [ci] [ai]) with [(ci, ai)].
  rewrite filter_cons, filter_nil. cbn [fst snd].
  by destruct (decide (ci = ai)).
Qed.

Section loop.
Variable w : world.
Variable class_name_list : list string.

(** The [try] block opens the file of an entry exactly when the
    directory of the entry is a known class name. *)
Lemma process_entry_calls entry k :
  calls (process_entry w class_name_list entry k).2
  = calls k ++ (if decide (in_known_directory class_name_list entry)
                then [open_json entry] else []).
Proof.
  unfold process_entry, getitem_list.
  destruct k as [t c p a cs out].
  destruct (decide (in_known_directory class_name_list entry)) as [Hk|Hk];
    unfold in_known_directory in Hk;
    destruct (split "/"%char entry !! 1) as [actual_label|] eqn:E1;
    [|done| |cbn; by rewrite app_nil_r].
  2:{ destruct (list_index class_name_list actual_label) as [ai|e] eqn:E2;
        [exfalso; apply Hk; by eapply list_index_Ok_elem|].
      run_try. by rewrite app_nil_r. }
  destruct (list_index class_name_list actual_label) as [ai|e] eqn:E2;
    [|exfalso; by eapply list_index_Raise_elem].
  destruct (load_outcome w entry) as [jstr|e] eqn:E3; [|by run_try].
  destruct (getitem jstr "predictions") as [predictions|e] eqn:E4;
    [|by run_try].
  destruct (flatten_round predictions) as [results|e] eqn:E5; [|by run_try].
  destruct (argmax results) as [ci|e] eqn:E6; [|by run_try].
  destruct (class_name_list !! ci) as [predicted_label|] eqn:E7;
    [|by run_try].
  run_try. by destruct (bool_decide (predicted_label = actual_label)).
Qed.

Lemma loop_body_calls entry k :
  calls (loop_body w class_name_list entry k).2
  = calls k ++ (if decide (in_known_directory class_name_list entry)
                then [open_json entry] else []).
Proof.
  pose proof (process_entry_calls entry k) as H.
  unfold loop_body, try_except.
  by destruct (process_entry w class_name_list entry k) as [[[]|e] k1].
Qed.

Lemma aggregate_calls entries k :
  calls (aggregate w class_name_list entries k).2
  = calls k ++ (open_json <$>
                  filter (in_known_directory class_name_list) entries).
Proof.
  revert k. induction entries as [|entry entries IH]; intros k.
  { cbn. by rewrite app_nil_r. }
  destruct (loop_body_Ok w class_name_list entry k) as [k1 Hk1].
  rewrite (aggregate_cons _ _ _ _ _ _ Hk1), IH.
  pose proof (loop_body_calls entry k) as Hc. rewrite Hk1 in Hc.
  cbn [snd] in Hc. rewrite Hc, filter_cons.
  destruct (decide (in_known_directory class_name_list entry));
    [by rewrite <- app_assoc|by rewrite app_nil_r].
Qed.

(** [correct] against the positions at which the two lists agree. *)
Lemma aggregate_agreements entries k :
  length (predicted k) = length (actual k) →
  let k' := (aggregate w class_name_list entries k).2 in
  length (predicted k') = length (actual k') ∧
  (agreements (predicted k) (actual k) ≤ correct k →
   agreements (predicted k') (actual k') ≤ correct k') ∧
  (NoDup class_name_list →
   agreements (predicted k) (actual k) = correct k →
   agreements (predicted k') (actual k') = correct k').
Proof.
  revert k. induction entries as [|entry entries IH]; intros k Hlen; [done|].
  cbn zeta.
  destruct (loop_body_cases w class_name_list entry)
    as [(ci & ai & c & Hv & _ & H)|(e & cs0 & _ & _ & H)];
    rewrite !(aggregate_cons _ _ _ _ _ _ (H k)).
  - destruct Hv as (al & jstr & ps & rs & pl & _ & Hai & _ & _ & _ & _
                    & Hci & ->).
    apply list_index_spec in Hai as [Hai _].
    match goal with |- context [aggregate _ _ _ ?k1] =>
      destruct (IH k1) as (I1 & I2 & I3) end.
    { cbn. rewrite !length_app. cbn. lia. }
    cbn [predicted actual correct] in I2, I3.
    rewrite agreements_snoc in I2, I3 by done.
    split; [exact I1|]. split.
    + intros Hle. apply I2.
      destruct (decide (ci = ai)) as [->|Hne]; [|lia].
      assert (pl = al) as -> by congruence.
      rewrite bool_decide_eq_true_2 by done. lia.
    + intros Hnd Heq. apply I3; [done|].
      destruct (decide (ci = ai)) as [->|Hne].
      * assert (pl = al) as -> by congruence.
        rewrite bool_decide_eq_true_2 by done. lia.
      * rewrite bool_decide_eq_false_2; [lia|].
        intros ->. apply Hne. by eapply NoDup_lookup.
  - match goal with |- context [aggregate _ _ _ ?k1] =>
      destruct (IH k1) as (I1 & I2 & I3) end; [done|].
    by split_and!.
Qed.
End loop.

(** The order of Python on strings is a total preorder. *)
Lemma str_le_lt_eq a b :
  str_le a b ↔ OrderedTypeEx.String_as_OT.lt a b ∨ a = b.
Proof.
  unfold str_le, String.leb.
  destruct (String.compare a b) eqn:E.
  - apply OrderedTypeEx.String_as_OT.cmp_eq in E. tauto.
  - apply OrderedTypeEx.String_as_OT.cmp_lt in E. tauto.
  - split; [done|]. intros [H| ->].
    + apply OrderedTypeEx.String_as_OT.cmp_lt in H.
      unfold OrderedTypeEx.String_as_OT.cmp in H. congruence.
    + assert (String.compare b b = Eq) as H
        by (by apply OrderedTypeEx.String_as_OT.cmp_eq).
      congruence.
Qed.

Global Instance str_le_trans : Transitive str_le.
Proof.
  intros a b c. rewrite !str_le_lt_eq.
  intros [H1| ->] [H2| ->]; eauto.
  left. eapply OrderedTypeEx.String_as_OT.lt_trans; eauto.
Qed.

Global Instance str_le_total : Total str_le.
Proof. intros a b. apply String.leb_total. Qed.

End BatchMore.
Import BatchMore.

(** X7.  The loop opens exactly the prediction files that lie in the
    directory of a known class, in the order of the listing: a path whose
    second component is not in [class_name_list], or that has no second
    component, is never opened, and nothing else is called. *)
Theorem loop_opens_the_known_directories (w : world)
    (class_name_list entries : list string) (k : kernel) :
  calls (aggregate w class_name_list entries k).2
  = calls k ++ (open_json <$>
                  filter (in_known_directory class_name_list) entries).
Proof. apply aggregate_calls. Qed.

(** X8.  After the aggregation cell the lists [predicted] and [actual]
    have the same length, [correct] is at least the number of positions at
    which they hold the same index, and it is that number when the class
    names are pairwise distinct. *)
Theorem correct_counts_the_agreements (w : world)
    (class_name_list : list string) (k : kernel) :
  let k' := (aggregate_cell w class_name_list k).2 in
  length (predicted k') = length (actual k') ∧
  agreements (predicted k') (actual k') ≤ correct k' ∧
  (NoDup class_name_list →
   correct k' = agreements (predicted k') (actual k')).
Proof.
  cbn zeta. rewrite aggregate_cell_eq.
  match goal with |- context [aggregate _ _ _ ?k1] =>
    destruct (aggregate_agreements w class_name_list
                (glob_outcome w "batch_predictions/*/*") k1) as (I1 & I2 & I3)
  end; [done|].
  split; [exact I1|]. split; [by apply I2|].
  intros Hnd. symmetry. by apply I3.
Qed.



(** The literals that pandas reads as a missing value or as a boolean
    are made of the characters of [literal_chars]: none of them meets
    [reads_as_str]. *)
Lemma literals_are_not_text (token : string) :
  token ∈ na_values ++ bool_values → ¬ reads_as_str token.
Proof.
  intros Hin.
  assert (Forall (λ t, ¬ reads_as_str t) (na_values ++ bool_values)) as HF
    by (apply (bool_decide_unpack _); vm_compute; exact I).
  exact (proj1 (Forall_forall _ _) HF token Hin).
Qed.

(** ** [show_species] *)

Module SpeciesFacts.
Import Species.

Local Open Scope Q_scope.

(** A positive multiple of a quarter below [2^48] is a double: rounding
    leaves it as it is. *)
Lemma rnd_quarters (m : Z) (x : Q) :
  (0 < m < 2 ^ 50)%Z → x * 4 == inject_Z m → rnd x == x.
Proof.
  intros [Hm0 Hm1] Hx4.
  assert (0 < x) as Hx.
  { assert (0 < inject_Z m) as H
      by (change 0 with (inject_Z 0); by rewrite <- Zlt_Qlt).
    rewrite <- Hx4 in H. lra. }
  assert (x < pow2 48) as Hx48.
  { assert (inject_Z m < inject_Z (2 ^ 50)) as H by (by rewrite <- Zlt_Qlt).
    rewrite <- Hx4 in H.
    assert (pow2 48 * 4 == inject_Z (2 ^ 50)) as E by (vm_compute; reflexivity).
    rewrite <- E in H. set (P := pow2 48) in *. clearbody P. lra. }
  assert (rnd x == rnd_pos x) as ->.
  { unfold rnd. destruct x as [p q]. destruct p; cbn [Qnum].
    - exfalso. revert Hx. unfold Qlt; simpl; lia.
    - apply Qred_correct.
    - exfalso. revert Hx. unfold Qlt; simpl; lia. }
  unfold rnd_pos.
  pose proof (binexp_lower x Hx) as He.
  set (e := binexp x) in *.
  assert (e < 48)%Z as He48.
  { apply (Qpower_lt_compat_l_inv 2); [|reflexivity].
    change (pow2 e < pow2 48). eapply Qle_lt_trans; eauto. }
  clearbody e.
  assert (pow2 (52 - e) == 4 * inject_Z (2 ^ (50 - e))) as HP.
  { replace (52 - e)%Z with (2 + (50 - e))%Z by lia.
    unfold pow2. rewrite Qpower_plus by discriminate.
    change 2 with (inject_Z 2) at 2.
    rewrite <- Zpower_Qpower by lia. reflexivity. }
  assert (x * pow2 (52 - e) == inject_Z (m * 2 ^ (50 - e))) as Hs.
  { rewrite HP, inject_Z_mult, <- Hx4. ring. }
  assert (py_round (x * pow2 (52 - e)) = (m * 2 ^ (50 - e))%Z) as ->.
  { apply py_round_unique; rewrite Hs;
      set (K := inject_Z _); clearbody K; lra. }
  rewrite <- Hs, <- Qmult_assoc.
  destruct (pow2_split e) as [-> _]. ring.
Qed.

Local Close Scope Q_scope.

Lemma num_rows_ceiling (N : nat) :
  (Z.of_nat N < 2 ^ 50)%Z → num_rows N = Ok ((N + 3) / 4).
Proof.
  intros HN. unfold num_rows, NUM_COLS, int_truediv. cbn [rbind].
  set (x := (inject_Z (Z.of_nat N) / inject_Z (Z.of_nat 4))%Q).
  assert (x * 4 == inject_Z (Z.of_nat N))%Q as Hx4
    by (subst x; change (inject_Z (Z.of_nat 4)) with 4%Q; field).
  assert (rnd x == x)%Q as Hr.
  { destruct N as [|N'].
    - subst x. vm_compute. reflexivity.
    - apply (rnd_quarters (Z.of_nat (S N'))); [lia|done]. }
  assert (int_of_float (rnd x) = (Z.of_nat N / 4)%Z) as ->.
  { unfold int_of_float.
    assert (0 <= x)%Q as Hx0.
    { assert (0 <= inject_Z (Z.of_nat N))%Q as H
        by (change 0%Q with (inject_Z 0); rewrite <- Zle_Qle; lia).
      rewrite <- Hx4 in H. lra. }
    assert (Qle_bool 0 (rnd x) = true) as ->
      by (apply Qle_bool_iff; by rewrite Hr).
    rewrite Hr.
    assert (x == Z.of_nat N # 4)%Q as ->.
    { subst x. unfold Qeq, Qdiv, Qmult, Qinv, inject_Z; simpl. lia. }
    reflexivity. }
  f_equal.
  pose proof (Nat.div_mod_eq N 4) as E1.
  pose proof (Nat.mod_upper_bound N 4 ltac:(lia)) as E2.
  pose proof (Nat.div_mod_eq (N + 3) 4) as E3.
  pose proof (Nat.mod_upper_bound (N + 3) 4 ltac:(lia)) as E4.
  assert ((Z.of_nat N / 4)%Z = Z.of_nat (N / 4)) as ->
    by (by rewrite (Nat2Z.inj_div N 4)).
  case_bool_decide; lia.
Qed.

Lemma div_succ (i R : nat) :
  0 < R →
  S i / R = if bool_decide (Z.of_nat (i mod R) = Z.of_nat R - 1)%Z
            then i / R + 1 else i / R.
Proof.
  intros HR.
  pose proof (Nat.div_mod_eq i R) as E1.
  pose proof (Nat.mod_upper_bound i R ltac:(lia)) as E2.
  case_bool_decide as Hc.
  - symmetry. apply (Nat.div_unique _ _ _ 0); [lia|]. nia.
  - symmetry. apply (Nat.div_unique _ _ _ (S (i mod R))); [lia|]. nia.
Qed.

Lemma mod_pos (a b : nat) : 0 < b → mod_ a b = Ok (a mod b).
Proof. destruct b; [lia|done]. Qed.

Lemma subplots_grid (w : pyplot) (R : nat) :
  2 ≤ R → subplots w R NUM_COLS = Ok (Axes2D R NUM_COLS).
Proof.
  intros HR. destruct R as [|R']; [lia|]. unfold subplots, squeeze, NUM_COLS.
  rewrite !bool_decide_eq_false_2 by lia. done.
Qed.

Lemma drawn_app log1 log2 : drawn (log1 ++ log2) = drawn log1 ++ drawn log2.
Proof. apply omap_app. Qed.

Section grid.
Variable w : pyplot.
Variable species_id : string.

Abbreviation path im := (IMAGES_DIR +:+ species_id +:+ "/" +:+ im).

(** The loop on a grid of [R] rows that has room for the images still
    to come: image [i] goes to row [i mod R] of column [i / R]. *)
Lemma show_images_grid R ims i log :
  0 < R → i + length ims ≤ NUM_COLS * R →
  (∀ im, im ∈ ims → imread_outcome w (path im) = Ok tt) →
  ∃ log',
    show_images w (Axes2D R NUM_COLS) R species_id ims i (i / R) log
      = (Ok tt, log ++ log') ∧
    drawn log'
      = imap (λ j im, (((i + j) mod R, (i + j) / R), path im)) ims.
Proof.
  intros HR. revert i log.
  induction ims as [|im ims IH]; intros i log Hroom Hread.
  { exists []. by rewrite app_nil_r. }
  cbn [show_images length] in *.
  unfold bind at 1, modify at 1.
  rewrite (Hread im) by left. unfold bind at 1, lift at 1.
  rewrite mod_pos by done. unfold bind at 1, lift at 1.
  assert (i / R < NUM_COLS) as Hcol.
  { apply Nat.Div0.div_lt_upper_bound. lia. }
  pose proof (Nat.mod_upper_bound i R ltac:(lia)) as Hrow.
  unfold getitem2. rewrite bool_decide_eq_true_2 by done.
  unfold bind at 1, lift at 1. unfold bind at 1, modify at 1.
  rewrite <- div_succ by done.
  destruct (IH (S i) ((log ++ [imread (path im)])
                      ++ [imshow (i mod R, i / R) (path im)]))
    as (log' & Hrun & Hdrawn); [lia|intros; apply Hread; by right|].
  exists ([imread (path im); imshow (i mod R, i / R) (path im)] ++ log').
  split.
  - rewrite Hrun. by rewrite <- !app_assoc.
  - cbn [app drawn omap list_omap]. rewrite imap_cons, Nat.add_0_r.
    f_equal. fold (drawn log'). rewrite Hdrawn.
    apply imap_ext. intros j x _. cbn.
    by replace (i + S j) with (S i + j) by lia.
Qed.
End grid.
End SpeciesFacts.
Import SpeciesFacts.

(** X10.  For a species directory with at least five images, all of them
    readable, [show_species] runs to its end and draws every image once,
    in the order of the listing: image [i] goes to [axarr[i % NUM_ROWS,
    i // NUM_ROWS]], where [NUM_ROWS] is the number of images divided by
    four and rounded up; every index it uses is inside the grid of
    [NUM_ROWS] by [NUM_COLS] subplots, and no subplot is drawn on twice. *)
Theorem species_grid_holds_every_image (w : Species.pyplot)
    (species_id : string) :
  let ims := Species.ls_outcome w (Species.IMAGES_DIR +:+ "/" +:+ species_id) in
  let N := length ims in
  let R := (N + 3) / 4 in
  let path im := Species.IMAGES_DIR +:+ species_id +:+ "/" +:+ im in
  5 ≤ N → (Z.of_nat N < 2 ^ 50)%Z →
  (∀ im, im ∈ ims → Species.imread_outcome w (path im) = Ok tt) →
  ∃ log,
    Species.show_species w species_id [] = (Ok tt, log) ∧
    drawn log = imap (λ i im, ((i mod R, i / R), path im)) ims ∧
    (∀ i, i < N → i mod R < R ∧ i / R < Species.NUM_COLS) ∧
    NoDup (fst <$> drawn log).
Proof.
  intros ims N R path HN5 HN Hread.
  assert (2 ≤ R) as HR.
  { subst R. pose proof (Nat.div_mod_eq (N + 3) 4).
    pose proof (Nat.mod_upper_bound (N + 3) 4 ltac:(lia)). lia. }
  assert (N ≤ Species.NUM_COLS * R) as Hroom.
  { subst R. unfold Species.NUM_COLS. pose proof (Nat.div_mod_eq (N + 3) 4).
    pose proof (Nat.mod_upper_bound (N + 3) 4 ltac:(lia)). lia. }
  destruct (show_images_grid w species_id R ims 0
              [Species.printed_count species_id N])
    as (log' & Hrun & Hdrawn); [lia|done|done|].
  rewrite Nat.Div0.div_0_l in Hrun.
  exists (([Species.printed_count species_id N] ++ log')
          ++ [Species.figure_shown]).
  assert (drawn (([Species.printed_count species_id N] ++ log')
                 ++ [Species.figure_shown])
          = imap (λ i im, ((i mod R, i / R), path im)) ims) as Hd.
  { rewrite !drawn_app, Hdrawn. cbn [drawn omap list_omap app].
    by rewrite app_nil_r. }
  split_and!.
  - unfold Species.show_species. fold ims. fold N.
    unfold bind at 1, modify at 1. cbn [app].
    rewrite (num_rows_ceiling N HN). fold R.
    unfold bind at 1, lift at 1.
    rewrite (subplots_grid w R HR). unfold bind at 1, lift at 1.
    change [Species.printed_count species_id N]
      with ([] ++ [Species.printed_count species_id N]) in Hrun at 1.
    by rewrite (bind_run _ _ _ _ _ Hrun).
  - exact Hd.
  - intros i Hi. split.
    + apply Nat.mod_upper_bound. lia.
    + apply Nat.Div0.div_lt_upper_bound. lia.
  - rewrite Hd, fmap_imap. clearbody R. apply NoDup_alt. intros i j p Hi Hj.
    rewrite list_lookup_imap in Hi, Hj.
    destruct (ims !! i) eqn:Ei; [|done]. destruct (ims !! j) eqn:Ej; [|done].
    cbn in Hi, Hj. simplify_eq.
    rewrite (Nat.div_mod_eq i R), (Nat.div_mod_eq j R). congruence.
Qed.

Lemma species_grid_holds_every_image_witness :
  let w := Species.Pyplot (λ _, ["a.jpg"; "b.jpg"; "c.jpg"; "d.jpg"; "e.jpg"])
             (λ _, Ok tt) (Raise ValueError) in
  let path im := Species.IMAGES_DIR +:+ "013.Bobolink" +:+ "/" +:+ im in
  ∃ log,
    Species.show_species w "013.Bobolink" [] = (Ok tt, log) ∧
    drawn log = imap (λ i im, ((i mod 2, i / 2), path im))
                  ["a.jpg"; "b.jpg"; "c.jpg"; "d.jpg"; "e.jpg"] ∧
    (∀ i, i < 5 → i mod 2 < 2 ∧ i / 2 < Species.NUM_COLS) ∧
    NoDup (fst <$> drawn log).
Proof.
  intros w path.
  apply (species_grid_holds_every_image w "013.Bobolink").
  - cbn. lia.
  - cbn. lia.
  - intros im _. reflexivity.
Defined.

(** X11.  For a species directory with one to four images
    [show_species] cannot draw: [plt.subplots(1, 4)] returns a vector of
    axes, and indexing it with a row and a column raises IndexError at the
    first image, after the image is read and before anything is drawn. *)
Theorem small_species_cannot_be_shown (w : Species.pyplot)
    (species_id im : string) (ims : list string) :
  Species.ls_outcome w (Species.IMAGES_DIR +:+ "/" +:+ species_id) = im :: ims →
  length ims < 4 →
  Species.imread_outcome w
    (Species.IMAGES_DIR +:+ species_id +:+ "/" +:+ im) = Ok tt →
  ∃ log,
    Species.show_species w species_id [] = (Raise IndexError, log) ∧
    drawn log = [].
Proof.
  intros Hls Hlen Hread. unfold Species.show_species. rewrite Hls.
  assert (Species.num_rows (length (im :: ims)) = Ok 1) as ->.
  { rewrite num_rows_ceiling by (cbn [length]; lia).
    f_equal. cbn [length].
    symmetry. apply (Nat.div_unique _ _ _ (length ims)); lia. }
  unfold bind at 1, modify at 1. unfold bind at 1, lift at 1.
  cbn [Species.subplots]. unfold Species.NUM_COLS.
  change (Species.squeeze 1 4) with (Species.Axes1D 4).
  unfold bind at 1, lift at 1. cbn [Species.show_images].
  eexists. split.
  - erewrite bind_raise; [reflexivity|].
    unfold bind at 1, modify at 1. rewrite Hread.
    unfold bind at 1, lift at 1. cbn [mod_]. unfold bind at 1, lift at 1.
    cbn [Species.getitem2]. reflexivity.
  - reflexivity.
Qed.

Lemma small_species_cannot_be_shown_witness :
  let w := Species.Pyplot (λ _, ["a.jpg"; "b.jpg"; "c.jpg"])
             (λ _, Ok tt) (Raise ValueError) in
  ∃ log,
    Species.show_species w "013.Bobolink" [] = (Raise IndexError, log) ∧
    drawn log = [].
Proof.
  intros w.
  apply (small_species_cannot_be_shown w "013.Bobolink" "a.jpg"
           ["b.jpg"; "c.jpg"]).
  - reflexivity.
  - cbn. lia.
  - reflexivity.
Defined.

(** ** The pass over the validation images *)

Module ValidationFacts.
Import Validation.

Lemma setslice_append {A} (l : list A) a b xs :
  a = length l → a ≤ b → setslice l a b xs = l ++ xs.
Proof.
  intros -> Hb. unfold setslice.
  rewrite Nat.min_id.
  replace ((b `min` length l) `max` length l) with (length l) by lia.
  by rewrite firstn_all, drop_all, app_nil_r.
Qed.

Lemma permutation_spec N g :
  ∃ perm g', permutation N g = (Ok perm, g') ∧ perm ≡ₚ seq 0 N.
Proof.
  unfold permutation.
  destruct (sample_n_spec N (seq 0 N) g) as (s & g' & Hs & Hsub & Hlen).
  exists s, g'. split; [done|].
  apply submseteq_length_Permutation; [done|].
  rewrite Hlen by (by rewrite length_seq). by rewrite length_seq.
Qed.

Lemma BATCH_SIZE_pos : 0 < BATCH_SIZE.
Proof. unfold BATCH_SIZE. lia. Qed.

(** The first batch of an epoch. *)
Lemma next_first N perm0 g :
  0 < N →
  ∃ perm g', perm ≡ₚ seq 0 N ∧
    next (Iterator N BATCH_SIZE 0 perm0) g
    = (Ok (take BATCH_SIZE perm,
           Iterator N BATCH_SIZE
             (if bool_decide (BATCH_SIZE < N) then 1 else 0) perm), g').
Proof.
  intros HN. destruct (permutation_spec N g) as (perm & g' & Hp & Hperm).
  exists perm, g'. split; [done|].
  unfold next. cbn [batch_index n batch_size].
  rewrite bool_decide_eq_true_2 by done.
  rewrite (bind_run _ _ _ _ _ Hp).
  rewrite (bool_decide_eq_false_2 (N = 0)) by lia.
  rewrite Nat.mul_0_l, Nat.Div0.mod_0_l. done.
Qed.

(** A later batch of an epoch. *)
Lemma next_later N k perm g :
  0 < k → k * BATCH_SIZE < N →
  next (Iterator N BATCH_SIZE k perm) g
  = (Ok (take BATCH_SIZE (skipn (k * BATCH_SIZE) perm),
         Iterator N BATCH_SIZE
           (if bool_decide ((k + 1) * BATCH_SIZE < N) then k + 1 else 0)
           perm), g).
Proof.
  intros Hk HkN. unfold next. cbn [batch_index n batch_size].
  rewrite bool_decide_eq_false_2 by lia.
  unfold bind, ret.
  rewrite (bool_decide_eq_false_2 (N = 0)) by lia.
  rewrite Nat.mod_small by done. cbn [index_array].
  replace (k * BATCH_SIZE + BATCH_SIZE) with ((k + 1) * BATCH_SIZE) by lia.
  done.
Qed.

Section cell.
Context {P L : Type}.
Variable predict_outcome : list nat → result (list P).
Variable predict_one : nat → P.
Variable label_of : nat → L.
Variable N : nat.
Hypothesis HN : 0 < N.
Hypothesis Hpredict :
  ∀ b, b ≠ [] → predict_outcome b = Ok (predict_one <$> b).

Abbreviation loop := (predict_batches predict_outcome label_of N).

(** The turn that follows a full epoch: the iterator starts a second
    epoch, and its first batch is stored and ends the loop. *)
Lemma loop_wrap fuel q perm0 g idxs :
  q * BATCH_SIZE = N → length idxs = N →
  ∃ extra g',
    loop (S fuel) (Iterator N BATCH_SIZE 0 perm0) q
      (predict_one <$> idxs) (label_of <$> idxs) g
    = (Ok (Some (q + 1, predict_one <$> (idxs ++ extra),
                 label_of <$> (idxs ++ extra))), g') ∧
    length extra = BATCH_SIZE ∧ extra ⊆+ seq 0 N.
Proof.
  intros Hq Hlen. pose proof BATCH_SIZE_pos as HB.
  destruct (next_first N perm0 g HN) as (perm & g' & Hperm & Hnext).
  assert (length perm = N) as Hlp
    by (by rewrite Hperm, length_seq).
  assert (BATCH_SIZE ≤ N) as HBN by (destruct q; [lia|nia]).
  assert (length (take BATCH_SIZE perm) = BATCH_SIZE) as Hlb
    by (rewrite length_take; lia).
  exists (take BATCH_SIZE perm), g'. split; [|split; [done|]].
  - cbn [predict_batches]. rewrite (bind_run _ _ _ _ _ Hnext).
    cbn [fst snd]. rewrite Hpredict
      by (intros E; rewrite E in Hlb; cbn [length] in Hlb; lia).
    unfold bind at 1, lift at 1.
    rewrite !setslice_append by (rewrite ?length_fmap; lia).
    rewrite bool_decide_eq_true_2 by lia.
    by rewrite !fmap_app.
  - rewrite <- Hperm. apply sublist_submseteq, sublist_take.
Qed.

(** The turns inside the first epoch, from the second batch on. *)
Lemma loop_later fuel k perm g :
  0 < k → k * BATCH_SIZE < N → length perm = N →
  N / BATCH_SIZE < fuel + k →
  ∃ extra g',
    loop fuel (Iterator N BATCH_SIZE k perm) k
      (predict_one <$> take (k * BATCH_SIZE) perm)
      (label_of <$> take (k * BATCH_SIZE) perm) g
    = (Ok (Some (N / BATCH_SIZE + 1, predict_one <$> (perm ++ extra),
                 label_of <$> (perm ++ extra))), g') ∧
    ((N mod BATCH_SIZE ≠ 0 ∧ extra = []) ∨
     (N mod BATCH_SIZE = 0 ∧ length extra = BATCH_SIZE
      ∧ extra ⊆+ seq 0 N)).
Proof.
  pose proof BATCH_SIZE_pos as HB.
  pose proof (Nat.div_mod_eq N BATCH_SIZE) as Hdm.
  pose proof (Nat.mod_upper_bound N BATCH_SIZE ltac:(lia)) as Hmod.
  revert k g. induction fuel as [|fuel IH]; intros k g Hk HkN Hlp Hfuel.
  { exfalso. nia. }
  cbn [predict_batches].
  rewrite (bind_run _ _ _ _ _ (next_later N k perm g Hk HkN)).
  cbn [fst snd].
  assert (take BATCH_SIZE (skipn (k * BATCH_SIZE) perm) ≠ []) as Hne.
  { intros E. apply (f_equal length) in E.
    rewrite length_take, length_drop in E. cbn [length] in E. lia. }
  rewrite (Hpredict _ Hne). unfold bind at 1, lift at 1.
  assert (length (take (k * BATCH_SIZE) perm) = k * BATCH_SIZE) as Hlt
    by (rewrite length_take; lia).
  rewrite !setslice_append by (rewrite ?length_fmap; lia).
  rewrite <- !fmap_app, take_take_drop.
  replace (k * BATCH_SIZE + BATCH_SIZE) with ((k + 1) * BATCH_SIZE) by lia.
  destruct (decide (N < (k + 1) * BATCH_SIZE)) as [Hbreak|Hgo].
  - rewrite bool_decide_eq_true_2 by done.
    exists [], g. rewrite app_nil_r, take_ge by lia.
    assert (N / BATCH_SIZE = k) as Hq by nia.
    split; [unfold ret; by rewrite Hq|].
    left. split; [nia|done].
  - rewrite bool_decide_eq_false_2 by done.
    destruct (decide ((k + 1) * BATCH_SIZE = N)) as [Heq|Hlt'].
    + rewrite (bool_decide_eq_false_2 ((k + 1) * BATCH_SIZE < N)) by lia.
      rewrite take_ge by lia.
      assert (N / BATCH_SIZE = k + 1) as Hq by nia.
      destruct fuel as [|fuel']; [exfalso; lia|].
      destruct (loop_wrap fuel' (k + 1) perm g perm Heq Hlp)
        as (extra & g' & Hrun & Hle & Hsub).
      exists extra, g'. rewrite Hq. split; [exact Hrun|].
      right. split; [nia|done].
    + rewrite (bool_decide_eq_true_2 ((k + 1) * BATCH_SIZE < N)) by lia.
      apply IH; lia.
Qed.

(** The cell from its first turn. *)
Lemma validation_cell_runs fuel perm0 k0 g :
  N / BATCH_SIZE < fuel →
  ∃ perm extra g',
    validation_cell predict_outcome label_of N fuel
      (Iterator N BATCH_SIZE k0 perm0) g
    = (Ok (Some (N / BATCH_SIZE + 1, predict_one <$> (perm ++ extra),
                 label_of <$> (perm ++ extra))), g') ∧
    perm ≡ₚ seq 0 N ∧
    ((N mod BATCH_SIZE ≠ 0 ∧ extra = []) ∨
     (N mod BATCH_SIZE = 0 ∧ length extra = BATCH_SIZE
      ∧ extra ⊆+ seq 0 N)).
Proof.
  intros Hfuel. pose proof BATCH_SIZE_pos as HB.
  pose proof (Nat.div_mod_eq N BATCH_SIZE) as Hdm.
  pose proof (Nat.mod_upper_bound N BATCH_SIZE ltac:(lia)) as Hmod.
  unfold validation_cell, reset. cbn [n batch_size index_array].
  destruct fuel as [|fuel]; [lia|].
  destruct (next_first N perm0 g HN) as (perm & g1 & Hperm & Hnext).
  assert (length perm = N) as Hlp by (by rewrite Hperm, length_seq).
  cbn [predict_batches]. rewrite (bind_run _ _ _ _ _ Hnext).
  cbn [fst snd].
  assert (take BATCH_SIZE perm ≠ []) as Hne.
  { intros E. apply (f_equal length) in E.
    rewrite length_take in E. cbn [length] in E. lia. }
  rewrite (Hpredict _ Hne). unfold bind at 1, lift at 1.
  rewrite !setslice_append by (cbn; lia). cbn [app Nat.add Nat.mul].
  rewrite Nat.add_0_r.
  destruct (decide (N < BATCH_SIZE)) as [Hbreak|Hgo].
  - rewrite bool_decide_eq_true_2 by done.
    exists perm, [], g1. rewrite app_nil_r, take_ge by lia.
    assert (N / BATCH_SIZE = 0) as Hq by nia.
    split; [unfold ret; by rewrite Hq|]. split; [done|].
    left. split; [nia|done].
  - rewrite bool_decide_eq_false_2 by done.
    destruct (decide (BATCH_SIZE = N)) as [Heq|Hlt'].
    + rewrite (bool_decide_eq_false_2 (BATCH_SIZE < N)) by lia.
      rewrite take_ge by lia.
      assert (N / BATCH_SIZE = 1) as Hq by nia.
      destruct fuel as [|fuel']; [exfalso; lia|].
      destruct (loop_wrap fuel' 1 perm g1 perm ltac:(lia) Hlp)
        as (extra & g' & Hrun & Hle & Hsub).
      exists perm, extra, g'. rewrite Hq. split; [exact Hrun|].
      split; [done|]. right. split; [nia|done].
    + rewrite (bool_decide_eq_true_2 (BATCH_SIZE < N)) by lia.
      destruct (loop_later fuel 1 perm g1) as (extra & g' & Hrun & Hcase);
        [lia|lia|done|lia|].
      exists perm, extra, g'. split; [|done].
      rewrite Nat.mul_1_l in Hrun. exact Hrun.
Qed.
End cell.
End ValidationFacts.
Import ValidationFacts.

(** X12.  The cell that predicts the validation images leaves the lists
    [predictions] and [labels] aligned, image by image, and ends after
    [num_val_images // BATCH_SIZE + 1] batches.  When [BATCH_SIZE] does
    not divide the number of validation images, every image is predicted
    exactly once.  When it does, the test [i * BATCH_SIZE >
    num_val_images] lets one more batch through: the lists hold every
    image once and then the first [BATCH_SIZE] images of a second
    epoch.  In both cases the number of images the last line prints is
    smaller than the number of predictions stored. *)
Theorem validation_pass_runs_one_batch_over {P L : Type}
    (predict_outcome : list nat → result (list P)) (predict_one : nat → P)
    (label_of : nat → L) (val_gen : Validation.iterator) (fuel : nat) (g : rng) :
  let N := Validation.n val_gen in
  let B := Validation.BATCH_SIZE in
  0 < N → Validation.batch_size val_gen = B →
  (∀ b, b ≠ [] → predict_outcome b = Ok (predict_one <$> b)) →
  N / B < fuel →
  ∃ idxs g',
    Validation.validation_cell predict_outcome label_of N fuel val_gen g
    = (Ok (Some (N / B + 1, predict_one <$> idxs, label_of <$> idxs)), g') ∧
    (N mod B ≠ 0 → idxs ≡ₚ seq 0 N) ∧
    (N mod B = 0 →
     ∃ epoch extra, idxs = epoch ++ extra ∧ epoch ≡ₚ seq 0 N ∧
       length extra = B ∧ extra ⊆+ seq 0 N) ∧
    (Validation.printed_images (N / B + 1) < Z.of_nat (length idxs))%Z.
Proof.
  intros N B HN HB Hpredict Hfuel.
  destruct val_gen as [N' B' k0 perm0]. cbn in N, HB. subst N B B'.
  destruct (validation_cell_runs predict_outcome predict_one label_of N' HN
              Hpredict fuel perm0 k0 g Hfuel)
    as (perm & extra & g' & Hrun & Hperm & Hcase).
  exists (perm ++ extra), g'. split; [exact Hrun|].
  pose proof BATCH_SIZE_pos as HB.
  pose proof (Nat.div_mod_eq N' Validation.BATCH_SIZE) as Hdm.
  pose proof (Nat.mod_upper_bound N' Validation.BATCH_SIZE ltac:(lia)) as Hmod.
  assert (length perm = N') as Hlp by (by rewrite Hperm, length_seq).
  split_and!.
  - intros Hnz. destruct Hcase as [[_ ->]|[? _]]; [|done].
    by rewrite app_nil_r.
  - intros Hz. destruct Hcase as [[? _]|(_ & Hle & Hsub)]; [done|].
    by exists perm, extra.
  - unfold Validation.printed_images. rewrite length_app, Hlp.
    destruct Hcase as [[Hnz ->]|(_ & Hle & _)]; [cbn [length]|rewrite Hle]; nia.
Qed.

Lemma validation_pass_runs_one_batch_over_witness :
  let val_gen := Validation.Iterator 32 16 0 [] in
  ∃ idxs g',
    Validation.validation_cell (λ b, Ok (id <$> b)) id 32 3 val_gen []
    = (Ok (Some (32 / 16 + 1, id <$> idxs, id <$> idxs)), g') ∧
    (32 mod 16 ≠ 0 → idxs ≡ₚ seq 0 32) ∧
    (32 mod 16 = 0 →
     ∃ epoch extra, idxs = epoch ++ extra ∧ epoch ≡ₚ seq 0 32 ∧
       length extra = 16 ∧ extra ⊆+ seq 0 32) ∧
    (Validation.printed_images (32 / 16 + 1) < Z.of_nat (length idxs))%Z.
Proof.
  intros val_gen.
  apply (validation_pass_runs_one_batch_over (λ b, Ok (id <$> b)) id id
           val_gen 3 []).
  - cbn. lia.
  - reflexivity.
  - intros b _. reflexivity.
  - cbn. lia.
Defined.

(** ** [test_image_df] *)

Module TestingFacts.
Import Testing.

Lemma digit_value_char (d : N) :
  (d < 10)%N → digit_value (pretty_N_char d) = Some (Z.of_N d).
Proof.
  intros Hd.
  assert (d = 0 ∨ d = 1 ∨ d = 2 ∨ d = 3 ∨ d = 4 ∨ d = 5 ∨ d = 6 ∨ d = 7
          ∨ d = 8 ∨ d = 9)%N as H by lia.
  repeat (destruct H as [->|H]; [reflexivity|]). by subst.
Qed.

(** A digit is no white space, no sign and no underscore. *)
Lemma digit_plain c :
  is_Some (digit_value c) →
  is_space c = false ∧ c ≠ "_"%char ∧ c ≠ "-"%char ∧ c ≠ "+"%char.
Proof.
  intros [d Hd]. split_and!.
  - unfold is_space. apply bool_decide_eq_false. intros Hc.
    repeat (apply elem_of_cons in Hc as [->|Hc]; [discriminate|]).
    by apply elem_of_nil in Hc.
  - intros ->. discriminate.
  - intros ->. discriminate.
  - intros ->. discriminate.
Qed.

Lemma strip_plain (l : list Ascii.ascii) :
  Forall (λ c, is_space c = false) l → strip l = l.
Proof.
  intros Hl. unfold strip.
  assert (∀ l', Forall (λ c, is_space c = false) l' → lstrip l' = l') as Hls.
  { intros [|c l'] H; [done|]. cbn. by rewrite (Forall_inv H). }
  rewrite (Hls l Hl), (Hls (rev l)) by (by apply Forall_rev).
  apply rev_involutive.
Qed.

(** The digits that [str] prints in front of [s] are digits, and they
    read as the number printed. *)
Lemma pretty_N_go_digits (x : N) (s : string) :
  (0 < x)%N →
  ∃ c l k,
    list_ascii_of_string (pretty_N_go x s) = c :: l ∧
    is_Some (digit_value c) ∧
    (Forall (λ c, is_Some (digit_value c)) (list_ascii_of_string s) →
     Forall (λ c, is_Some (digit_value c)) l) ∧
    ∀ acc b,
      digits acc b (c :: l)
      = digits (acc * k + Z.of_N x) true (list_ascii_of_string s).
Proof.
  revert s. induction (N.lt_wf_0 x) as [x _ IH]. intros s Hx.
  rewrite pretty_N_go_step by done.
  pose proof (N.mod_lt x 10 ltac:(lia)) as Hmod.
  pose proof (N.div_mod x 10 ltac:(lia)) as Hdm.
  pose proof (digit_value_char _ Hmod) as Hd.
  destruct (digit_plain (pretty_N_char (x `mod` 10)) ltac:(by eexists))
    as (_ & Hu & _).
  destruct (decide (x `div` 10 = 0)%N) as [E|E].
  - rewrite E, pretty_N_go_0. eexists _, _, 10%Z.
    split; [reflexivity|]. split; [by eexists|]. split; [done|].
    intros acc b. cbn [digits]. rewrite decide_False, Hd by done.
    f_equal. lia.
  - destruct (IH (x `div` 10)%N) with
      (s := String (pretty_N_char (x `mod` 10)) s)
      as (c & l & k & Heq & Hc & Hall & Hdig);
      [apply N.div_lt; lia|lia|].
    exists c, l, (10 * k)%Z.
    split; [exact Heq|]. split; [exact Hc|]. split.
    + intros Hs. apply Hall. cbn [list_ascii_of_string].
      constructor; [by eexists|done].
    + intros acc b. rewrite Hdig. cbn [list_ascii_of_string digits].
      rewrite decide_False, Hd by done. f_equal. lia.
Qed.

(** [int] reads back what [str] prints. *)
Lemma int_of_str_str (i : nat) : int_of_str (str i) = Ok (Z.of_nat i).
Proof.
  unfold str, pretty, pretty_nat, pretty, pretty_N.
  destruct (decide (N.of_nat i = 0)%N) as [E|E].
  { replace i with 0 by lia. reflexivity. }
  destruct (pretty_N_go_digits (N.of_nat i) "" ltac:(lia))
    as (c & l & k & Heq & Hc & Hall & Hdig).
  specialize (Hall ltac:(constructor)).
  unfold int_of_str. rewrite Heq.
  rewrite strip_plain.
  2:{ constructor; [by apply digit_plain|].
      eapply Forall_impl; [exact Hall|]. intros ? ?. by apply digit_plain. }
  destruct (digit_plain c Hc) as (_ & _ & Hm & Hp).
  rewrite !decide_False by done.
  rewrite Hdig. cbn [list_ascii_of_string digits]. f_equal. lia.
Qed.

Lemma disagreements_cons p a ps acts :
  disagreements (p :: ps) (a :: acts)
  = (if decide (Z.of_nat p ≠ a) then 1 else 0) + disagreements ps acts.
Proof.
  unfold disagreements. cbn [zip_with]. rewrite filter_cons. cbn [fst snd].
  by destruct (decide (Z.of_nat p ≠ a)).
Qed.

Lemma disagreements_le ps acts : disagreements ps acts ≤ length ps.
Proof.
  unfold disagreements. etrans; [apply length_filter|].
  rewrite length_zip_with. lia.
Qed.

Section loop.
Variable predict_outcome : string → result (nat * Q).
Variable class_name_list : list string.

Abbreviation test_rows := (test_rows predict_outcome class_name_list).

Lemma predict_bird_from_file_quiet fn log r log' :
  predict_bird_from_file predict_outcome class_name_list fn false log
    = (Ok r, log') →
  predict_outcome fn = Ok r ∧ r.1 < length class_name_list ∧ log' = log.
Proof.
  unfold predict_bird_from_file. intros H.
  apply bind_Ok in H as (r0 & log1 & [Hr ->]%lift_Ok & H).
  apply bind_Ok in H as (pc & log2 & [Hpc ->]%lift_Ok & H).
  cbn in H. injection H as <- <-. unfold getitem_list in Hpc.
  destruct (class_name_list !! r0.1) eqn:E; [|done].
  apply lookup_lt_Some in E. by destruct r0.
Qed.

Lemma predict_bird_from_file_run fn log p :
  predict_outcome fn = Ok p → p.1 < length class_name_list →
  predict_bird_from_file predict_outcome class_name_list fn false log
    = (Ok p, log).
Proof.
  intros Hp Hp1.
  destruct (lookup_lt_is_Some_2 class_name_list p.1 Hp1) as [pn Hpn].
  unfold predict_bird_from_file, getitem_list, bind, lift, ret.
  rewrite Hp, Hpn. by destruct p.
Qed.

(** What the loop adds to its three variables. *)
Lemma test_rows_Ok rows i num_errors preds acts log e' preds' acts' log' :
  test_rows rows i num_errors preds acts log
    = (Ok (e', preds', acts'), log') →
  ∃ ps as_,
    preds' = preds ++ ps ∧ acts' = acts ++ as_ ∧
    length ps = length rows ∧
    e' = num_errors + disagreements ps as_ ∧
    Forall2 (λ r act, int_of_cell (class_id (dat r)) = Ok (act + 1)%Z)
      rows as_.
Proof.
  revert i num_errors preds acts log.
  induction rows as [|r rows IH]; intros i e preds acts log H.
  { injection H as <- <- <- <-. exists [], [].
    rewrite !app_nil_r. split_and!; [done..|cbn; lia|constructor]. }
  cbn [Testing.test_rows] in H.
  apply bind_Ok in H as (c & log1 & [Hc ->]%lift_Ok & H).
  apply bind_Ok in H as (p & log2 & Hp & H).
  apply predict_bird_from_file_quiet in Hp as (_ & _ & ->).
  assert (∃ e1, (e1 = e + if decide (Z.of_nat p.1 ≠ (c - 1)%Z) then 1 else 0)
            ∧ ∃ log3, test_rows rows (S i) e1 (preds ++ [p.1])
                        (acts ++ [(c - 1)%Z]) log3
                      = (Ok (e', preds', acts'), log')) as (e1 & -> & log3 & H').
  { destruct (decide (Z.of_nat p.1 ≠ (c - 1)%Z)) as [Hne|Hne].
    - rewrite bool_decide_eq_true_2 in H by done.
      apply bind_Ok in H as (pn & log3 & _ & H).
      apply bind_Ok in H as (an & log4 & _ & H).
      apply bind_Ok in H as ([] & log5 & _ & H). eauto.
    - rewrite bool_decide_eq_false_2 in H by done.
      rewrite Nat.add_0_r. eauto. }
  apply IH in H' as (ps & as_ & -> & -> & Hlen & -> & HF).
  exists (p.1 :: ps), ((c - 1)%Z :: as_).
  rewrite <- !app_assoc. split_and!; [done|done|cbn; lia| |].
  - rewrite disagreements_cons. lia.
  - constructor; [|done]. rewrite Hc. f_equal. lia.
Qed.

(** The loop runs to its end when every class id reads as a number
    from 1 to the number of class names and the model answers for
    every file with the index of a class name. *)
Lemma test_rows_total rows i num_errors preds acts log :
  (∀ r, r ∈ rows → ∃ c, int_of_cell (class_id (dat r)) = Ok c
                        ∧ (1 ≤ c ≤ Z.of_nat (length class_name_list))%Z) →
  (∀ fn, ∃ r, predict_outcome fn = Ok r ∧ r.1 < length class_name_list) →
  ∃ res log', test_rows rows i num_errors preds acts log = (Ok res, log').
Proof.
  intros Hrows Hmodel. revert i num_errors preds acts log.
  induction rows as [|r rows IH]; intros i e preds acts log.
  { cbn. unfold ret. eauto. }
  cbn [Testing.test_rows].
  destruct (Hrows r) as (c & Hc & Hc1); [left|]. rewrite Hc.
  unfold bind at 1, lift at 1.
  destruct (Hmodel (Species.IMAGES_DIR +:+ "/" +:+ image_file_name (dat r)))
    as (p & Hp & Hp1).
  destruct (lookup_lt_is_Some_2 class_name_list p.1 Hp1) as [pn Hpn].
  rewrite (bind_run _ _ _ _ _ (predict_bird_from_file_run _ log p Hp Hp1)).
  case_bool_decide as Hne; [|apply IH; intros; apply Hrows; by right].
  unfold getitem_list at 1. rewrite Hpn. unfold bind at 1, lift at 1.
  assert (∃ an, getitem_int class_name_list (c - 1)%Z = Ok an) as [an Han].
  { unfold getitem_int.
    rewrite (bool_decide_eq_false_2 (c - 1 < 0)%Z) by lia. cbv zeta.
    rewrite bool_decide_eq_false_2 by lia.
    unfold getitem_list.
    destruct (lookup_lt_is_Some_2 class_name_list (Z.to_nat (c - 1))
                ltac:(lia)) as [an Han].
    rewrite Han. eauto. }
  rewrite Han. unfold bind at 1, lift at 1. unfold bind at 1, modify at 1.
  apply IH. intros; apply Hrows; by right.
Qed.
End loop.
End TestingFacts.
Import TestingFacts.



(** X14.  [get_train_val_dataframes] returns, and for every row of its
    three dataframes the index [int(class_id) - 1] that [test_image_df]
    takes as the actual class is the position of the row's original class
    id in the ascending list of the class ids that are kept: [int] reads
    back what [str] wrote. *)
Theorem actual_class_is_the_rank_of_the_class (images : list (Z * string))
    (image_class_labels : list (Z * Z)) (g : rng) :
  ∃ tr va te g',
    get_train_val_dataframes images image_class_labels g
      = (Ok (tr, va, te), g') ∧
    ∀ r, r ∈ tr ++ va ++ te →
      ∃ j : nat,
        sorted_unique_classes images image_class_labels !! j
          = Some (orig_class_id (dat r)) ∧
        rbind (int_of_cell (class_id (dat r))) (λ c, Ok (c - 1)%Z)
          = Ok (Z.of_nat j).
Proof.
  destruct (get_train_val_dataframes_returns images image_class_labels g)
    as (tr & va & te & g' & Hrun & Hrows).
  exists tr, va, te, g'. split; [exact Hrun|].
  intros r Hr. apply Hrows in Hr.
  destruct (full_df_class_id _ _ r Hr) as (j & _ & Hj & Hc).
  exists j. split; [exact Hj|].
  rewrite Hc. cbn [int_of_cell]. rewrite int_of_str_str. cbn [rbind].
  f_equal. lia.
Qed.

(** ** The accuracy cell of notebook 3 *)

Module AccuracyFacts.

Local Open Scope Q_scope.

(** The quotient of a count by a total of at most [10^15]: a share
    between 0 and 1 that reaches either end only when the count does. *)
Lemma int_truediv_share (c t : nat) :
  (0 < t)%nat → (c ≤ t)%nat → (Z.of_nat t <= 10 ^ 15)%Z →
  ∃ q, int_truediv c t = Ok q ∧ 0 <= q ∧ q <= 1 ∧
    (q == 1 ↔ c = t) ∧ (q == 0 ↔ c = 0%nat).
Proof.
  intros Ht Hc Hbig. destruct t as [|t']; [lia|].
  set (t := S t') in *. unfold int_truediv. eexists. split; [reflexivity|].
  set (C := inject_Z (Z.of_nat c)). set (T := inject_Z (Z.of_nat t)).
  assert (0 <= C) as HC0
    by (subst C; change 0 with (inject_Z 0); rewrite <- Zle_Qle; lia).
  assert (1 <= T) as HT1
    by (subst T; change 1 with (inject_Z 1); rewrite <- Zle_Qle; lia).
  assert (T <= 1000000000000000) as HT2.
  { subst T. change 1000000000000000 with (inject_Z (10 ^ 15)).
    by rewrite <- Zle_Qle. }
  assert (C <= T) as HCT by (subst C T; rewrite <- Zle_Qle; lia).
  assert (0 <= C / T) as Hx0.
  { apply Qle_shift_div_l; [clearbody T; lra|]. clearbody C T. lra. }
  assert (C / T <= 1) as Hx1.
  { apply Qle_shift_div_r; [clearbody T; lra|]. clearbody C T. lra. }
  destruct (rnd_bounds (C / T) Hx0) as (Hr0 & Hr1 & Hr2).
  destruct ulp_half_bounds as [Hu0 Hu1].
  assert (C / T * ulp_half <= 1 * ulp_half) as Hxu
    by (by apply Qmult_le_compat_r).
  destruct (decide (c = t)) as [Hct|Hct].
  - assert (C / T == 1) as Hone.
    { subst C T. rewrite Hct. field.
      change 0 with (inject_Z 0). rewrite inject_Z_injective. lia. }
    assert (rnd (C / T) == 1) as Hrnd.
    { rewrite (rnd_quarters 4 (C / T)); [done|lia|]. rewrite Hone. reflexivity. }
    rewrite Hrnd. split_and!; [lra|lra| |].
    + split; [done|reflexivity].
    + split; [intros H; lra|intros ->; subst t; lia].
  - assert (C <= T - 1) as HCT1.
    { subst C T. change 1 with (inject_Z 1).
      unfold Qminus. rewrite <- inject_Z_opp, <- inject_Z_plus, <- Zle_Qle. lia. }
    assert (C / T <= 1 - (1 # 1000000000000000)) as Hgap.
    { apply Qle_shift_div_r; [clearbody T; lra|]. clearbody C T. lra. }
    assert (rnd (C / T) < 1) as Hlt1.
    { set (x := C / T) in *. set (u := ulp_half) in *.
      set (r := rnd x) in *. clearbody x u r. lra. }
    split_and!; [done|lra| |].
    + split; [intros H; lra|done].
    + destruct (decide (c = 0%nat)) as [->|Hc0].
      * split; [done|]. intros _. subst C. reflexivity.
      * split; [|done]. intros Hz. exfalso.
        assert (1 <= C) as HC1
          by (subst C; change 1 with (inject_Z 1); rewrite <- Zle_Qle; lia).
        assert (0 < C / T) as Hpos.
        { apply Qlt_shift_div_l; [clearbody T; lra|]. clearbody C T. lra. }
        assert (C / T * ulp_half <= C / T * (1 # 4000000000000000)) as Hxu2.
        { rewrite !(Qmult_comm (C / T)).
          apply Qmult_le_compat_r; [done|lra]. }
        set (x := C / T) in *. set (u := ulp_half) in *.
        set (r := rnd x) in *. clearbody x u r. lra.
Qed.

End AccuracyFacts.
Import AccuracyFacts.

(** X15.  When the loop has counted at least one file (and at most
    [10^15]), the accuracy cell does not fail: it prints the totals and
    the accuracy, and the accuracy is a number from 0 to 1 that is 1
    exactly when every counted file was predicted correctly and 0 exactly
    when none was. *)
Theorem accuracy_is_a_share (w : world) (class_name_list : list string)
    (k : kernel) :
  let k1 := (aggregate_cell w class_name_list k).2 in
  0 < total k1 → (Z.of_nat (total k1) ≤ 10 ^ 15)%Z →
  ∃ accuracy k2,
    accuracy_cell k1 = (Ok accuracy, k2) ∧
    stdout k2 = stdout k1 ++ [printed_totals (total k1) (correct k1);
                              printed_accuracy accuracy] ∧
    (0 <= accuracy)%Q ∧ (accuracy <= 1)%Q ∧
    (accuracy == 1 ↔ correct k1 = total k1) ∧
    (accuracy == 0 ↔ correct k1 = 0).
Proof.
  intros k1 Hpos Hbig.
  assert (correct k1 ≤ total k1) as Hle.
  { unfold k1. rewrite aggregate_cell_eq.
    set (k0 := Kernel _ _ _ _ _ _).
    destruct (aggregate_spec w class_name_list
                (glob_outcome w "batch_predictions/*/*") k0)
      as (k' & cs & Hrun & Hal & _).
    rewrite Hrun. cbn [snd].
    destruct Hal as (_ & _ & A3); [|done]. subst k0. unfold aligned. cbn. lia. }
  destruct (int_truediv_share (correct k1) (total k1) Hpos Hle Hbig)
    as (q & Hq & H0 & H1 & Hone & Hzero).
  clearbody k1.
  exists q. eexists. split.
  - unfold accuracy_cell, bind, get, print, modify, lift, ret.
    rewrite Hq. reflexivity.
  - cbn [stdout]. split; [by rewrite <- app_assoc|done].
Qed.

Lemma accuracy_is_a_share_witness :
  let w := World (Ok tt) (Ok tt)
             (λ _, ["batch_predictions/017.Cardinal/Cardinal_0001.jpg.out"])
             (λ _, Ok (JDict [("predictions",
                               JList [JList [JFloat (Fin (1 # 10));
                                             JFloat (Fin (9 # 10))]])])) in
  let class_name_list := ["013.Bobolink"; "017.Cardinal"] in
  let k1 := (aggregate_cell w class_name_list kernel0).2 in
  0 < total k1 ∧ (Z.of_nat (total k1) ≤ 10 ^ 15)%Z ∧
  ∃ accuracy k2,
    accuracy_cell k1 = (Ok accuracy, k2) ∧
    stdout k2 = stdout k1 ++ [printed_totals (total k1) (correct k1);
                              printed_accuracy accuracy] ∧
    (0 <= accuracy)%Q ∧ (accuracy <= 1)%Q ∧
    (accuracy == 1 ↔ correct k1 = total k1) ∧
    (accuracy == 0 ↔ correct k1 = 0).
Proof.
  intros w class_name_list k1.
  assert (total k1 = 1) as Htotal by (vm_compute; reflexivity).
  assert (0 < total k1) as Hpos by (rewrite Htotal; lia).
  assert (Z.of_nat (total k1) ≤ 10 ^ 15)%Z as Hbig by (rewrite Htotal; lia).
  split; [exact Hpos|]. split; [exact Hbig|].
  exact (accuracy_is_a_share w class_name_list kernel0 Hpos Hbig).
Defined.

(** ** Which classes reach which output *)

Module CoverageFacts.

Local Open Scope Q_scope.

(** [round(frac * len)] is within a half, and a relative error of
    [10^-15], of the exact product. *)
Lemma sample_size_near f (n : nat) :
  0 <= f →
  let A := f * inject_Z (Z.of_nat n) in
  A - A * (1 # 1000000000000000) - (1 # 2) <= inject_Z (sample_size f n) ∧
  inject_Z (sample_size f n) <= A + A * (1 # 1000000000000000) + (1 # 2).
Proof.
  intros Hf0 A. unfold sample_size, fmul, float_of_nat.
  set (N := inject_Z (Z.of_nat n)) in *.
  assert (0 <= N) as HN.
  { subst N. change 0 with (inject_Z 0). rewrite <- Zle_Qle. lia. }
  destruct (rnd_bounds N HN) as (Hy0 & Hy2 & Hy1).
  set (y := rnd N) in *.
  assert (0 <= f * y) as Hfy by (by apply Qmult_le_0_compat).
  destruct (rnd_bounds (f * y) Hfy) as (Hz0 & Hz2 & Hz1).
  set (z := rnd (f * y)) in *.
  pose proof (py_round_lower z) as Hl. pose proof (py_round_upper z) as Hu.
  destruct ulp_half_bounds as [Hc0 Hc].
  set (c := ulp_half) in *.
  assert (0 <= A) as HA by (by apply Qmult_le_0_compat).
  assert (N * c <= N * (1 # 4000000000000000)) as B1
    by (rewrite !(Qmult_comm N); apply Qmult_le_compat_r; [lra|done]).
  assert (f * (N - N * (1 # 4000000000000000)) <= f * y) as B2
    by (rewrite !(Qmult_comm f); apply Qmult_le_compat_r; [lra|done]).
  assert (f * y <= f * (N + N * (1 # 4000000000000000))) as B3
    by (rewrite !(Qmult_comm f); apply Qmult_le_compat_r; [lra|done]).
  assert (f * y * c <= f * y * (1 # 4000000000000000)) as B4
    by (rewrite !(Qmult_comm (f * y)); apply Qmult_le_compat_r; [lra|done]).
  assert (f * (N - N * (1 # 4000000000000000))
          == A - A * (1 # 4000000000000000)) as E1 by (subst A; ring).
  assert (f * (N + N * (1 # 4000000000000000))
          == A + A * (1 # 4000000000000000)) as E2 by (subst A; ring).
  rewrite E1 in B2. rewrite E2 in B3.
  set (m := inject_Z (py_round z)) in *.
  set (fy := f * y) in *. set (fyc := fy * c) in *.
  clearbody A m fy fyc z y c N. split; lra.
Qed.

Local Close Scope Q_scope.

(** The counts of the notebook's split for one class of [n] rows. *)
Lemma split_counts (n : nat) (frac : Q) :
  ((1 # 3) - (1 # 1000000000000000) <= frac)%Q →
  (frac <= (1 # 3) + (1 # 1000000000000000))%Q →
  let a := Z.to_nat (sample_size (float_lit (7 # 10)) n) in
  let c := Z.to_nat (sample_size frac (n - a)) in
  a ≤ n ∧ c ≤ n - a ∧ (1 ≤ n - a - c ↔ 2 ≤ n) ∧ (1 ≤ c ↔ 6 ≤ n).
Proof.
  intros Hf1 Hf2. cbv zeta.
  destruct split_ratios_facts as (_ & _ & _ & _ & H0 & H1 & _).
  assert (0 <= frac)%Q as Hfrac0 by lra.
  assert (frac <= 99 # 100)%Q as Hfrac1 by lra.
  pose proof (sample_size_bounds (float_lit (7 # 10)) n H0 H1) as Ha.
  destruct (decide (n < 6)) as [Hsmall|Hbig].
  - assert (sample_size (float_lit (7 # 10)) 0 = 0%Z) as T0
      by (vm_compute; reflexivity).
    assert (sample_size (float_lit (7 # 10)) 1 = 1%Z) as T1
      by (vm_compute; reflexivity).
    assert (sample_size (float_lit (7 # 10)) 2 = 1%Z) as T2
      by (vm_compute; reflexivity).
    assert (sample_size (float_lit (7 # 10)) 3 = 2%Z) as T3
      by (vm_compute; reflexivity).
    assert (sample_size (float_lit (7 # 10)) 4 = 3%Z) as T4
      by (vm_compute; reflexivity).
    assert (sample_size (float_lit (7 # 10)) 5 = 4%Z) as T5
      by (vm_compute; reflexivity).
    assert (∃ a : nat, Z.to_nat (sample_size (float_lit (7 # 10)) n) = a
              ∧ a ≤ n ∧ n - a ≤ 1 ∧ (1 ≤ n - a ↔ 2 ≤ n)) as (a & -> & Ha1 & Ha2 & Ha3).
    { clear Ha.
      destruct n as [|[|[|[|[|[|n']]]]]];
        [rewrite T0|rewrite T1|rewrite T2|rewrite T3|rewrite T4|rewrite T5
        |exfalso; lia]; eexists; (split; [reflexivity|lia]). }
    clear T0 T1 T2 T3 T4 T5 Ha.
    rewrite (sample_size_third frac (n - a) Hf1 Hf2) by lia.
    assert (Z.of_nat (n - a) = 0 ∨ Z.of_nat (n - a) = 1)%Z as [E|E] by lia;
      rewrite E; change (Z.to_nat ((0 + 1) / 3)) with 0;
      change (Z.to_nat ((1 + 1) / 3)) with 0; lia.
  - assert (6 ≤ n) as Hn6 by lia.
    destruct (sample_size_near (float_lit (7 # 10)) n H0) as [_ Hup].
    assert (float_lit (7 # 10) <= 71 # 100)%Q as Hhi
      by (vm_compute; discriminate).
    set (N := inject_Z (Z.of_nat n)) in *.
    assert (6 <= N)%Q as HN6.
    { subst N. change 6%Q with (inject_Z 6). rewrite <- Zle_Qle. lia. }
    assert (float_lit (7 # 10) * N <= (71 # 100) * N)%Q as HA
      by (apply Qmult_le_compat_r; [exact Hhi|lra]).
    assert (0 <= float_lit (7 # 10) * N)%Q as HA0
      by (apply Qmult_le_0_compat; [exact H0|lra]).
    assert (inject_Z (sample_size (float_lit (7 # 10)) n) < N - 1)%Q as Hlt.
    { set (A := (float_lit (7 # 10) * N)%Q) in *.
      set (s := inject_Z (sample_size _ n)) in *.
      clearbody A s N. lra. }
    subst N. change 1%Q with (inject_Z 1) in Hlt.
    unfold Qminus in Hlt.
    rewrite <- inject_Z_opp, <- inject_Z_plus, <- Zlt_Qlt in Hlt.
    clear Hup HN6 HA HA0 Hhi.
    set (a := Z.to_nat (sample_size (float_lit (7 # 10)) n)) in *.
    assert (a ≤ n ∧ 2 ≤ n - a) as [Ha1 Hrem] by (subst a; lia).
    clearbody a. clear Ha Hlt.
    pose proof (sample_size_bounds frac (n - a) Hfrac0 Hfrac1) as Hc.
    destruct (sample_size_near frac (n - a) Hfrac0) as [Hlo' Hup'].
    set (M := inject_Z (Z.of_nat (n - a))) in *.
    assert (2 <= M)%Q as HM2.
    { subst M. change 2%Q with (inject_Z 2). rewrite <- Zle_Qle. lia. }
    assert ((33 # 100) * M <= frac * M)%Q as HB1
      by (apply Qmult_le_compat_r; lra).
    assert (frac * M <= (34 # 100) * M)%Q as HB2
      by (apply Qmult_le_compat_r; lra).
    assert (0 < inject_Z (sample_size frac (n - a))
            ∧ inject_Z (sample_size frac (n - a)) < M)%Q as [Hc1 Hc2].
    { set (B := (frac * M)%Q) in *.
      set (s := inject_Z (sample_size frac (n - a))) in *.
      clearbody B s M. split; lra. }
    subst M. change 0%Q with (inject_Z 0) in Hc1.
    rewrite <- Zlt_Qlt in Hc1, Hc2.
    clear Hlo' Hup' HM2 HB1 HB2.
    set (c := sample_size frac (n - a)) in *. clearbody c. lia.
Qed.

Section classes.
Context {R : Type} (col : R → cell) (df : frame R).

Lemma select_nonempty (x : frame R) k :
  (∃ r, r ∈ x ∧ col (dat r) = Some k) ↔ 1 ≤ length (select col (Some k) x).
Proof.
  split.
  - intros (r & Hr & Hk).
    assert (r ∈ select col (Some k) x) as Hsel
      by (apply elem_of_select; rewrite Hk; split; [split; [by eexists|done]|done]).
    destruct (select col (Some k) x); [by apply elem_of_nil in Hsel|cbn; lia].
  - destruct (select col (Some k) x) as [|r rest] eqn:E; [cbn; lia|].
    intros _. exists r.
    assert (r ∈ select col (Some k) x) as Hr by (rewrite E; left).
    apply elem_of_select in Hr as [[_ Hc] Hin]. done.
Qed.
End classes.
End CoverageFacts.
Import CoverageFacts.

(** X16.  With the split ratios of the notebook and row indices that are
    distinct within each class, the size of a class decides where it
    lands: the val output holds a row of the class exactly when the class
    has at least two rows, and the test output exactly when it has at
    least six.  A class of five rows sends four to train, since
    [round(0.7 * 5)] is 4, and none to test. *)
Theorem small_classes_miss_val_and_test {R} (df : frame R)
    (label_column : R → cell) (g : rng) (tr va te : frame R) (g' : rng)
    (k : string) :
  (∀ l, NoDup (index (select label_column l df))) →
  split_to_train_val_test df label_column SPLIT_RATIOS g
    = (Ok (tr, va, te), g') →
  let n := length (select label_column (Some k) df) in
  ((∃ r, r ∈ va ∧ label_column (dat r) = Some k) ↔ 2 ≤ n) ∧
  ((∃ r, r ∈ te ∧ label_column (dat r) = Some k) ↔ 6 ≤ n).
Proof.
  intros Hnd Hrun n. rewrite !select_nonempty.
  pose proof (split_select _ _ _ _ _ _ _ _ _ _ (Some k) Hnd Hrun) as Hsel.
  apply Permutation_length in Hsel. rewrite !length_app in Hsel. fold n in Hsel.
  destruct split_ratios_facts as (frac & _ & Hfrac & _ & _ & _ & Hf1 & Hf2 & _).
  destruct (split_counts n frac Hf1 Hf2) as (Ha & Hc & Hval & Htest).
  destruct (decide (Some k ∈ (label_column ∘ dat <$> df))) as [Hin|Hnotin].
  - destruct (split_per_label _ _ _ _ _ _ _ _ _ _ k Hnd Hrun Hin)
      as (_ & Hlen1 & frac' & Hfrac' & Hlen2).
    cbn [fst snd] in Hlen1, Hlen2. fold n in Hlen1, Hlen2.
    assert (frac' = frac) as -> by congruence.
    rewrite Hlen1 in Hlen2. clear Hfrac Hfrac' Hf1 Hf2.
    set (a := Z.to_nat (sample_size (float_lit (7 # 10)) n)) in *.
    set (c := Z.to_nat (sample_size frac (n - a))) in *.
    clearbody a c.
    set (la := length (select label_column (Some k) tr)) in *.
    set (lb := length (select label_column (Some k) va)) in *.
    set (lc := length (select label_column (Some k) te)) in *.
    clearbody la lb lc n. subst la lc. split.
    + rewrite <- Hval. lia.
    + exact Htest.
  - pose proof (select_absent label_column (Some k) df Hnotin) as Hnil.
    assert (n = 0) as Hn0 by (subst n; rewrite Hnil; reflexivity).
    clear Hfrac Hf1 Hf2 Ha Hc Hval Htest.
    set (la := length (select label_column (Some k) tr)) in *.
    set (lb := length (select label_column (Some k) va)) in *.
    set (lc := length (select label_column (Some k) te)) in *.
    clearbody la lb lc n. lia.
Qed.

Lemma small_classes_miss_val_and_test_witness :
  let df : frame cell :=
    [IRow 0 (Some "a"); IRow 1 (Some "b"); IRow 2 (Some "a"); IRow 3 (Some "a")] in
  let tr := [IRow 3 (Some "a"); IRow 0 (Some "a"); IRow 1 (Some "b")] in
  let va := [IRow 2 (Some "a")] in
  let n := length (select id (Some "b") df) in
  (∀ l, NoDup (index (select id l df))) ∧
  split_to_train_val_test df id SPLIT_RATIOS [2; 0; 1] = (Ok (tr, va, []), []) ∧
  ((∃ r, r ∈ va ∧ id (dat r) = Some "b") ↔ 2 ≤ n) ∧
  ((∃ r, r ∈ [] ∧ id (dat r) = Some "b") ↔ 6 ≤ n).
Proof.
  intros df tr va n.
  assert (∀ l, NoDup (index (select id l df))) as Hnd.
  { intros l. apply index_select_NoDup.
    apply (bool_decide_unpack _). vm_compute. exact I. }
  assert (split_to_train_val_test df id SPLIT_RATIOS [2; 0; 1]
          = (Ok (tr, va, []), [])) as Hrun by (vm_compute; reflexivity).
  split; [exact Hnd|]. split; [exact Hrun|].
  exact (small_classes_miss_val_and_test df id [2; 0; 1] tr va [] [] "b"
           Hnd Hrun).
Defined.

(** ** Conservation in the tallying loop, the sample-file cell, and the
    renumbering of the classes *)

Module MoreFacts.

Section loop.
Variable w : world.
Variable class_name_list : list string.

(** Every entry adds one to [total] or one error line to the output,
    never both. *)
Lemma aggregate_conserves entries k :
  ∃ errs,
    stdout (aggregate w class_name_list entries k).2
      = stdout k ++ (printed_error <$> errs) ∧
    total (aggregate w class_name_list entries k).2 + length errs
      = total k + length entries.
Proof.
  revert k. induction entries as [|entry entries IH]; intros k.
  { exists []. cbn. by rewrite app_nil_r, Nat.add_0_r. }
  destruct (loop_body_cases w class_name_list entry)
    as [(ci & ai & c & _ & _ & H)|(e & cs0 & _ & _ & H)];
    rewrite !(aggregate_cons _ _ _ _ _ _ (H k)).
  - match goal with |- context [aggregate _ _ _ ?k1] =>
      destruct (IH k1) as (errs & Hout & Htot) end.
    exists errs. split; [exact Hout|].
    cbn [total] in Htot. cbn [length]. lia.
  - match goal with |- context [aggregate _ _ _ ?k1] =>
      destruct (IH k1) as (errs & Hout & Htot) end.
    exists (e :: errs). split.
    + rewrite Hout. cbn [stdout fmap list_fmap]. by rewrite <- app_assoc.
    + cbn [total] in Htot. cbn [length]. lia.
Qed.
End loop.

Lemma StronglySorted_lookup_lt (l : list Z) i j x y :
  StronglySorted Z.lt l → l !! i = Some x → l !! j = Some y →
  (i < j ↔ (x < y)%Z).
Proof.
  intros Hs. revert i j.
  assert (∀ i j x y, i < j → l !! i = Some x → l !! j = Some y → (x < y)%Z)
    as Hmono.
  { clear x y. induction Hs as [|z l Hs IH Hall]; intros i j x y Hij Hi Hj;
      [done|].
    destruct j as [|j]; [lia|]. cbn in Hj.
    destruct i as [|i]; cbn in Hi.
    - simplify_eq. rewrite Forall_forall in Hall. apply Hall.
      by eapply list_elem_of_lookup_2.
    - apply (IH i j); [lia|done|done]. }
  intros i j Hi Hj. split; [intros; by eapply Hmono|].
  intros Hxy. destruct (decide (i < j)) as [|Hge]; [done|]. exfalso.
  destruct (decide (i = j)) as [->|Hne]; [simplify_eq; lia|].
  pose proof (Hmono j i y x ltac:(lia) Hj Hi). lia.
Qed.

End MoreFacts.
Import MoreFacts.

(** X17.  In the aggregation cell every listed file is accounted for
    once: it either adds one to [total] or prints one error line, so
    [total] plus the number of error lines is the number of files
    listed. *)
Theorem every_file_is_counted_or_reported (w : world)
    (class_name_list : list string) (k : kernel) :
  let k1 := (aggregate_cell w class_name_list k).2 in
  ∃ errs,
    stdout k1 = stdout k ++ (printed_error <$> errs) ∧
    total k1 + length errs
      = length (glob_outcome w "batch_predictions/*/*").
Proof.
  cbn zeta. rewrite aggregate_cell_eq.
  match goal with |- context [aggregate _ _ _ ?k0] =>
    destruct (aggregate_conserves w class_name_list
                (glob_outcome w "batch_predictions/*/*") k0)
      as (errs & Hout & Htot) end.
  exists errs. split; [exact Hout|exact Htot].
Qed.

(** X18.  The cell that shows a sample output file needs a file: with an
    empty listing it prints that it found 0 files and raises IndexError at
    [filepaths[0]], without calling [cat]; with a non-empty listing it
    prints the number of files and shows the first one. *)
Theorem sample_file_cell_needs_a_file (w : world) (k : kernel) :
  let listing := glob_outcome w "./batch_predictions/*/*" in
  let r := sample_file_cell w k in
  stdout r.2 = stdout k ++ [printed_found (length listing)] ∧
  (listing = [] →
   r.1 = Raise IndexError ∧
   calls r.2 = calls k ++ [glob_glob "./batch_predictions/*/*"]) ∧
  (∀ f fs, listing = f :: fs →
   r.1 = Ok tt ∧
   calls r.2 = calls k ++ [glob_glob "./batch_predictions/*/*"; cat f]).
Proof.
  cbn zeta. unfold sample_file_cell, getitem_list.
  destruct (glob_outcome w "./batch_predictions/*/*") as [|f fs] eqn:E.
  - split_and!; [done|done|]. intros f fs [=].
  - split_and!; [done|done|]. intros f' fs' [= <- <-]. cbn.
    by rewrite <- app_assoc.
Qed.

(** X19.  The renumbering of the classes in [get_train_val_dataframes]
    keeps the classes apart and in order: for any two rows it returns, the
    class ids are equal exactly when the original class ids are, and the
    number read from one class id is smaller than the number read from the
    other exactly when its original class id is smaller. *)
Theorem renumbering_keeps_the_order (images : list (Z * string))
    (image_class_labels : list (Z * Z)) (g : rng) :
  ∃ tr va te g',
    get_train_val_dataframes images image_class_labels g
      = (Ok (tr, va, te), g') ∧
    ∀ r1 r2, r1 ∈ tr ++ va ++ te → r2 ∈ tr ++ va ++ te →
      (class_id (dat r1) = class_id (dat r2)
       ↔ orig_class_id (dat r1) = orig_class_id (dat r2)) ∧
      ∃ c1 c2,
        int_of_cell (class_id (dat r1)) = Ok c1 ∧
        int_of_cell (class_id (dat r2)) = Ok c2 ∧
        ((c1 < c2)%Z ↔ (orig_class_id (dat r1) < orig_class_id (dat r2))%Z).
Proof.
  destruct (get_train_val_dataframes_returns images image_class_labels g)
    as (tr & va & te & g' & Hrun & Hrows).
  exists tr, va, te, g'. split; [exact Hrun|].
  intros r1 r2 Hr1 Hr2. apply Hrows in Hr1, Hr2.
  destruct (full_df_class_id _ _ r1 Hr1) as (j1 & _ & Hj1 & Hc1).
  destruct (full_df_class_id _ _ r2 Hr2) as (j2 & _ & Hj2 & Hc2).
  destruct (sorted_unique_classes_spec images image_class_labels)
    as (Hnd & Hsorted & _).
  pose proof (StronglySorted_lookup_lt _ j1 j2 _ _ Hsorted Hj1 Hj2) as Hlt.
  rewrite Hc1, Hc2. split.
  - split.
    + intros [= E]. apply (inj str) in E. injection E as ->. congruence.
    + intros E. rewrite <- E in Hj2.
      by rewrite (NoDup_lookup _ _ _ _ Hnd Hj1 Hj2).
  - exists (Z.of_nat (S j1)), (Z.of_nat (S j2)).
    cbn [int_of_cell]. rewrite !int_of_str_str.
    split; [done|]. split; [done|]. rewrite <- Hlt. lia.
Qed.
